(** * Verification of the Bedrock knowledge-base lifecycle orchestrator

    A shallow embedding of [utils/knowledge_base.py] (class
    [BedrockKnowledgeBase]): the model tables and their validation, the
    provisioning pipeline run by the constructor, ingestion, and teardown.

    Every call to a provider (boto3 client, OpenSearch client) is an explicit
    [call] answered by a world that is a parameter of the development, so that
    the theorems hold for every behaviour of the providers; a small concrete
    cloud ([MockCloud]) is used to run the code on examples. *)

From Stdlib Require Import String Ascii List Bool Arith ZArith Lia.
From Stdlib Require Import DecimalString.
Import ListNotations.
Open Scope string_scope.

Set Implicit Arguments.

(** ** Module-level tables *)

Definition valid_generation_models : list string :=
  [ "us.anthropic.claude-sonnet-4-20250514-v1:0";
    "us.anthropic.claude-sonnet-4-5-20250929-v1:0";
    "us.anthropic.claude-haiku-4-5-20251001-v1:0";
    "global.anthropic.claude-sonnet-4-20250514-v1:0";
    "global.anthropic.claude-sonnet-4-5-20250929-v1:0";
    "global.anthropic.claude-haiku-4-5-20251001-v1:0";
    "amazon.nova-micro-v1:0";
    "amazon.nova-lite-v1:0";
    "amazon.nova-pro-v1:0";
    "amazon.nova-premier-v1:0" ].

Definition valid_reranking_models : list string :=
  [ "cohere.rerank-v3-5:0"; "amazon.rerank-v1:0" ].

Definition valid_embedding_models : list string :=
  [ "cohere.embed-v4:0";
    "cohere.embed-multilingual-v3";
    "cohere.embed-english-v3";
    "us.cohere.embed-v4:0";
    "global.cohere.embed-v4:0";
    "amazon.titan-embed-text-v1";
    "amazon.titan-embed-text-v2:0";
    "amazon.titan-embed-g1-text-02";
    "amazon.titan-embed-image-v1";
    "amazon.nova-2-multimodal-embeddings-v1:0" ].

(** The dict literal [embedding_context_dimensions]; its keys are pairwise
    distinct, so the association list read left to right is the dict. *)
Definition embedding_context_dimensions : list (string * Z) :=
  [ ("cohere.embed-v4:0", 1024%Z);
    ("cohere.embed-multilingual-v3", 1024%Z);
    ("cohere.embed-english-v3", 1024%Z);
    ("us.cohere.embed-v4:0", 1024%Z);
    ("global.cohere.embed-v4:0", 1024%Z);
    ("amazon.titan-embed-text-v1", 1536%Z);
    ("amazon.titan-embed-text-v2:0", 1024%Z);
    ("amazon.titan-embed-g1-text-02", 1024%Z);
    ("amazon.titan-embed-image-v1", 1024%Z);
    ("amazon.nova-2-multimodal-embeddings-v1:0", 3072%Z) ].

(** The local list of [_validate_models]. *)
Definition multimodal_compatible_models : list string :=
  [ "cohere.embed-v4:0";
    "us.cohere.embed-v4:0";
    "global.cohere.embed-v4:0";
    "amazon.titan-embed-image-v1" ].

(** The list literal tested in [_get_embedding_dimensions]. *)
Definition cohere_v4_models : list string :=
  [ "cohere.embed-v4:0"; "us.cohere.embed-v4:0"; "global.cohere.embed-v4:0" ].

(** ** Python primitives on strings, lists and dicts *)

(** [x in l] for a list of strings. *)
Definition str_in (x : string) (l : list string) : bool :=
  existsb (String.eqb x) l.

(** [d.get(k)] for a dict with string keys. *)
Fixpoint dict_get {V : Type} (d : list (string * V)) (k : string) : option V :=
  match d with
  | [] => None
  | (k', v) :: d' => if String.eqb k k' then Some v else dict_get d' k
  end.

(** [needle in hay] for two strings. *)
Fixpoint contains (needle hay : string) : bool :=
  String.prefix needle hay ||
  match hay with
  | EmptyString => false
  | String _ hay' => contains needle hay'
  end.

(** [s.split(sep)] for a one-character separator. *)
Fixpoint split_on (sep : ascii) (s : string) : list string :=
  match s with
  | EmptyString => [EmptyString]
  | String c s' =>
      if Ascii.eqb c sep then EmptyString :: split_on sep s'
      else match split_on sep s' with
           | [] => [String c EmptyString]
           | w :: ws => String c w :: ws
           end
  end.

(** [a or b] for an optional string: [None] and the empty string are falsy. *)
Definition str_or (a : option string) (b : string) : string :=
  match a with
  | Some (String c s) => String c s
  | _ => b
  end.

(** [f"{n}"] for a natural number. *)
Definition str_nat (n : nat) : string :=
  NilEmpty.string_of_uint (Nat.to_uint n).

(** Truthiness of an optional string and of a list. *)
Definition truthy_str (a : option string) : bool :=
  match a with
  | Some (String _ _) => true
  | _ => false
  end.

Definition truthy_list {A : Type} (l : list A) : bool :=
  match l with [] => false | _ :: _ => true end.

(** ** Exceptions *)

(** The exception classes the code raises or catches.  A boto3 modelled
    exception ([client.exceptions.ConflictException] and the like) is a
    [ClientError] selected by its error code. *)
Inductive exn : Type :=
| ClientError (code operation message : string)
| RequestError (error : string)
| ValueError (message : string)
| TypeError (message : string)
| KeyError (key : string)
| IndexError
| AttributeError (name : string)
| UnboundLocalError (name : string)
| OtherException (message : string).

(** [e.response["Error"]["Code"]] of a [ClientError]. *)
Definition error_code (e : exn) : option string :=
  match e with
  | ClientError code _ _ => Some code
  | _ => None
  end.

Definition has_code (c : string) (e : exn) : bool :=
  match error_code e with
  | Some code => String.eqb code c
  | None => false
  end.

Definition is_ClientError (e : exn) : bool :=
  match e with ClientError _ _ _ => true | _ => false end.

Definition is_RequestError (e : exn) : bool :=
  match e with RequestError _ => true | _ => false end.

Definition is_ConflictException : exn -> bool := has_code "ConflictException".
Definition is_ResourceNotFoundException : exn -> bool :=
  has_code "ResourceNotFoundException".
Definition is_ResourceAlreadyExistsException : exn -> bool :=
  has_code "ResourceAlreadyExistsException".
Definition is_NoSuchEntityException : exn -> bool := has_code "NoSuchEntity".
Definition is_EntityAlreadyExistsException : exn -> bool :=
  has_code "EntityAlreadyExists".

(** [str(e)]. *)
Definition str_exn (e : exn) : string :=
  match e with
  | ClientError code operation message =>
      "An error occurred (" ++ code ++ ") when calling the " ++ operation
        ++ " operation: " ++ message
  | RequestError error => error
  | ValueError m | TypeError m | OtherException m => m
  | KeyError k => "'" ++ k ++ "'"
  | IndexError => "list index out of range"
  | AttributeError n => n
  | UnboundLocalError n =>
      "cannot access local variable '" ++ n
        ++ "' where it is not associated with a value"
  end.

(** The test used for IAM roles and policies:
    ["EntityAlreadyExists" in str(e) or "already exists" in str(e)]. *)
Definition says_already_exists (e : exn) : bool :=
  contains "EntityAlreadyExists" (str_exn e)
  || contains "already exists" (str_exn e).

(** ** Model validation and dimension lookup (pure part) *)

(** [f"{l}"] for a list of strings: the elements in single quotes,
    separated by a comma and a space, in brackets. *)
Definition repr_list (l : list string) : string :=
  "[" ++ String.concat ", " (map (fun s => "'" ++ s ++ "'") l) ++ "]".

(** The texts of the validation errors. *)
Definition invalid_embedding_message : string :=
  "Invalid embedding model. Your embedding model should be one of "
    ++ repr_list valid_embedding_models.
Definition invalid_generation_message : string :=
  "Invalid Generation model. Your generation model should be one of "
    ++ repr_list valid_generation_models.
Definition invalid_reranking_message : string :=
  "Invalid Reranking model. Your reranking model should be one of "
    ++ repr_list valid_reranking_models.
Definition multimodal_message : string :=
  "Multimodal mode requires a multimodal-compatible embedding model. "
    ++ "Compatible models: " ++ repr_list multimodal_compatible_models.

(** [_validate_models] as a function of the four attributes it reads:
    [None] when it returns, [Some e] when it raises [e]. *)
Definition validate_models_check
    (embedding generation reranking : string) (multi_modal : bool)
  : option exn :=
  if negb (str_in embedding valid_embedding_models) then
    Some (ValueError invalid_embedding_message)
  else if negb (str_in generation valid_generation_models) then
    Some (ValueError invalid_generation_message)
  else if negb (str_in reranking valid_reranking_models) then
    Some (ValueError invalid_reranking_message)
  else if multi_modal then
    if negb (str_in embedding multimodal_compatible_models) then
      Some (ValueError multimodal_message)
    else None
  else None.

Definition dimensions_undefined_message (model : string) : string :=
  "Dimensions not defined for embedding model: " ++ model.

(** [_get_embedding_dimensions] as a function of the two attributes it
    reads. *)
Definition get_embedding_dimensions_of
    (embedding : string) (multi_modal : bool) : exn + Z :=
  match dict_get embedding_context_dimensions embedding with
  | None => inl (ValueError (dimensions_undefined_message embedding))
  | Some base_dimensions =>
      if multi_modal && str_in embedding cohere_v4_models then inr 1024%Z
      else inr base_dimensions
  end.

(** ** Provider calls and their replies *)

(** JSON policy documents, reduced to the parts that vary with the
    instance. *)
Inductive policy_document : Type :=
| FoundationModelDocument
| S3Document (resources : list string) (account : string)
| NeptuneDocument (resource : string)
| SecretsManagerDocument (secrets : list string)
| BdaDocument (region account : string)
| LambdaInvokeDocument (resource account : string)
| CloudWatchDocument (region account log_group : string)
| OssDocument (resource : string)
| LambdaS3Document (bucket account : string).

Inductive storage_configuration : Type :=
| NeptuneAnalyticsStorage (graph_arn : string)
| OpenSearchServerlessStorage (collection_arn vector_index_name : string).

Inductive data_source_configuration : Type :=
| S3Configuration (bucket_arn : string)
| ConfluenceConfiguration (host_url auth_type secret_arn : string)
| SharePointConfiguration
    (tenant_id domain auth_type : string) (site_urls : list string)
    (secret_arn : string)
| SalesforceConfiguration (host_url auth_type secret_arn : string)
| WebConfiguration (seed_urls inclusion_filters exclusion_filters : list string).

Inductive chunking_configuration : Type :=
| GraphEnrichment (model_arn : string)
| NoChunking
| FixedSizeChunking (max_tokens overlap_percentage : Z)
| HierarchicalChunking (parent_tokens child_tokens overlap_tokens : Z)
| SemanticChunking (max_tokens buffer_size breakpoint_threshold : Z)
| CustomTransformation (intermediate_uri : string) (lambda_arn : option string).

Inductive parsing_configuration : Type :=
| FoundationModelParsing (model_arn : string)
| DataAutomationParsing.

Record vector_ingestion_configuration : Type := {
  chunking : chunking_configuration;
  parsing : option parsing_configuration
}.

(** One constructor per provider operation the class invokes, with the
    arguments that identify the resource. *)
Inductive call : Type :=
(* sts *)
| GetCallerIdentity
(* s3 client *)
| HeadBucket (bucket : string)
| CreateBucket (bucket : string) (location_constraint : option string)
(* s3 resource *)
| ListBuckets
| DeleteObjectVersions (bucket : string)
| DeleteObjects (bucket : string)
| DeleteBucket (bucket : string)
(* logs *)
| CreateLogGroup (name : string)
| PutRetentionPolicy (name : string) (days : Z)
| CreateDeliverySource (name resource_arn : string)
| DescribeDeliverySources (name : string)
| CreateDeliveryDestination (name destination_arn : string)
| DescribeDeliveryDestinations (name : string)
| CreateDelivery (source_name destination_arn : string)
| DeleteLogGroup (name : string)
(* iam *)
| CreateRole (role_name service : string)
| GetRole (role_name : string)
| UpdateAssumeRolePolicy (role_name service : string)
| CreatePolicy (policy_name : string) (document : policy_document)
| ListPolicyVersions (policy_arn : string)
| DeletePolicyVersion (policy_arn version_id : string)
| CreatePolicyVersion (policy_arn : string) (document : policy_document)
| AttachRolePolicy (role_name policy_arn : string)
| ListAttachedRolePolicies (role_name : string)
| DetachRolePolicy (role_name policy_arn : string)
| DeletePolicy (policy_arn : string)
| DeleteRole (role_name : string)
(* opensearchserverless *)
| CreateSecurityPolicy (name type collection : string)
| GetSecurityPolicy (name type : string)
| CreateAccessPolicy (name collection : string) (principals : list string)
| GetAccessPolicy (name : string)
| CreateCollection (name : string)
| BatchGetCollection (name : string)
| DeleteCollection (id : string)
| DeleteAccessPolicy (name : string)
| DeleteSecurityPolicy (type name : string)
(* OpenSearch index API *)
| IndicesCreate (host index : string) (dimension : Z)
(* neptune-graph *)
| CreateGraph (graph_name : string) (dimension : Z)
| GetGraph (graph_id : string)
| UpdateGraph (graph_id : string) (deletion_protection : bool)
| DeleteGraph (graph_id : string)
(* lambda, and the local file packaged for it *)
| ZipWrite (file : string)
| CreateFunction (function_name role_arn : string)
| DeleteFunction (function_name : string)
(* bedrock-agent *)
| CreateKnowledgeBase
    (name description role_arn embedding_model_arn : string)
    (supplemental_storage : option string) (storage : storage_configuration)
| ListKnowledgeBases
| GetKnowledgeBase (kb_id : string)
| CreateDataSource
    (name description kb_id : string)
    (configuration : data_source_configuration)
    (ingestion : vector_ingestion_configuration)
| ListDataSources (kb_id : string)
| GetDataSource (ds_id kb_id : string)
| StartIngestionJob (kb_id ds_id : string)
| GetIngestionJob (kb_id ds_id job_id : string)
| DeleteDataSource (ds_id kb_id : string)
| DeleteKnowledgeBase (kb_id : string).

(** The parts of the response dicts that the code reads. *)
Record role : Type := { RoleName : string; RoleArn : string }.
Record collection_detail : Type := {
  collection_id_of : string; collection_arn_of : string;
  collection_status : string
}.
Record knowledge_base_detail : Type := {
  knowledgeBaseId : string; knowledgeBaseArn : string
}.
Record data_source_detail : Type := { dataSourceId : string }.
Record ingestion_job : Type := { ingestionJobId : string; status : string }.
Record attached_policy : Type := { PolicyArn : string; PolicyName : string }.
Record policy_version : Type := { VersionId : string; IsDefaultVersion : bool }.

Inductive response : Type :=
| NoContent
| CallerIdentity (account arn : string)
| RoleResponse (r : role)
| PolicyResponse (arn : string)
| PolicyVersions (versions : list policy_version)
| AttachedPolicies (policies : list attached_policy)
| CreateCollectionDetail (id arn : string)
| CollectionDetails (details : list collection_detail)
| GraphResponse (id status : string)
| GraphUpdated (deletion_protection : bool)
| FunctionResponse (function_arn : string)
| DeliverySources (names : list string)
| DeliveryDestination (arn : string)
| DeliveryDestinations (arns : list string)
| DeliveryResponse (delivery_status : string)
| KnowledgeBaseResponse (kb : knowledge_base_detail)
| KnowledgeBaseSummaries (summaries : list (string * string))
| DataSourceResponse (ds : data_source_detail)
| DataSourceSummaries (ids : list string)
| IngestionJobResponse (job : ingestion_job)
| Buckets (names : list string).

Inductive reply : Type :=
| Returns (r : response)
| Raises (e : exn).

(** What an observer of a run sees: the provider calls with their replies,
    and the lines printed. *)
Inductive event : Type :=
| Called (c : call) (r : reply)
| Printed (line : string).

(** ** Outcomes *)

Inductive result (A : Type) : Type :=
| Ok (a : A)
| Raise (e : exn)
| Diverge.

Arguments Ok {A} a.
Arguments Raise {A} e.
Arguments Diverge {A}.

(** ** Constructor arguments and instance attributes *)

(** A data-source descriptor is a dict; its string-valued entries and its
    list-valued entries ([siteUrls], [seedUrls], [inclusionFilters],
    [exclusionFilters]) are kept apart. *)
Record descriptor : Type := {
  scalars : list (string * string);
  lists : list (string * list string)
}.

(** The keyword arguments of [__init__].  [multi_modal] is only ever tested
    for truth, so it is a boolean. *)
Record Args : Type := {
  arg_kb_name : option string;
  arg_kb_description : option string;
  arg_data_sources : option (list descriptor);
  arg_multi_modal : bool;
  arg_parser : option string;
  arg_intermediate_bucket_name : option string;
  arg_lambda_function_name : option string;
  arg_embedding_model : string;
  arg_generation_model : string;
  arg_reranking_model : string;
  arg_graph_model : string;
  arg_chunking_strategy : string;
  arg_suffix : option string;
  arg_vector_store : string
}.

(** Attributes assigned once by [__init__] before [_setup_resources]. *)
Record Attributes : Type := {
  region_name : string;
  account_number : string;
  suffix : string;
  identity : string;
  kb_name : string;
  vector_store : string;
  graph_name : string;
  kb_description : string;
  data_sources : list descriptor;
  bucket_names : list string;
  secrets_arns : list string;
  chunking_strategy : string;
  multi_modal : bool;
  parser : option string;
  intermediate_bucket_name : option string;
  lambda_function_name : option string;
  embedding_model : string;
  generation_model : string;
  reranking_model : string;
  graph_model : string;
  encryption_policy_name : string;
  network_policy_name : string;
  access_policy_name : string;
  kb_execution_role_name : string;
  fm_policy_name : string;
  s3_policy_name : string;
  sm_policy_name : string;
  cw_log_policy_name : string;
  oss_policy_name : string;
  lambda_policy_name : string;
  bda_policy_name : string;
  neptune_policy_name : string;
  vector_store_name : string;
  index_name : string;
  log_group_name : string
}.

(** Attributes assigned or reassigned by the provisioning steps; [None] is
    an attribute that has not been assigned (reading it raises
    [AttributeError]), except for [lambda_arn] and [graph_id], which
    [__init__] sets to Python's [None]. *)
Record Resources : Type := {
  lambda_arn : option string;
  roles : list string;
  graph_id : option string;
  bedrock_kb_execution_role : option role;
  host : option string;
  collection_id : option string;
  collection_arn : option string;
  lambda_iam_role_name : option string;
  knowledge_base : option knowledge_base_detail;
  data_source : option (list data_source_detail)
}.

Record Self : Type := {
  attrs :> Attributes;
  res :> Resources
}.

Definition with_res (self : Self) (r : Resources) : Self :=
  {| attrs := attrs self; res := r |}.

Definition set_bedrock_kb_execution_role (v : role) (self : Self) : Self :=
  with_res self
    {| lambda_arn := lambda_arn self; roles := roles self;
       graph_id := graph_id self; bedrock_kb_execution_role := Some v;
       host := host self; collection_id := collection_id self;
       collection_arn := collection_arn self;
       lambda_iam_role_name := lambda_iam_role_name self;
       knowledge_base := knowledge_base self;
       data_source := data_source self |}.

Definition set_collection (h id arn : string) (self : Self) : Self :=
  with_res self
    {| lambda_arn := lambda_arn self; roles := roles self;
       graph_id := graph_id self;
       bedrock_kb_execution_role := bedrock_kb_execution_role self;
       host := Some h; collection_id := Some id; collection_arn := Some arn;
       lambda_iam_role_name := lambda_iam_role_name self;
       knowledge_base := knowledge_base self;
       data_source := data_source self |}.

Definition set_graph_id (v : string) (self : Self) : Self :=
  with_res self
    {| lambda_arn := lambda_arn self; roles := roles self;
       graph_id := Some v;
       bedrock_kb_execution_role := bedrock_kb_execution_role self;
       host := host self; collection_id := collection_id self;
       collection_arn := collection_arn self;
       lambda_iam_role_name := lambda_iam_role_name self;
       knowledge_base := knowledge_base self;
       data_source := data_source self |}.

(** [create_lambda] assigns [lambda_iam_role_name] and appends it to
    [roles]. *)
Definition add_lambda_role (v : string) (self : Self) : Self :=
  with_res self
    {| lambda_arn := lambda_arn self; roles := (roles self ++ [v])%list;
       graph_id := graph_id self;
       bedrock_kb_execution_role := bedrock_kb_execution_role self;
       host := host self; collection_id := collection_id self;
       collection_arn := collection_arn self;
       lambda_iam_role_name := Some v;
       knowledge_base := knowledge_base self;
       data_source := data_source self |}.

Definition set_lambda_arn (v : string) (self : Self) : Self :=
  with_res self
    {| lambda_arn := Some v; roles := roles self;
       graph_id := graph_id self;
       bedrock_kb_execution_role := bedrock_kb_execution_role self;
       host := host self; collection_id := collection_id self;
       collection_arn := collection_arn self;
       lambda_iam_role_name := lambda_iam_role_name self;
       knowledge_base := knowledge_base self;
       data_source := data_source self |}.

Definition set_knowledge_base
    (kb : knowledge_base_detail) (ds : list data_source_detail)
    (self : Self) : Self :=
  with_res self
    {| lambda_arn := lambda_arn self; roles := roles self;
       graph_id := graph_id self;
       bedrock_kb_execution_role := bedrock_kb_execution_role self;
       host := host self; collection_id := collection_id self;
       collection_arn := collection_arn self;
       lambda_iam_role_name := lambda_iam_role_name self;
       knowledge_base := Some kb;
       data_source := Some ds |}.

(** [f"{x}"] for an attribute that may hold Python's [None]. *)
Definition fmt (x : option string) : string :=
  match x with Some s => s | None => "None" end.

(** [_get_model_arn]: [model_id.startswith(inference_profile_prefixes)]. *)
Definition inference_profile_prefixes : list string :=
  [ "us."; "us-gov."; "eu."; "apac."; "au."; "ca."; "global." ].

Definition get_model_arn (region account model_id : string) : string :=
  if existsb (fun p => String.prefix p model_id) inference_profile_prefixes
  then "arn:aws:bedrock:" ++ region ++ ":" ++ account
         ++ ":inference-profile/" ++ model_id
  else "arn:aws:bedrock:" ++ region ++ "::foundation-model/" ++ model_id.

(** ** The monad of the orchestrator

    A computation threads the state of the providers, may raise, may fail to
    terminate (a polling loop that outlives its fuel yields [Diverge]), and
    emits the events it causes. *)

Definition M (World A : Type) : Type := World -> result A * World * list event.

Definition ret {World A : Type} (a : A) : M World A :=
  fun w => (Ok a, w, []).

Definition raise {World A : Type} (e : exn) : M World A :=
  fun w => (Raise e, w, []).

Definition diverge {World A : Type} : M World A :=
  fun w => (Diverge, w, []).

Definition bind {World A B : Type} (m : M World A) (k : A -> M World B)
  : M World B :=
  fun w =>
    match m w with
    | (Ok a, w1, t1) =>
        let '(r, w2, t2) := k a w1 in (r, w2, (t1 ++ t2)%list)
    | (Raise e, w1, t1) => (Raise e, w1, t1)
    | (Diverge, w1, t1) => (Diverge, w1, t1)
    end.

(** [try: m  except Exception as e: h e]; a narrower [except] clause is a
    handler that re-raises what it does not match. *)
Definition try_ {World A : Type} (m : M World A) (h : exn -> M World A)
  : M World A :=
  fun w =>
    match m w with
    | (Raise e, w1, t1) =>
        let '(r, w2, t2) := h e w1 in (r, w2, (t1 ++ t2)%list)
    | other => other
    end.

(** [print(line)]. *)
Definition say {World : Type} (line : string) : M World unit :=
  fun w => (Ok tt, w, [Printed line]).

Declare Scope monad_scope.
Delimit Scope monad_scope with monad.
Notation "x <- m ;; k" := (bind m (fun x => k))
  (at level 61, m at next level, right associativity) : monad_scope.
Notation "' p <- m ;; k" := (bind m (fun p => k))
  (at level 61, p pattern, m at next level, right associativity) : monad_scope.
Notation "m ;; k" := (bind m (fun _ => k))
  (at level 61, right associativity) : monad_scope.
Open Scope monad_scope.

Definition outcome {World A : Type} (x : result A * World * list event)
  : result A := fst (fst x).
Definition final {World A : Type} (x : result A * World * list event)
  : World := snd (fst x).
Definition trace {World A : Type} (x : result A * World * list event)
  : list event := snd x.

(** The provider calls of a trace, in order. *)
Fixpoint calls (t : list event) : list call :=
  match t with
  | [] => []
  | Called c _ :: t' => c :: calls t'
  | Printed _ :: t' => calls t'
  end.

(** The lines printed in a trace, in order. *)
Fixpoint printed (t : list event) : list string :=
  match t with
  | [] => []
  | Called _ _ :: t' => printed t'
  | Printed s :: t' => s :: printed t'
  end.

Definition option_string_eqb (a b : option string) : bool :=
  match a, b with
  | Some x, Some y => String.eqb x y
  | None, None => true
  | _, _ => false
  end.

(** ** A small concrete cloud

    A stand-in for the providers, used to run the code on examples: every
    resource is a (kind, name) pair; creating what exists is answered with
    the provider's already-exists error, reading or deleting what does not
    exist with its not-found error.  Status polls report an operation in
    progress [pending] more times. *)

Module MockCloud.

Record cloud : Type := {
  resources : list (string * string);
  attachments : list (string * attached_policy);
  pending : nat
}.

Definition empty : cloud :=
  {| resources := []; attachments := []; pending := 0 |}.

Definition account : string := "111122223333".
Definition caller : string := "arn:aws:iam::111122223333:user/operator".

Definition same (a b : string * string) : bool :=
  String.eqb (fst a) (fst b) && String.eqb (snd a) (snd b).

Definition has (kind name : string) (c : cloud) : bool :=
  existsb (same (kind, name)) (resources c).

Definition add (kind name : string) (c : cloud) : cloud :=
  {| resources := (resources c ++ [(kind, name)])%list;
     attachments := attachments c; pending := pending c |}.

Definition remove (kind name : string) (c : cloud) : cloud :=
  {| resources := filter (fun r => negb (same (kind, name) r)) (resources c);
     attachments := attachments c; pending := pending c |}.

Definition set_pending (n : nat) (c : cloud) : cloud :=
  {| resources := resources c; attachments := attachments c; pending := n |}.

Definition names_of (kind : string) (c : cloud) : list string :=
  map snd (filter (fun r => String.eqb (fst r) kind) (resources c)).

Definition error (code operation message : string) (c : cloud)
  : reply * cloud :=
  (Raises (ClientError code operation message), c).

Definition ok (r : response) (c : cloud) : reply * cloud := (Returns r, c).

(** Create a resource, or answer with the error [code]. *)
Definition create (kind name code operation : string) (r : response)
    (c : cloud) : reply * cloud :=
  if has kind name c
  then error code operation (name ++ " already exists.") c
  else ok r (add kind name c).

(** Succeed on an existing resource, or answer with the error [code]. *)
Definition lookup (kind name code operation : string) (r : response)
    (c : cloud) : reply * cloud :=
  if has kind name c then ok r c
  else error code operation (name ++ " not found.") c.

Definition delete (kind name code operation : string) (c : cloud)
  : reply * cloud :=
  if has kind name c then ok NoContent (remove kind name c)
  else error code operation (name ++ " not found.") c.

(** A successful start leaves [n] polls that report it in progress. *)
Definition starting (n : nat) (x : reply * cloud) : reply * cloud :=
  match x with
  | (Returns r, c) => (Returns r, set_pending n c)
  | other => other
  end.

(** The status reported by a poll, and the cloud after it. *)
Definition poll (busy done : string) (c : cloud) : string * cloud :=
  match pending c with
  | O => (done, c)
  | S n => (busy, set_pending n c)
  end.

Definition role_arn (name : string) : string :=
  "arn:aws:iam::" ++ account ++ ":role/" ++ name.
Definition policy_arn (name : string) : string :=
  "arn:aws:iam::" ++ account ++ ":policy/" ++ name.
Definition kb_of (name : string) : knowledge_base_detail :=
  {| knowledgeBaseId := "KB-" ++ name;
     knowledgeBaseArn := "arn:aws:bedrock:kb/KB-" ++ name |}.
Definition collection_of (name st : string) : collection_detail :=
  {| collection_id_of := "col-" ++ name;
     collection_arn_of := "arn:aws:aoss:collection/col-" ++ name;
     collection_status := st |}.

Definition rnf : string := "ResourceNotFoundException".

Definition perform (c : call) (w : cloud) : reply * cloud :=
  match c with
  | GetCallerIdentity => ok (CallerIdentity account caller) w
  | HeadBucket b =>
      if has "bucket" b w then ok NoContent w
      else if has "foreign-bucket" b w then error "403" "HeadBucket" "Forbidden" w
      else error "404" "HeadBucket" "Not Found" w
  | CreateBucket b _ =>
      if has "foreign-bucket" b w
      then error "BucketAlreadyExists" "CreateBucket"
             "The requested bucket name is not available." w
      else create "bucket" b "BucketAlreadyOwnedByYou" "CreateBucket"
             NoContent w
  | ListBuckets => ok (Buckets (names_of "bucket" w)) w
  | DeleteObjectVersions b | DeleteObjects b =>
      lookup "bucket" b "NoSuchBucket" "DeleteObjects" NoContent w
  | DeleteBucket b => delete "bucket" b "NoSuchBucket" "DeleteBucket" w
  | CreateLogGroup n =>
      create "log-group" n "ResourceAlreadyExistsException" "CreateLogGroup"
        NoContent w
  | PutRetentionPolicy n _ =>
      lookup "log-group" n rnf "PutRetentionPolicy" NoContent w
  | CreateDeliverySource n _ =>
      create "delivery-source" n "ResourceAlreadyExistsException"
        "CreateDeliverySource" NoContent w
  | DescribeDeliverySources n => ok (DeliverySources [n]) w
  | CreateDeliveryDestination n _ =>
      create "delivery-destination" n "ResourceAlreadyExistsException"
        "CreateDeliveryDestination"
        (DeliveryDestination ("arn:aws:logs:delivery-destination:" ++ n)) w
  | DescribeDeliveryDestinations n =>
      ok (DeliveryDestinations ["arn:aws:logs:delivery-destination:" ++ n]) w
  | CreateDelivery src _ =>
      create "delivery" src "ResourceAlreadyExistsException" "CreateDelivery"
        (DeliveryResponse "ACTIVE") w
  | DeleteLogGroup n => delete "log-group" n rnf "DeleteLogGroup" w
  | CreateRole n _ =>
      create "role" n "EntityAlreadyExists" "CreateRole"
        (RoleResponse {| RoleName := n; RoleArn := role_arn n |}) w
  | GetRole n =>
      lookup "role" n "NoSuchEntity" "GetRole"
        (RoleResponse {| RoleName := n; RoleArn := role_arn n |}) w
  | UpdateAssumeRolePolicy n _ =>
      lookup "role" n "NoSuchEntity" "UpdateAssumeRolePolicy" NoContent w
  | CreatePolicy n _ =>
      create "policy" (policy_arn n) "EntityAlreadyExists" "CreatePolicy"
        (PolicyResponse (policy_arn n)) w
  | ListPolicyVersions a =>
      lookup "policy" a "NoSuchEntity" "ListPolicyVersions"
        (PolicyVersions [ {| VersionId := "v1"; IsDefaultVersion := true |} ])
        w
  | DeletePolicyVersion a _ =>
      lookup "policy" a "NoSuchEntity" "DeletePolicyVersion" NoContent w
  | CreatePolicyVersion a _ =>
      lookup "policy" a "NoSuchEntity" "CreatePolicyVersion" NoContent w
  | AttachRolePolicy r a =>
      if has "role" r w then
        if existsb (fun x => String.eqb (fst x) r
                             && String.eqb (PolicyArn (snd x)) a)
             (attachments w)
        then ok NoContent w
        else ok NoContent
               {| resources := resources w;
                  attachments :=
                    (attachments w
                       ++ [(r, {| PolicyArn := a; PolicyName := a |})])%list;
                  pending := pending w |}
      else error "NoSuchEntity" "AttachRolePolicy" (r ++ " not found.") w
  | ListAttachedRolePolicies r =>
      lookup "role" r "NoSuchEntity" "ListAttachedRolePolicies"
        (AttachedPolicies
           (map snd (filter (fun x => String.eqb (fst x) r) (attachments w))))
        w
  | DetachRolePolicy r a =>
      ok NoContent
        {| resources := resources w;
           attachments :=
             filter (fun x => negb (String.eqb (fst x) r
                                    && String.eqb (PolicyArn (snd x)) a))
               (attachments w);
           pending := pending w |}
  | DeletePolicy a => delete "policy" a "NoSuchEntity" "DeletePolicy" w
  | DeleteRole r => delete "role" r "NoSuchEntity" "DeleteRole" w
  | CreateSecurityPolicy n t _ =>
      create ("security-policy-" ++ t) n "ConflictException"
        "CreateSecurityPolicy" NoContent w
  | GetSecurityPolicy n t =>
      lookup ("security-policy-" ++ t) n rnf "GetSecurityPolicy" NoContent w
  | CreateAccessPolicy n _ _ =>
      create "access-policy" n "ConflictException" "CreateAccessPolicy"
        NoContent w
  | GetAccessPolicy n =>
      lookup "access-policy" n rnf "GetAccessPolicy" NoContent w
  | CreateCollection n =>
      starting 2
        (create "collection" ("col-" ++ n) "ConflictException"
           "CreateCollection"
           (CreateCollectionDetail ("col-" ++ n)
              ("arn:aws:aoss:collection/col-" ++ n))
           w)
  | BatchGetCollection n =>
      if has "collection" ("col-" ++ n) w then
        let '(st, w') := poll "CREATING" "ACTIVE" w in
        ok (CollectionDetails [collection_of n st]) w'
      else ok (CollectionDetails []) w
  | DeleteCollection id => delete "collection" id rnf "DeleteCollection" w
  | DeleteAccessPolicy n => delete "access-policy" n rnf "DeleteAccessPolicy" w
  | DeleteSecurityPolicy t n =>
      delete ("security-policy-" ++ t) n rnf "DeleteSecurityPolicy" w
  | IndicesCreate _ index _ =>
      if has "index" index w
      then (Raises (RequestError "resource_already_exists_exception"), w)
      else ok NoContent (add "index" index w)
  | CreateGraph n _ =>
      starting 2
        (create "graph" ("g-" ++ n) "ConflictException" "CreateGraph"
           (GraphResponse ("g-" ++ n) "CREATING") w)
  | GetGraph id =>
      if has "graph" id w then
        let '(st, w') := poll "CREATING" "AVAILABLE" w in
        ok (GraphResponse id st) w'
      else error rnf "GetGraph" (id ++ " not found.") w
  | UpdateGraph id protection =>
      lookup "graph" id rnf "UpdateGraph" (GraphUpdated protection) w
  | DeleteGraph id => delete "graph" id rnf "DeleteGraph" w
  | ZipWrite _ => ok NoContent w
  | CreateFunction n _ =>
      create "function" n "ResourceConflictException" "CreateFunction"
        (FunctionResponse ("arn:aws:lambda:function:" ++ n)) w
  | DeleteFunction n => delete "function" n rnf "DeleteFunction" w
  | CreateKnowledgeBase n _ _ _ _ _ =>
      create "knowledge-base" n "ConflictException" "CreateKnowledgeBase"
        (KnowledgeBaseResponse (kb_of n)) w
  | ListKnowledgeBases =>
      ok (KnowledgeBaseSummaries
            (map (fun n => ("KB-" ++ n, n)) (names_of "knowledge-base" w))) w
  | GetKnowledgeBase id =>
      match find (fun n => String.eqb ("KB-" ++ n) id)
              (names_of "knowledge-base" w) with
      | Some n => ok (KnowledgeBaseResponse (kb_of n)) w
      | None => error rnf "GetKnowledgeBase" (id ++ " not found.") w
      end
  | CreateDataSource n _ _ _ _ =>
      create "data-source" ("DS-" ++ n) "ConflictException" "CreateDataSource"
        (DataSourceResponse {| dataSourceId := "DS-" ++ n |}) w
  | ListDataSources _ => ok (DataSourceSummaries (names_of "data-source" w)) w
  | GetDataSource id _ =>
      lookup "data-source" id rnf "GetDataSource"
        (DataSourceResponse {| dataSourceId := id |}) w
  | StartIngestionJob _ ds =>
      starting 2
        (lookup "data-source" ds rnf "StartIngestionJob"
           (IngestionJobResponse
              {| ingestionJobId := "JOB-" ++ ds; status := "STARTING" |})
           w)
  | GetIngestionJob _ ds job =>
      if has "data-source" ds w then
        let '(st, w') := poll "IN_PROGRESS" "COMPLETE" w in
        ok (IngestionJobResponse {| ingestionJobId := job; status := st |}) w'
      else error rnf "GetIngestionJob" (ds ++ " not found.") w
  | DeleteDataSource ds _ => delete "data-source" ds rnf "DeleteDataSource" w
  | DeleteKnowledgeBase id =>
      match find (fun n => String.eqb ("KB-" ++ n) id)
              (names_of "knowledge-base" w) with
      | Some n => ok NoContent (remove "knowledge-base" n w)
      | None => error rnf "DeleteKnowledgeBase" (id ++ " not found.") w
      end
  end.

(** The arguments of the unstructured-knowledge-base lab. *)
Definition demo_args : Args :=
  {| arg_kb_name := Some "product-reviews-kb";
     arg_kb_description := Some "Product review documents.";
     arg_data_sources :=
       Some [ {| scalars := [("type", "S3"); ("bucket_name", "demo-docs")];
                 lists := [] |} ];
     arg_multi_modal := false;
     arg_parser := None;
     arg_intermediate_bucket_name := None;
     arg_lambda_function_name := None;
     arg_embedding_model := "cohere.embed-multilingual-v3";
     arg_generation_model := "global.anthropic.claude-haiku-4-5-20251001-v1:0";
     arg_reranking_model := "cohere.rerank-v3-5:0";
     arg_graph_model := "anthropic.claude-haiku-4-5-20251001-v1:0";
     arg_chunking_strategy := "FIXED_SIZE";
     arg_suffix := Some "demo-u";
     arg_vector_store := "OPENSEARCH_SERVERLESS" |}.

Definition region : string := "us-west-2".

(** The same arguments with an embedding model outside the allow-list. *)
Definition unknown_model_args : Args :=
  {| arg_kb_name := arg_kb_name demo_args;
     arg_kb_description := arg_kb_description demo_args;
     arg_data_sources := arg_data_sources demo_args;
     arg_multi_modal := false;
     arg_parser := None;
     arg_intermediate_bucket_name := None;
     arg_lambda_function_name := None;
     arg_embedding_model := "acme.embed-v0";
     arg_generation_model := arg_generation_model demo_args;
     arg_reranking_model := arg_reranking_model demo_args;
     arg_graph_model := arg_graph_model demo_args;
     arg_chunking_strategy := "FIXED_SIZE";
     arg_suffix := arg_suffix demo_args;
     arg_vector_store := "OPENSEARCH_SERVERLESS" |}.

(** Multimodal mode with a text-only embedding model of the allow-list. *)
Definition text_only_multimodal_args : Args :=
  {| arg_kb_name := arg_kb_name demo_args;
     arg_kb_description := arg_kb_description demo_args;
     arg_data_sources := arg_data_sources demo_args;
     arg_multi_modal := true;
     arg_parser := Some "BEDROCK_DATA_AUTOMATION";
     arg_intermediate_bucket_name := None;
     arg_lambda_function_name := None;
     arg_embedding_model := "amazon.titan-embed-text-v2:0";
     arg_generation_model := arg_generation_model demo_args;
     arg_reranking_model := arg_reranking_model demo_args;
     arg_graph_model := arg_graph_model demo_args;
     arg_chunking_strategy := "FIXED_SIZE";
     arg_suffix := arg_suffix demo_args;
     arg_vector_store := "OPENSEARCH_SERVERLESS" |}.

(** Multimodal mode with a text-only embedding model, and the list of data
    sources left at its default. *)
Definition sourceless_multimodal_args : Args :=
  {| arg_kb_name := arg_kb_name demo_args;
     arg_kb_description := arg_kb_description demo_args;
     arg_data_sources := None;
     arg_multi_modal := true;
     arg_parser := Some "BEDROCK_DATA_AUTOMATION";
     arg_intermediate_bucket_name := None;
     arg_lambda_function_name := None;
     arg_embedding_model := "amazon.titan-embed-text-v2:0";
     arg_generation_model := arg_generation_model demo_args;
     arg_reranking_model := arg_reranking_model demo_args;
     arg_graph_model := arg_graph_model demo_args;
     arg_chunking_strategy := "FIXED_SIZE";
     arg_suffix := arg_suffix demo_args;
     arg_vector_store := "OPENSEARCH_SERVERLESS" |}.

(** The arguments of the lab with the chunking strategy [CUSTOM]. *)
Definition custom_args : Args :=
  {| arg_kb_name := arg_kb_name demo_args;
     arg_kb_description := arg_kb_description demo_args;
     arg_data_sources := arg_data_sources demo_args;
     arg_multi_modal := false;
     arg_parser := None;
     arg_intermediate_bucket_name := None;
     arg_lambda_function_name := None;
     arg_embedding_model := arg_embedding_model demo_args;
     arg_generation_model := arg_generation_model demo_args;
     arg_reranking_model := arg_reranking_model demo_args;
     arg_graph_model := arg_graph_model demo_args;
     arg_chunking_strategy := "CUSTOM";
     arg_suffix := arg_suffix demo_args;
     arg_vector_store := "OPENSEARCH_SERVERLESS" |}.

(** The mock cloud, except that [create_role] answers with the role under
    the name of the execution role, whatever name was asked for. *)
Definition echoing (c : call) (w : cloud) : reply * cloud :=
  match c, perform c w with
  | CreateRole _ _, (Returns (RoleResponse r), w') =>
      (Returns (RoleResponse
                  {| RoleName :=
                       "AmazonBedrockExecutionRoleForKnowledgeBase_demo-u";
                     RoleArn := RoleArn r |}), w')
  | _, other => other
  end.

(** A provider that accepts every request, and in which a role outlives
    its deletion: [get_role] finds every role, with one policy attached. *)
Definition lingering (c : call) (w : cloud) : reply * cloud :=
  match c with
  | GetRole r =>
      (Returns (RoleResponse {| RoleName := r; RoleArn := role_arn r |}), w)
  | ListAttachedRolePolicies r =>
      (Returns (AttachedPolicies
                  [ {| PolicyArn := policy_arn (r ++ "-policy");
                       PolicyName := r ++ "-policy" |} ]), w)
  | _ => (Returns NoContent, w)
  end.

End MockCloud.

(** The attribute assignments of [__init__], given the caller's account and
    ARN and the two lists computed from the data sources.  The names assigned
    after the call of [_validate_models] in the source are computed here
    with the others: computing them neither raises nor calls a provider. *)
Definition make_attributes (region_name account_number identity : string)
    (args : Args) (data_sources : list descriptor)
    (bucket_names secrets_arns : list string) : Attributes :=
  let suffix :=
    str_or (arg_suffix args) (region_name ++ "-" ++ account_number) in
  let kb_name :=
    str_or (arg_kb_name args) ("default-knowledge-base-" ++ suffix) in
  let staged :=
    arg_multi_modal args || String.eqb (arg_chunking_strategy args) "CUSTOM" in
  {| region_name := region_name;
     account_number := account_number;
     suffix := suffix;
     identity := identity;
     kb_name := kb_name;
     vector_store := arg_vector_store args;
     graph_name := kb_name;
     kb_description :=
       str_or (arg_kb_description args) "Default Knowledge Base";
     data_sources := data_sources;
     bucket_names := bucket_names;
     secrets_arns := secrets_arns;
     chunking_strategy := arg_chunking_strategy args;
     multi_modal := arg_multi_modal args;
     parser := arg_parser args;
     intermediate_bucket_name :=
       if staged
       then Some (str_or (arg_intermediate_bucket_name args)
                    (kb_name ++ "-intermediate-" ++ suffix))
       else None;
     lambda_function_name :=
       if staged
       then Some (str_or (arg_lambda_function_name args)
                    (kb_name ++ "-lambda-" ++ suffix))
       else None;
     embedding_model := arg_embedding_model args;
     generation_model := arg_generation_model args;
     reranking_model := arg_reranking_model args;
     graph_model := arg_graph_model args;
     encryption_policy_name := "bedrock-sample-rag-sp-" ++ suffix;
     network_policy_name := "bedrock-sample-rag-np-" ++ suffix;
     access_policy_name := "bedrock-sample-rag-ap-" ++ suffix;
     kb_execution_role_name :=
       "AmazonBedrockExecutionRoleForKnowledgeBase_" ++ suffix;
     fm_policy_name :=
       "AmazonBedrockFoundationModelPolicyForKnowledgeBase_" ++ suffix;
     s3_policy_name := "AmazonBedrockS3PolicyForKnowledgeBase_" ++ suffix;
     sm_policy_name := "AmazonBedrockSecretPolicyForKnowledgeBase_" ++ suffix;
     cw_log_policy_name :=
       "AmazonBedrockCloudWatchPolicyForKnowledgeBase_" ++ suffix;
     oss_policy_name := "AmazonBedrockOSSPolicyForKnowledgeBase_" ++ suffix;
     lambda_policy_name :=
       "AmazonBedrockLambdaPolicyForKnowledgeBase_" ++ suffix;
     bda_policy_name := "AmazonBedrockBDAPolicyForKnowledgeBase_" ++ suffix;
     neptune_policy_name :=
       "AmazonBedrockNeptunePolicyForKnowledgeBase_" ++ suffix;
     vector_store_name := "bedrock-sample-rag-" ++ suffix;
     index_name := "bedrock-sample-rag-index-" ++ suffix;
     log_group_name := "/aws/bedrock/knowledgebase/" ++ kb_name |}.

Section Orchestrator.

(** The providers: a state and the reply to each call. *)
Variable World : Type.
Variable perform : call -> World -> reply * World.

(** [boto3.session.Session().region_name]. *)
Variable session_region_name : string.

Local Abbreviation M := (M World).

Definition invoke (c : call) : M response :=
  fun w =>
    let '(r, w') := perform c w in
    match r with
    | Returns x => (Ok x, w', [Called c r])
    | Raises e => (Raise e, w', [Called c r])
    end.

(** boto3 validates parameters before sending: a [None] where a string is
    required raises without any request. *)
Definition required (x : option string) : M string :=
  match x with
  | Some s => ret s
  | None => raise (OtherException "ParamValidationError")
  end.

(** Reading an attribute that was never assigned. *)
Definition attribute {A : Type} (name : string) (x : option A) : M A :=
  match x with
  | Some a => ret a
  | None => raise (AttributeError name)
  end.

(** Reading a local variable that no executed branch assigned. *)
Definition local {A : Type} (name : string) (x : option A) : M A :=
  match x with
  | Some a => ret a
  | None => raise (UnboundLocalError name)
  end.

(** [l[0]]. *)
Definition first {A : Type} (l : list A) : M A :=
  match l with
  | x :: _ => ret x
  | [] => raise IndexError
  end.

(** [d[k]] on a descriptor. *)
Definition item (d : descriptor) (k : string) : M string :=
  match dict_get (scalars d) k with
  | Some v => ret v
  | None => raise (KeyError k)
  end.

Definition item_list (d : descriptor) (k : string) : M (list string) :=
  match dict_get (lists d) k with
  | Some v => ret v
  | None => raise (KeyError k)
  end.

(** Subscripting a response dict: the key is missing when the response has
    another shape. *)
Definition role_of (r : response) : M role :=
  match r with RoleResponse x => ret x | _ => raise (KeyError "Role") end.

Definition policy_arn_of (r : response) : M string :=
  match r with PolicyResponse a => ret a | _ => raise (KeyError "Policy") end.

Definition collection_details_of (r : response) : M (list collection_detail) :=
  match r with
  | CollectionDetails l => ret l
  | _ => raise (KeyError "collectionDetails")
  end.

Definition knowledge_base_of (r : response) : M knowledge_base_detail :=
  match r with
  | KnowledgeBaseResponse kb => ret kb
  | _ => raise (KeyError "knowledgeBase")
  end.

Definition data_source_of (r : response) : M data_source_detail :=
  match r with
  | DataSourceResponse ds => ret ds
  | _ => raise (KeyError "dataSource")
  end.

Definition ingestion_job_of (r : response) : M ingestion_job :=
  match r with
  | IngestionJobResponse j => ret j
  | _ => raise (KeyError "ingestionJob")
  end.

(** *** [_validate_models] and [_get_embedding_dimensions] *)

Definition _validate_models (self : Attributes) : M unit :=
  match validate_models_check (embedding_model self) (generation_model self)
          (reranking_model self) (multi_modal self) with
  | Some e => raise e
  | None => ret tt
  end.

Definition _get_embedding_dimensions (self : Attributes) : M Z :=
  match get_embedding_dimensions_of (embedding_model self) (multi_modal self)
  with
  | inl e => raise e
  | inr d => ret d
  end.

Definition _get_model_arn (self : Attributes) (model_id : string) : string :=
  get_model_arn (region_name self) (account_number self) model_id.

(** *** [create_s3_bucket] *)

Definition is_custom (self : Attributes) : bool :=
  String.eqb (chunking_strategy self) "CUSTOM".

(** The first loop: [head_bucket] on every bucket to check; only
    [ClientError] is caught. *)
Fixpoint probe_buckets (buckets existing_buckets : list (option string))
  : M (list (option string)) :=
  match buckets with
  | [] => ret existing_buckets
  | bucket_name :: rest =>
      existing <-
        try_ (b <- required bucket_name ;;
              invoke (HeadBucket b) ;;
              say ("Bucket " ++ fmt bucket_name
                     ++ " already exists and you have access - reusing it!") ;;
              ret (existing_buckets ++ [bucket_name])%list)
          (fun e =>
             match error_code e with
             | None => raise e
             | Some code =>
                 (if String.eqb code "NoSuchBucket" then
                    say ("Bucket " ++ fmt bucket_name
                           ++ " does not exist - will create it")
                  else if String.eqb code "Forbidden"
                          || String.eqb code "AccessDenied" then
                    say ("Bucket " ++ fmt bucket_name
                           ++ " exists but you do not have access - will try to create with different name")
                  else
                    say ("Could not access bucket " ++ fmt bucket_name ++ ": "
                           ++ code ++ " - will try to create it")) ;;
                 ret existing_buckets
             end) ;;
      probe_buckets rest existing
  end.

Definition bucket_taken_message (bucket_name : string) : string :=
  "Bucket name '" ++ bucket_name
    ++ "' is already taken globally. Please use a different name.".

(** The body of the second loop for one bucket. *)
Definition create_one_bucket (self : Attributes)
    (bucket_name : option string) (existing_buckets : list (option string))
  : M (list (option string)) :=
  say ("Creating bucket " ++ fmt bucket_name) ;;
  try_ (b <- required bucket_name ;;
        (if String.eqb (region_name self) "us-east-1" then
           invoke (CreateBucket b None)
         else
           invoke (CreateBucket b (Some (region_name self)))) ;;
        say ("Successfully created bucket: " ++ fmt bucket_name) ;;
        ret existing_buckets)
    (fun e =>
       match error_code e with
       | None => raise e
       | Some code =>
           if String.eqb code "BucketAlreadyExists" then
             say ("Bucket " ++ fmt bucket_name
                    ++ " already exists globally and is owned by another account.") ;;
             say "Please choose a different bucket name or use an existing bucket you own." ;;
             raise (ValueError (bucket_taken_message (fmt bucket_name)))
           else if String.eqb code "BucketAlreadyOwnedByYou" then
             say ("Bucket " ++ fmt bucket_name
                    ++ " already exists and is owned by you - this should have been caught earlier.") ;;
             ret (existing_buckets ++ [bucket_name])%list
           else if String.eqb code "AccessDenied" then
             say ("Access denied when creating bucket " ++ fmt bucket_name
                    ++ ". This could be due to:") ;;
             say "  1. Insufficient IAM permissions for S3:CreateBucket" ;;
             say "  2. Bucket name already exists globally" ;;
             say "  3. Account-level restrictions" ;;
             raise e
           else
             say ("Unexpected error creating bucket " ++ fmt bucket_name
                    ++ ": " ++ str_exn e) ;;
             raise e
       end).

Fixpoint create_buckets (self : Attributes)
    (buckets existing_buckets : list (option string)) : M unit :=
  match buckets with
  | [] => ret tt
  | bucket_name :: rest =>
      existing <- create_one_bucket self bucket_name existing_buckets ;;
      create_buckets self rest existing
  end.

Definition buckets_to_check (self : Attributes) : list (option string) :=
  (map Some (bucket_names self)
     ++ (if multi_modal self || is_custom self
         then [intermediate_bucket_name self] else []))%list.

Definition buckets_to_create
    (to_check existing_buckets : list (option string))
  : list (option string) :=
  filter (fun b => negb (existsb (option_string_eqb b) existing_buckets))
    to_check.

Definition create_s3_bucket (self : Attributes) : M unit :=
  let to_check := buckets_to_check self in
  existing_buckets <- probe_buckets to_check [] ;;
  create_buckets self (buckets_to_create to_check existing_buckets)
    existing_buckets.


(** *** [create_cloudwatch_log_group] *)

Definition create_cloudwatch_log_group (self : Attributes) : M unit :=
  try_ (invoke (CreateLogGroup (log_group_name self)) ;; ret tt)
    (fun e =>
       if is_ResourceAlreadyExistsException e then ret tt else raise e) ;;
  try_ (invoke (PutRetentionPolicy (log_group_name self) 1%Z) ;; ret tt)
    (fun _ => ret tt).

(** *** [configure_log_delivery] *)

Definition configure_log_delivery (self : Attributes)
    (knowledge_base_arn : string) : M unit :=
  try_
    (let delivery_source_name := "bedrock-kb-" ++ kb_name self ++ "-source" in
     try_ (invoke (CreateDeliverySource delivery_source_name
                     knowledge_base_arn) ;;
           ret tt)
       (fun e =>
          if is_ResourceAlreadyExistsException e then
            sources <- invoke (DescribeDeliverySources delivery_source_name) ;;
            names <- match sources with
                     | DeliverySources l => ret l
                     | _ => raise (KeyError "deliverySources")
                     end ;;
            first names ;;
            ret tt
          else raise e) ;;
     let delivery_destination_name :=
       "bedrock-kb-" ++ kb_name self ++ "-destination" in
     create_dest_response <-
       try_ (invoke (CreateDeliveryDestination delivery_destination_name
                       ("arn:aws:logs:" ++ region_name self ++ ":"
                          ++ account_number self ++ ":log-group:"
                          ++ log_group_name self)))
         (fun e =>
            if is_ResourceAlreadyExistsException e then
              destinations <-
                invoke (DescribeDeliveryDestinations
                          delivery_destination_name) ;;
              arns <- match destinations with
                      | DeliveryDestinations l => ret l
                      | _ => raise (KeyError "deliveryDestinations")
                      end ;;
              arn <- first arns ;;
              ret (DeliveryDestination arn)
            else raise e) ;;
     try_ (arn <- match create_dest_response with
                  | DeliveryDestination a => ret a
                  | _ => raise (KeyError "deliveryDestination")
                  end ;;
           create_delivery_response <-
             invoke (CreateDelivery delivery_source_name arn) ;;
           match create_delivery_response with
           | DeliveryResponse _ => ret tt
           | _ => raise (KeyError "delivery")
           end)
       (fun _ => ret tt))
    (fun _ => ret tt).

(** *** [create_lambda_role] and [create_lambda] *)

Definition basic_execution_policy_arn : string :=
  "arn:aws:iam::aws:policy/service-role/AWSLambdaBasicExecutionRole".

Definition own_policy_arn (self : Attributes) (policy_name : string)
  : string :=
  "arn:aws:iam::" ++ account_number self ++ ":policy/" ++ policy_name.

Definition lambda_function_role (self : Attributes) : string :=
  kb_name self ++ "-lambda-role-" ++ suffix self.

Definition create_lambda_role (self : Attributes) : M response :=
  let s3_access_policy_name := kb_name self ++ "-s3-policy" in
  lambda_iam_role <-
    try_ (invoke (CreateRole (lambda_function_role self)
                    "lambda.amazonaws.com"))
      (fun e =>
         if says_already_exists e then
           invoke (GetRole (lambda_function_role self))
         else raise e) ;;
  invoke (AttachRolePolicy (lambda_function_role self)
            basic_execution_policy_arn) ;;
  policy_arn <-
    try_ (s3_access_policy_response <-
            invoke (CreatePolicy s3_access_policy_name
                      (LambdaS3Document (fmt (intermediate_bucket_name self))
                         (account_number self))) ;;
          policy_arn_of s3_access_policy_response)
      (fun e =>
         if says_already_exists e then
           ret (own_policy_arn self s3_access_policy_name)
         else raise e) ;;
  invoke (AttachRolePolicy (lambda_function_role self) policy_arn) ;;
  ret lambda_iam_role.

(** Returns the [create_function] response and the instance with
    [lambda_iam_role_name] and [roles] updated. *)
Definition create_lambda (self : Self) : M (response * Self) :=
  lambda_iam_role <- create_lambda_role self ;;
  r <- role_of lambda_iam_role ;;
  let self := add_lambda_role (RoleName r) self in
  invoke (ZipWrite "lambda_function.py") ;;
  function_name <- required (lambda_function_name self) ;;
  lambda_function <- invoke (CreateFunction function_name (RoleArn r)) ;;
  ret (lambda_function, self).

(** *** [create_bedrock_execution_role_multi_ds] *)

Definition s3_resources (bucket_names : list string) : list string :=
  flat_map (fun bucket => [ "arn:aws:s3:::" ++ bucket;
                            "arn:aws:s3:::" ++ bucket ++ "/*" ])
    bucket_names.

(** The list [policies] of (name, document) pairs; the description strings
    are left out.  A document is a local variable assigned under one
    condition and read under another. *)
Definition execution_role_policies (self : Attributes)
    (secrets_arns_arg : list string)
  : M (list (string * policy_document)) :=
  let bucket_names_local :=
    (bucket_names self
       ++ (if truthy_str (intermediate_bucket_name self)
           then [fmt (intermediate_bucket_name self)] else []))%list in
  let s3_policy_document :=
    if truthy_list bucket_names_local
    then Some (S3Document (s3_resources bucket_names_local)
                 (account_number self))
    else None in
  let neptune_policy_document :=
    if String.eqb (vector_store self) "NEPTUNE_ANALYTICS"
    then Some (NeptuneDocument
                 ("arn:aws:neptune-graph:" ++ region_name self ++ ":"
                    ++ account_number self ++ ":graph/*"))
    else None in
  let secrets_manager_policy_document :=
    if truthy_list secrets_arns_arg
    then Some (SecretsManagerDocument secrets_arns_arg) else None in
  let bda_policy_document :=
    BdaDocument (region_name self) (account_number self) in
  let lambda_policy_document :=
    if is_custom self
    then Some (LambdaInvokeDocument
                 ("arn:aws:lambda:" ++ region_name self ++ ":"
                    ++ account_number self ++ ":function:"
                    ++ fmt (lambda_function_name self) ++ ":*")
                 (account_number self))
    else None in
  let cw_log_policy_document :=
    CloudWatchDocument (region_name self) (account_number self)
      (log_group_name self) in
  let policies :=
    [ (fm_policy_name self, FoundationModelDocument);
      (cw_log_policy_name self, cw_log_policy_document) ] in
  policies <-
    (if truthy_list (bucket_names self) then
       d <- local "s3_policy_document" s3_policy_document ;;
       ret (policies ++ [(s3_policy_name self, d)])%list
     else ret policies) ;;
  policies <-
    (if truthy_list (secrets_arns self) then
       d <- local "secrets_manager_policy_document"
              secrets_manager_policy_document ;;
       ret (policies ++ [(sm_policy_name self, d)])%list
     else ret policies) ;;
  policies <-
    (if is_custom self then
       d <- local "lambda_policy_document" lambda_policy_document ;;
       ret (policies ++ [(lambda_policy_name self, d)])%list
     else ret policies) ;;
  let policies :=
    if multi_modal self
    then (policies ++ [(bda_policy_name self, bda_policy_document)])%list
    else policies in
  if String.eqb (vector_store self) "NEPTUNE_ANALYTICS" then
    d <- local "neptune_policy_name" neptune_policy_document ;;
    ret (policies ++ [(neptune_policy_name self, d)])%list
  else ret policies.

(** [for version in versions["Versions"]: if not default: delete; break]. *)
Fixpoint delete_oldest_non_default (policy_arn : string)
    (versions : list policy_version) : M unit :=
  match versions with
  | [] => ret tt
  | version :: rest =>
      if negb (IsDefaultVersion version) then
        invoke (DeletePolicyVersion policy_arn (VersionId version)) ;;
        ret tt
      else delete_oldest_non_default policy_arn rest
  end.

(** The body of the loop over [policies]. *)
Definition create_and_attach_policy (self : Attributes)
    (bedrock_kb_execution_role : response)
    (policy : string * policy_document) : M unit :=
  let '(policy_name, policy_document) := policy in
  policy_arn <-
    try_ (r <- invoke (CreatePolicy policy_name policy_document) ;;
          policy_arn_of r)
      (fun e =>
         policy_arn <-
           (if says_already_exists e
            then ret (own_policy_arn self policy_name)
            else raise e) ;;
         try_ (try_ (versions <- invoke (ListPolicyVersions policy_arn) ;;
                     vs <- match versions with
                           | PolicyVersions l => ret l
                           | _ => raise (KeyError "Versions")
                           end ;;
                     if Nat.leb 5 (List.length vs)
                     then delete_oldest_non_default policy_arn vs
                     else ret tt)
                 (fun _ => ret tt) ;;
               invoke (CreatePolicyVersion policy_arn policy_document) ;;
               ret tt)
           (fun _ => ret tt) ;;
         ret policy_arn) ;;
  try_ (r <- role_of bedrock_kb_execution_role ;;
        invoke (AttachRolePolicy (RoleName r) policy_arn) ;;
        ret tt)
    (fun _ => ret tt).

Fixpoint create_and_attach_policies (self : Attributes)
    (bedrock_kb_execution_role : response)
    (policies : list (string * policy_document)) : M unit :=
  match policies with
  | [] => ret tt
  | policy :: rest =>
      create_and_attach_policy self bedrock_kb_execution_role policy ;;
      create_and_attach_policies self bedrock_kb_execution_role rest
  end.

Definition create_bedrock_execution_role_multi_ds (self : Attributes)
    (secrets_arns_arg : list string) : M response :=
  policies <- execution_role_policies self secrets_arns_arg ;;
  bedrock_kb_execution_role <-
    try_ (invoke (CreateRole (kb_execution_role_name self)
                    "bedrock.amazonaws.com"))
      (fun e =>
         r <- (if says_already_exists e
               then invoke (GetRole (kb_execution_role_name self))
               else raise e) ;;
         try_ (invoke (UpdateAssumeRolePolicy (kb_execution_role_name self)
                         "bedrock.amazonaws.com") ;;
               ret tt)
           (fun _ => ret tt) ;;
         ret r) ;;
  create_and_attach_policies self bedrock_kb_execution_role policies ;;
  ret bedrock_kb_execution_role.

(** *** [create_neptune] *)

(** The polling loop: one [get_graph] per test of the loop condition. *)
Fixpoint wait_graph (fuel : nat) (graph_id : string) : M unit :=
  r <- invoke (GetGraph graph_id) ;;
  st <- match r with
        | GraphResponse _ st => ret st
        | _ => raise (KeyError "status")
        end ;;
  if String.eqb st "CREATING" then
    match fuel with
    | O => diverge
    | S fuel' => wait_graph fuel' graph_id
    end
  else ret tt.

Definition create_neptune (fuel : nat) (self : Attributes) : M string :=
  dimensions <- _get_embedding_dimensions self ;;
  response <- invoke (CreateGraph (graph_name self) dimensions) ;;
  graph_id <- match response with
              | GraphResponse id _ => ret id
              | _ => raise (KeyError "id")
              end ;;
  r <- invoke (GetGraph graph_id) ;;
  match r with
  | GraphResponse _ _ => ret tt
  | _ => raise (KeyError "status")
  end ;;
  try_ (wait_graph fuel graph_id) (fun _ => ret tt) ;;
  ret graph_id.

(** *** The vector backend: [create_policies_in_oss], [create_oss],
    [create_oss_policy_attach_bedrock_execution_role], [create_vector_index] *)

Definition create_policies_in_oss (self : Self) : M unit :=
  try_ (invoke (CreateSecurityPolicy (encryption_policy_name self)
                  "encryption" (vector_store_name self)))
    (fun e =>
       if is_ConflictException e
       then invoke (GetSecurityPolicy (encryption_policy_name self)
                      "encryption")
       else raise e) ;;
  try_ (invoke (CreateSecurityPolicy (network_policy_name self)
                  "network" (vector_store_name self)))
    (fun e =>
       if is_ConflictException e
       then invoke (GetSecurityPolicy (network_policy_name self) "network")
       else raise e) ;;
  try_ (execution_role <-
          attribute "bedrock_kb_execution_role"
            (bedrock_kb_execution_role self) ;;
        invoke (CreateAccessPolicy (access_policy_name self)
                  (vector_store_name self)
                  [identity self; RoleArn execution_role]))
    (fun e =>
       if is_ConflictException e
       then invoke (GetAccessPolicy (access_policy_name self))
       else raise e) ;;
  ret tt.

Definition create_oss_policy_attach_bedrock_execution_role (self : Self)
    (collection_id : string) : M unit :=
  oss_policy_arn <-
    try_ (oss_policy <-
            invoke (CreatePolicy (oss_policy_name self)
                      (OssDocument
                         ("arn:aws:aoss:" ++ region_name self ++ ":"
                            ++ account_number self ++ ":collection/"
                            ++ collection_id))) ;;
          policy_arn_of oss_policy)
      (fun e =>
         if is_EntityAlreadyExistsException e
         then ret (own_policy_arn self (oss_policy_name self))
         else raise e) ;;
  execution_role <-
    attribute "bedrock_kb_execution_role" (bedrock_kb_execution_role self) ;;
  invoke (AttachRolePolicy (RoleName execution_role) oss_policy_arn) ;;
  ret tt.

(** [while response["collectionDetails"][0]["status"] == "CREATING"]. *)
Fixpoint wait_collection (fuel : nat) (self : Attributes)
    (response : response) : M unit :=
  details <- collection_details_of response ;;
  d <- first details ;;
  if String.eqb (collection_status d) "CREATING" then
    match fuel with
    | O => diverge
    | S fuel' =>
        response <- invoke (BatchGetCollection (vector_store_name self)) ;;
        wait_collection fuel' self response
    end
  else ret tt.

(** Returns [host], [collection_id] and [collection_arn]. *)
Definition create_oss (fuel : nat) (self : Self)
  : M (string * string * string) :=
  ' (collection_id, collection_arn) <-
    try_ (collection <- invoke (CreateCollection (vector_store_name self)) ;;
          match collection with
          | CreateCollectionDetail id arn => ret (id, arn)
          | _ => raise (KeyError "createCollectionDetail")
          end)
      (fun e =>
         if is_ConflictException e then
           r <- invoke (BatchGetCollection (vector_store_name self)) ;;
           details <- collection_details_of r ;;
           collection <- first details ;;
           ret (collection_id_of collection, collection_arn_of collection)
         else raise e) ;;
  let host := collection_id ++ "." ++ region_name self
                ++ ".aoss.amazonaws.com" in
  response <- invoke (BatchGetCollection (vector_store_name self)) ;;
  wait_collection fuel self response ;;
  try_ (create_oss_policy_attach_bedrock_execution_role self collection_id)
    (fun _ => ret tt) ;;
  ret (host, collection_id, collection_arn).

(** [except RequestError as e: ...; raise]. *)
Definition create_vector_index (self : Self) : M unit :=
  dimensions <- _get_embedding_dimensions self ;;
  h <- attribute "oss_client" (host self) ;;
  try_ (invoke (IndicesCreate h (index_name self) dimensions) ;; ret tt)
    (fun e => raise e).

(** *** [create_chunking_strategy_config] *)

Definition create_chunking_strategy_config (self : Self)
    (strategy : string) : chunking_configuration :=
  let configs :=
    [ ("GRAPH", GraphEnrichment (_get_model_arn self (graph_model self)));
      ("NONE", NoChunking);
      ("FIXED_SIZE", FixedSizeChunking 300 20);
      ("HIERARCHICAL", HierarchicalChunking 1500 300 60);
      ("SEMANTIC", SemanticChunking 300 1 95);
      ("CUSTOM",
       CustomTransformation
         ("s3://" ++ fmt (intermediate_bucket_name self) ++ "/")
         (lambda_arn self)) ] in
  match dict_get configs strategy with
  | Some c => c
  | None => NoChunking
  end.

(** *** [create_data_sources] *)

(** The chain of [if ds["type"] == ...] tests of one iteration.  The
    variables [ds_name] and [data_source_configuration] keep the value of the
    previous iteration when no test succeeds. *)
Definition select_configuration (kb_id : string) (ds : descriptor)
    (previous : option string * option data_source_configuration)
  : M (option string * option data_source_configuration) :=
  type <- item ds "type" ;;
  if String.eqb type "S3" then
    bucket_name <- item ds "bucket_name" ;;
    ret (Some (kb_id ++ "-s3"),
         Some (S3Configuration ("arn:aws:s3:::" ++ bucket_name)))
  else if String.eqb type "CONFLUENCE" then
    hostUrl <- item ds "hostUrl" ;;
    authType <- item ds "authType" ;;
    credentialsSecretArn <- item ds "credentialsSecretArn" ;;
    ret (Some (kb_id ++ "-confluence"),
         Some (ConfluenceConfiguration hostUrl authType credentialsSecretArn))
  else if String.eqb type "SHAREPOINT" then
    tenantId <- item ds "tenantId" ;;
    domain <- item ds "domain" ;;
    authType <- item ds "authType" ;;
    siteUrls <- item_list ds "siteUrls" ;;
    credentialsSecretArn <- item ds "credentialsSecretArn" ;;
    ret (Some (kb_id ++ "-sharepoint"),
         Some (SharePointConfiguration tenantId domain authType siteUrls
                 credentialsSecretArn))
  else if String.eqb type "SALESFORCE" then
    hostUrl <- item ds "hostUrl" ;;
    authType <- item ds "authType" ;;
    credentialsSecretArn <- item ds "credentialsSecretArn" ;;
    ret (Some (kb_id ++ "-salesforce"),
         Some (SalesforceConfiguration hostUrl authType credentialsSecretArn))
  else if String.eqb type "WEB" then
    seedUrls <- item_list ds "seedUrls" ;;
    inclusionFilters <- item_list ds "inclusionFilters" ;;
    exclusionFilters <- item_list ds "exclusionFilters" ;;
    ret (Some (kb_id ++ "-web"),
         Some (WebConfiguration seedUrls inclusionFilters exclusionFilters))
  else ret previous.

(** [parsing_configuration] is assigned only for the two known parsers. *)
Definition select_parsing (self : Self) : option parsing_configuration :=
  match parser self with
  | Some p =>
      if String.eqb p "BEDROCK_FOUNDATION_MODEL" then
        Some (FoundationModelParsing
                (_get_model_arn self (generation_model self)))
      else if String.eqb p "BEDROCK_DATA_AUTOMATION" then
        Some DataAutomationParsing
      else None
  | None => None
  end.

Fixpoint create_data_sources_loop (self : Self) (kb_id : string)
    (data_sources : list descriptor)
    (previous : option string * option data_source_configuration)
    (ds_list : list data_source_detail) : M (list data_source_detail) :=
  match data_sources with
  | [] => ret ds_list
  | ds :: rest =>
      selected <- select_configuration kb_id ds previous ;;
      let chunking_strategy_configuration :=
        create_chunking_strategy_config self (chunking_strategy self) in
      parsing <-
        (if multi_modal self then
           p <- local "parsing_configuration" (select_parsing self) ;;
           ret (Some p)
         else ret None) ;;
      ds_name <- local "ds_name" (fst selected) ;;
      data_source_configuration <-
        local "data_source_configuration" (snd selected) ;;
      create_ds_response <-
        invoke (CreateDataSource ds_name (kb_description self) kb_id
                  data_source_configuration
                  {| chunking := chunking_strategy_configuration;
                     parsing := parsing |}) ;;
      created <- data_source_of create_ds_response ;;
      create_data_sources_loop self kb_id rest selected
        (ds_list ++ [created])%list
  end.

Definition create_data_sources (self : Self) (kb_id : string)
    (data_sources : list descriptor) : M (list data_source_detail) :=
  create_data_sources_loop self kb_id data_sources (None, None) [].

(** *** [create_knowledge_base] *)

(** [next((kb["knowledgeBaseId"] for kb in summaries if kb["name"] == name),
    None)]; a summary is the pair of its id and its name. *)
Fixpoint find_knowledge_base (name : string)
    (summaries : list (string * string)) : option string :=
  match summaries with
  | [] => None
  | (id, n) :: rest =>
      if String.eqb n name then Some id else find_knowledge_base name rest
  end.

(** The decorated function body.  [ds_list] is assigned only when
    [create_data_sources] returns. *)
Definition create_knowledge_base_body (self : Self)
  : M (knowledge_base_detail * list data_source_detail) :=
  storage_configuration <-
    (if truthy_str (graph_id self) then
       ret (NeptuneAnalyticsStorage
              ("arn:aws:neptune-graph:" ++ region_name self ++ ":"
                 ++ account_number self ++ ":graph/" ++ fmt (graph_id self)))
     else
       collection_arn <- attribute "collection_arn" (collection_arn self) ;;
       ret (OpenSearchServerlessStorage collection_arn (index_name self))) ;;
  let embedding_model_arn := _get_model_arn self (embedding_model self) in
  let supplemental :=
    if multi_modal self
    then Some ("s3://" ++ fmt (intermediate_bucket_name self))
    else None in
  kb <-
    try_ (execution_role <-
            attribute "bedrock_kb_execution_role"
              (bedrock_kb_execution_role self) ;;
          create_kb_response <-
            invoke (CreateKnowledgeBase (kb_name self) (kb_description self)
                      (RoleArn execution_role) embedding_model_arn
                      supplemental storage_configuration) ;;
          knowledge_base_of create_kb_response)
      (fun e =>
         if is_ConflictException e then
           kbs <- invoke ListKnowledgeBases ;;
           summaries <- match kbs with
                        | KnowledgeBaseSummaries l => ret l
                        | _ => raise (KeyError "knowledgeBaseSummaries")
                        end ;;
           kb_id <- required (find_knowledge_base (kb_name self) summaries) ;;
           response <- invoke (GetKnowledgeBase kb_id) ;;
           knowledge_base_of response
         else raise e) ;;
  let kb_id := knowledgeBaseId kb in
  configure_log_delivery self (knowledgeBaseArn kb) ;;
  ds_list <-
    try_ (l <- create_data_sources self kb_id (data_sources self) ;;
          ret (Some l))
      (fun e =>
         if is_ConflictException e then
           r <- invoke (ListDataSources (knowledgeBaseId kb)) ;;
           ids <- match r with
                  | DataSourceSummaries l => ret l
                  | _ => raise (KeyError "dataSourceSummaries")
                  end ;;
           ds_id <- first ids ;;
           get_ds_response <-
             invoke (GetDataSource ds_id (knowledgeBaseId kb)) ;;
           data_source_of get_ds_response ;;
           ret None
         else raise e) ;;
  ds_list <- local "ds_list" ds_list ;;
  ret (kb, ds_list).

(** [@retry(stop_max_attempt_number=n)]: the body is run again after every
    exception until the [n]-th attempt, whose exception is raised. *)
Fixpoint retrying {A : Type} (further_attempts : nat) (body : M A) : M A :=
  try_ body
    (fun e =>
       match further_attempts with
       | O => raise e
       | S n => retrying n body
       end).

Definition create_knowledge_base (self : Self)
  : M (knowledge_base_detail * list data_source_detail) :=
  retrying 6 (create_knowledge_base_body self).

(** *** [_setup_resources] and [__init__] *)

Definition _setup_resources (fuel : nat) (self : Self) : M Self :=
  (* Step 1 *)
  create_s3_bucket self ;;
  (* Step 1.5 *)
  create_cloudwatch_log_group self ;;
  (* Step 2 *)
  execution_role <-
    create_bedrock_execution_role_multi_ds self (secrets_arns self) ;;
  r <- role_of execution_role ;;
  let self := set_bedrock_kb_execution_role r self in
  self <-
    (if String.eqb (vector_store self) "OPENSEARCH_SERVERLESS" then
       (* Step 3a *)
       create_policies_in_oss self ;;
       (* Step 3b *)
       ' (h, id, arn) <- create_oss fuel self ;;
       let self := set_collection h id arn self in
       (* Step 3c: the dimensions are printed, then the index is created *)
       _get_embedding_dimensions self ;;
       create_vector_index self ;;
       ret self
     else
       (* Step 3 *)
       _get_embedding_dimensions self ;;
       id <- create_neptune fuel self ;;
       ret (set_graph_id id self)) ;;
  (* Step 4 *)
  self <-
    (if is_custom self then
       ' (response, self) <- create_lambda self ;;
       arn <- match response with
              | FunctionResponse a => ret a
              | _ => raise (KeyError "FunctionArn")
              end ;;
       ret (set_lambda_arn arn self)
     else ret self) ;;
  (* Step 5 *)
  ' (kb, ds_list) <- create_knowledge_base self ;;
  ret (set_knowledge_base kb ds_list self).

(** [[d["bucket_name"] for d in data_sources if d["type"] == "S3"]]. *)
Fixpoint s3_bucket_names (data_sources : list descriptor)
  : M (list string) :=
  match data_sources with
  | [] => ret []
  | d :: rest =>
      type <- item d "type" ;;
      if String.eqb type "S3" then
        b <- item d "bucket_name" ;;
        others <- s3_bucket_names rest ;;
        ret (b :: others)
      else s3_bucket_names rest
  end.

(** [[d["credentialsSecretArn"] for d in data_sources if d["type"] ==
    "CONFLUENCE" or ... "SHAREPOINT" or ... "SALESFORCE"]]. *)
Fixpoint saas_secret_arns (data_sources : list descriptor)
  : M (list string) :=
  match data_sources with
  | [] => ret []
  | d :: rest =>
      type <- item d "type" ;;
      if String.eqb type "CONFLUENCE" || String.eqb type "SHAREPOINT"
         || String.eqb type "SALESFORCE" then
        a <- item d "credentialsSecretArn" ;;
        others <- saas_secret_arns rest ;;
        ret (a :: others)
      else saas_secret_arns rest
  end.

(** The only provider calls of the constructor that precede
    [_validate_models]: the two [sts.get_caller_identity] requests. *)
Definition caller_account : M string :=
  r <- invoke GetCallerIdentity ;;
  ret (match r with CallerIdentity account _ => account | _ => "None" end).

Definition caller_arn : M string :=
  r <- invoke GetCallerIdentity ;;
  match r with
  | CallerIdentity _ arn => ret arn
  | _ => raise (KeyError "Arn")
  end.

(** The part of [__init__] that precedes [_validate_models]: the identity
    lookups and the two list comprehensions over [data_sources]. *)
Definition read_attributes (args : Args) : M Attributes :=
  account_number <- caller_account ;;
  identity <- caller_arn ;;
  data_sources <-
    match arg_data_sources args with
    | Some l => ret l
    | None => raise (TypeError "'NoneType' object is not iterable")
    end ;;
  bucket_names <- s3_bucket_names data_sources ;;
  secrets_arns <- saas_secret_arns data_sources ;;
  ret (make_attributes session_region_name account_number identity args
         data_sources bucket_names secrets_arns).

(** [__init__] up to the call of [_setup_resources]. *)
Definition initial_attributes (args : Args) : M Attributes :=
  self <- read_attributes args ;;
  _validate_models self ;;
  ret self.

Definition initial_resources (self : Attributes) : Resources :=
  {| lambda_arn := None;
     roles := [kb_execution_role_name self];
     graph_id := None;
     bedrock_kb_execution_role := None;
     host := None;
     collection_id := None;
     collection_arn := None;
     lambda_iam_role_name := None;
     knowledge_base := None;
     data_source := None |}.

(** The constructor: the instance it returns. *)
Definition __init__ (fuel : nat) (args : Args) : M Self :=
  a <- initial_attributes args ;;
  _setup_resources fuel {| attrs := a; res := initial_resources a |}.

(** *** [start_ingestion_job]

    Lines that print a data structure ([pp.pprint], lists) are left out here
    and below; the other printed lines are kept. *)

Definition terminal_statuses : list string :=
  [ "COMPLETE"; "FAILED"; "STOPPED" ].

(** [while job["status"] not in ["COMPLETE", "FAILED", "STOPPED"]]. *)
Fixpoint poll_ingestion_job (fuel : nat) (kb_id ds_id : string)
    (job : ingestion_job) : M ingestion_job :=
  if negb (str_in (status job) terminal_statuses) then
    match fuel with
    | O => diverge
    | S fuel' =>
        get_job_response <-
          invoke (GetIngestionJob kb_id ds_id (ingestionJobId job)) ;;
        job <- ingestion_job_of get_job_response ;;
        poll_ingestion_job fuel' kb_id ds_id job
    end
  else ret job.

(** The [try] block of one iteration. *)
Definition ingest_one (fuel : nat) (self : Self) (idx : nat) : M unit :=
  kb <- attribute "knowledge_base" (knowledge_base self) ;;
  created <- attribute "data_source" (data_source self) ;;
  ds <- match nth_error created idx with
        | Some ds => ret ds
        | None => raise IndexError
        end ;;
  start_job_response <-
    invoke (StartIngestionJob (knowledgeBaseId kb) (dataSourceId ds)) ;;
  job <- ingestion_job_of start_job_response ;;
  say ("job " ++ str_nat (idx + 1) ++ " started successfully") ;;
  poll_ingestion_job fuel (knowledgeBaseId kb) (dataSourceId ds) job ;;
  ret tt.

(** One iteration: the [try] block and its [except Exception] clause. *)
Definition ingest_guarded (fuel : nat) (self : Self) (idx : nat) : M unit :=
  try_ (ingest_one fuel self idx)
    (fun e =>
       say ("Couldn't start " ++ str_nat idx ++ " job.") ;;
       say (str_exn e)).

(** [for idx, ds in enumerate(self.data_sources)], from index [idx] on. *)
Fixpoint ingest_from (fuel : nat) (self : Self) (idx : nat)
    (remaining : list descriptor) : M unit :=
  match remaining with
  | [] => ret tt
  | _ :: rest =>
      ingest_guarded fuel self idx ;;
      ingest_from fuel self (S idx) rest
  end.

Definition start_ingestion_job (fuel : nat) (self : Self) : M unit :=
  ingest_from fuel self 0 (data_sources self).

(** *** Teardown: [delete_kb] and its helpers *)

Definition delete_cloudwatch_log_group (self : Attributes) : M unit :=
  try_ (invoke (DeleteLogGroup (log_group_name self)) ;;
        say ("======== CloudWatch Log Group " ++ log_group_name self
               ++ " deleted ========="))
    (fun e =>
       if is_ResourceNotFoundException e then
         say ("CloudWatch Log Group " ++ log_group_name self
                ++ " not found, skipping deletion")
       else
         say ("Error deleting CloudWatch Log Group " ++ log_group_name self
                ++ ": " ++ str_exn e)).

Definition delete_lambda_function (self : Attributes) : M unit :=
  try_ (function_name <- required (lambda_function_name self) ;;
        invoke (DeleteFunction function_name) ;;
        say ("======== Lambda function " ++ fmt (lambda_function_name self)
               ++ " deleted ========="))
    (fun e => say (str_exn e)).

(** The body of the loop of [delete_s3] for one bucket. *)
Definition delete_one_bucket (bucket_name : string) : M unit :=
  try_ (all <- invoke ListBuckets ;;
        names <- match all with
                 | Buckets l => ret l
                 | _ => raise (KeyError "Buckets")
                 end ;;
        if str_in bucket_name names then
          say ("Found bucket " ++ bucket_name) ;;
          invoke (DeleteObjectVersions bucket_name) ;;
          invoke (DeleteObjects bucket_name) ;;
          say ("Deleted all objects in bucket " ++ bucket_name) ;;
          invoke (DeleteBucket bucket_name) ;;
          say ("Deleted bucket " ++ bucket_name)
        else
          say ("Bucket " ++ bucket_name ++ " does not exist, skipping deletion"))
    (fun e =>
       say ("Error deleting bucket " ++ bucket_name ++ ": " ++ str_exn e)).

Fixpoint delete_buckets (bucket_names : list string) : M unit :=
  match bucket_names with
  | [] => ret tt
  | bucket_name :: rest =>
      delete_one_bucket bucket_name ;; delete_buckets rest
  end.

Definition delete_s3 (self : Attributes) : M unit :=
  delete_buckets
    (bucket_names self
       ++ (if truthy_str (intermediate_bucket_name self)
           then [fmt (intermediate_bucket_name self)] else []))%list ;;
  say "======== S3 bucket deletion process completed =========".

(** [str(policy_arn.split("/")[1]) == "service-role"]. *)
Definition second_segment (policy_arn : string) : option string :=
  nth_error (split_on "/"%char policy_arn) 1.

(** The inner loop of [delete_iam_roles_and_policies]. *)
Fixpoint detach_and_delete_policies (role_name : string)
    (attached_policies : list attached_policy) : M unit :=
  match attached_policies with
  | [] => ret tt
  | attached_policy :: rest =>
      let policy_arn := PolicyArn attached_policy in
      let policy_name := PolicyName attached_policy in
      invoke (DetachRolePolicy role_name policy_arn) ;;
      say ("Detached policy " ++ policy_name ++ " from role " ++ role_name) ;;
      segment <- match second_segment policy_arn with
                 | Some s => ret s
                 | None => raise IndexError
                 end ;;
      (if String.eqb segment "service-role" then
         say ("Skipping deletion of service-linked role policy "
                ++ policy_name)
       else
         invoke (DeletePolicy policy_arn) ;;
         say ("Deleted policy " ++ policy_name ++ " from role " ++ role_name)) ;;
      detach_and_delete_policies role_name rest
  end.

(** The body of the outer loop for one role; [continue] when [get_role]
    raises [NoSuchEntityException]. *)
Definition delete_one_role (role_name : string) : M unit :=
  say ("Found role " ++ role_name) ;;
  found <-
    try_ (invoke (GetRole role_name) ;; ret true)
      (fun e =>
         if is_NoSuchEntityException e then
           say ("Role " ++ role_name ++ " does not exist") ;;
           ret false
         else raise e) ;;
  if found : bool then
    r <- invoke (ListAttachedRolePolicies role_name) ;;
    attached_policies <- match r with
                         | AttachedPolicies l => ret l
                         | _ => raise (KeyError "AttachedPolicies")
                         end ;;
    detach_and_delete_policies role_name attached_policies ;;
    invoke (DeleteRole role_name) ;;
    say ("Deleted role " ++ role_name)
  else ret tt.

Fixpoint delete_roles (role_names : list string) : M unit :=
  match role_names with
  | [] => ret tt
  | role_name :: rest => delete_one_role role_name ;; delete_roles rest
  end.

Definition delete_iam_roles_and_policies (self : Self) : M unit :=
  delete_roles (roles self) ;;
  say "======== All IAM roles and policies deleted =========".

(** The loop over [self.data_source] in [delete_kb]. *)
Fixpoint delete_data_sources (self : Self)
    (created : list data_source_detail) : M unit :=
  match created with
  | [] => ret tt
  | ds :: rest =>
      try_ (kb <- attribute "knowledge_base" (knowledge_base self) ;;
            invoke (DeleteDataSource (dataSourceId ds) (knowledgeBaseId kb)) ;;
            say ("Deleted data source " ++ dataSourceId ds))
        (fun e =>
           if is_ResourceNotFoundException e then
             say ("Data source " ++ dataSourceId ds ++ " not found")
           else
             say ("Error deleting data source " ++ dataSourceId ds ++ ": "
                    ++ str_exn e)) ;;
      delete_data_sources self rest
  end.

(** The blocks of [delete_kb], in the order of the source. *)

(** "Delete knowledge base and data sources". *)
Definition delete_entity (self : Self) : M unit :=
  try_ (created <- attribute "data_source" (data_source self) ;;
        delete_data_sources self created ;;
        kb <- attribute "knowledge_base" (knowledge_base self) ;;
        invoke (DeleteKnowledgeBase (knowledgeBaseId kb)) ;;
        say "======== Knowledge base and all data sources deleted =========")
    (fun e =>
       if is_ResourceNotFoundException e then
         say ("Knowledge base not found: " ++ str_exn e)
       else
         say ("Error during knowledge base deletion: " ++ str_exn e)).

(** [if delete_lambda_function: try: ... except ResourceNotFoundException]. *)
Definition delete_lambda_block (self : Self) : M unit :=
  try_ (delete_lambda_function self ;;
        say ("Deleted Lambda function " ++ fmt (lambda_function_name self)))
    (fun e =>
       if is_ResourceNotFoundException e then
         say ("Lambda function " ++ fmt (lambda_function_name self)
                ++ " not found.")
       else raise e).

(** "Delete vector index and collection from vector store", or the graph. *)
Definition delete_index (self : Self) : M unit :=
  if String.eqb (vector_store self) "OPENSEARCH_SERVERLESS" then
    try_ (id <- attribute "collection_id" (collection_id self) ;;
          invoke (DeleteCollection id) ;;
          invoke (DeleteAccessPolicy (access_policy_name self)) ;;
          invoke (DeleteSecurityPolicy "network" (network_policy_name self)) ;;
          invoke (DeleteSecurityPolicy "encryption"
                    (encryption_policy_name self)) ;;
          say "======== Vector Index, collection and associated policies deleted =========")
      (fun e => say (str_exn e))
  else
    try_ (id <- required (graph_id self) ;;
          response <- invoke (UpdateGraph id false) ;;
          match response with
          | GraphUpdated _ => ret tt
          | _ => raise (KeyError "deletionProtection")
          end ;;
          say "======= Delete protection disabled before deleting the graph" ;;
          invoke (DeleteGraph id) ;;
          say "========= Neptune Analytics Graph Deleted =================================")
      (fun e => say (str_exn e)).

Definition delete_kb (self : Self)
    (delete_s3_bucket delete_iam_roles_and_policies_flag
       delete_lambda_function_flag : bool) : M unit :=
  delete_entity self ;;
  (if delete_s3_bucket then delete_s3 self else ret tt) ;;
  delete_cloudwatch_log_group self ;;
  (if delete_iam_roles_and_policies_flag
   then delete_iam_roles_and_policies self else ret tt) ;;
  (if delete_lambda_function_flag then delete_lambda_block self
   else ret tt) ;;
  delete_index self.

End Orchestrator.

(** ** Vocabulary of the specifications *)

(** A computation that returns or raises without calling a provider or
    printing. *)
Definition silent {World A : Type} (m : M World A) : Prop :=
  forall w,
    (exists a, m w = (Ok a, w, [])) \/ (exists e, m w = (Raise e, w, [])).

(** The last provider call of a trace, with its reply. *)
Fixpoint last_call (t : list event) : option (call * reply) :=
  match t with
  | [] => None
  | Called c r :: t' =>
      match last_call t' with
      | Some x => Some x
      | None => Some (c, r)
      end
  | Printed _ :: t' => last_call t'
  end.

(** The outcome of one bucket creation attempt, by the reply to
    [create_bucket]. *)
Definition creation_outcome (bucket_name : string)
    (existing_buckets : list (option string)) (r : reply)
  : result (list (option string)) :=
  match r with
  | Returns _ => Ok existing_buckets
  | Raises e =>
      if has_code "BucketAlreadyExists" e then
        Raise (ValueError (bucket_taken_message bucket_name))
      else if has_code "BucketAlreadyOwnedByYou" e then
        Ok (existing_buckets ++ [Some bucket_name])%list
      else Raise e
  end.

(** All the provider calls of every run of [m] satisfy [P]. *)
Definition confined {World A : Type} (P : call -> bool) (m : M World A)
  : Prop :=
  forall w, forallb P (calls (trace (m w))) = true.

(** In the list of calls [t], no call satisfying [early] comes after a call
    satisfying [late]. *)
Fixpoint ordered (early late : call -> bool) (t : list call) : bool :=
  match t with
  | [] => true
  | c :: t' =>
      (if late c then forallb (fun d => negb (early d)) t' else true)
      && ordered early late t'
  end.

(** The same, by positions: every [early] call stands before every [late]
    call. *)
Definition precedes (early late : call -> bool) (t : list call) : Prop :=
  forall i j c d,
    nth_error t i = Some c -> late c = true ->
    nth_error t j = Some d -> early d = true ->
    j < i.

(** Every failed provider call of the trace is followed at once by a
    printed line; with [strict = false] a failed call may end the trace. *)
Fixpoint reported (strict : bool) (t : list event) : bool :=
  match t with
  | [] => true
  | Called _ (Raises _) :: t' =>
      match t' with
      | [] => negb strict
      | Printed _ :: _ => reported strict t'
      | Called _ _ :: _ => false
      end
  | _ :: t' => reported strict t'
  end.

(** Computations whose calls are in order in every run. *)
Definition orderly {World A : Type} (early late : call -> bool)
    (m : M World A) : Prop :=
  forall w, ordered early late (calls (trace (m w))) = true.

(** Computations that return in every run, and computations that never
    diverge. *)
Definition unfailing {World A : Type} (m : M World A) : Prop :=
  forall w, exists a, outcome (m w) = Ok a.

Definition halting {World A : Type} (m : M World A) : Prop :=
  forall w, outcome (m w) <> Diverge.

Definition is_ok {A : Type} (r : result A) : bool :=
  match r with Ok _ => true | _ => false end.

(** Computations that report their failed calls: in a run that returns every
    failed call is followed by a printed line; in a run that raises the last
    event may be the failed call that is being raised. *)
Definition accountable {World A : Type} (m : M World A) : Prop :=
  forall w, reported (is_ok (outcome (m w))) (trace (m w)) = true.

(** Computations that print before anything else. *)
Definition announcing {World A : Type} (m : M World A) : Prop :=
  forall w, exists line t, trace (m w) = Printed line :: t.

(** Computations that make the call [c] in every run. *)
Definition attempts {World A : Type} (c : call) (m : M World A) : Prop :=
  forall w, In c (calls (trace (m w))).

(** Every [get_role] of the trace was answered with
    [NoSuchEntityException]: the roles looked up do not exist. *)
Definition roles_found_absent (t : list event) : Prop :=
  forall r rep,
    In (Called (GetRole r) rep) t ->
    exists e, rep = Raises e /\ is_NoSuchEntityException e = true.

(** Computations that return, having reported every failed call, in the
    runs in which the roles are found absent. *)
Definition tolerant {World A : Type} (m : M World A) : Prop :=
  forall w,
    roles_found_absent (trace (m w)) ->
    (exists a, outcome (m w) = Ok a) /\ reported true (trace (m w)) = true.

(** Computations that make the call [c] in those runs. *)
Definition attempts_when_absent {World A : Type} (c : call) (m : M World A)
  : Prop :=
  forall w, roles_found_absent (trace (m w)) -> In c (calls (trace (m w))).

(** The [start_ingestion_job] calls of a trace, in order. *)
Definition is_start_ingestion_job (c : call) : bool :=
  match c with StartIngestionJob _ _ => true | _ => false end.

Definition starts (t : list event) : list call :=
  filter is_start_ingestion_job (calls t).

(** The next provider call of a trace, or [follow] when there is none. *)
Fixpoint next_call (follow : option call) (t : list event) : option call :=
  match t with
  | [] => follow
  | Called c _ :: _ => Some c
  | Printed _ :: t' => next_call follow t'
  end.

(** The ingestion job that a reply carries, with its knowledge base and
    data source. *)
Definition job_reply (c : call) (r : reply)
  : option (string * string * ingestion_job) :=
  match c, r with
  | StartIngestionJob kb ds, Returns (IngestionJobResponse j)
  | GetIngestionJob kb ds _, Returns (IngestionJobResponse j) =>
      Some (kb, ds, j)
  | _, _ => None
  end.

(** What may follow a reply that carries the job [j]: when its status is
    terminal, no further poll (the next call, if any, starts another job);
    otherwise a poll of the same job. *)
Definition follows_job (kb ds : string) (j : ingestion_job)
    (next : option call) : bool :=
  if str_in (status j) terminal_statuses then
    match next with
    | None => true
    | Some c => is_start_ingestion_job c
    end
  else
    match next with
    | Some (GetIngestionJob kb' ds' id) =>
        String.eqb kb' kb && String.eqb ds' ds
        && String.eqb id (ingestionJobId j)
    | _ => false
    end.

(** Every job of the trace is polled until its status is terminal, and no
    longer; [follow] is the call that comes after the trace. *)
Fixpoint polled_to_end (follow : option call) (t : list event) : bool :=
  match t with
  | [] => true
  | Called c r :: t' =>
      match job_reply c r with
      | Some (kb, ds, j) => follows_job kb ds j (next_call follow t')
      | None => true
      end
      && polled_to_end follow t'
  | Printed _ :: t' => polled_to_end follow t'
  end.

(** The calls that may come after an ingestion: none, or the start of
    another job. *)
Definition may_follow (follow : option call) : Prop :=
  match follow with
  | None => True
  | Some c => is_start_ingestion_job c = true
  end.

(** The calls that create a data-source connector, and the traces in
    which every such call is answered with [ConflictException]: the
    connectors exist already. *)
Definition is_create_data_source (c : call) : bool :=
  match c with CreateDataSource _ _ _ _ _ => true | _ => false end.

Definition connectors_conflict (t : list event) : Prop :=
  forall c rep,
    In (Called c rep) t -> is_create_data_source c = true ->
    exists e, rep = Raises e /\ is_ConflictException e = true.

(** The traces in which every creation of the vector index is answered
    with an error: the index exists already. *)
Definition index_exists (t : list event) : Prop :=
  forall h index dimension rep,
    In (Called (IndicesCreate h index dimension) rep) t ->
    exists e, rep = Raises e.

(** The executable form of such conditions on a trace: every call that is
    [concerned] got a reply that is [expected]. *)
Definition answered (concerned : call -> bool) (expected : reply -> bool)
    (t : list event) : bool :=
  forallb (fun ev =>
             match ev with
             | Called c rep => implb (concerned c) (expected rep)
             | Printed _ => true
             end) t.

Definition raised (P : exn -> bool) (rep : reply) : bool :=
  match rep with
  | Raises e => P e
  | Returns _ => false
  end.

Definition is_get_role (c : call) : bool :=
  match c with GetRole _ => true | _ => false end.

Definition is_indices_create (c : call) : bool :=
  match c with IndicesCreate _ _ _ => true | _ => false end.

(** The boto3 client behind each call. *)
Definition service_of (c : call) : string :=
  match c with
  | GetCallerIdentity => "sts"
  | HeadBucket _ | CreateBucket _ _ | ListBuckets | DeleteObjectVersions _
  | DeleteObjects _ | DeleteBucket _ => "s3"
  | CreateLogGroup _ | PutRetentionPolicy _ _ | CreateDeliverySource _ _
  | DescribeDeliverySources _ | CreateDeliveryDestination _ _
  | DescribeDeliveryDestinations _ | CreateDelivery _ _
  | DeleteLogGroup _ => "logs"
  | CreateRole _ _ | GetRole _ | UpdateAssumeRolePolicy _ _
  | CreatePolicy _ _ | ListPolicyVersions _ | DeletePolicyVersion _ _
  | CreatePolicyVersion _ _ | AttachRolePolicy _ _
  | ListAttachedRolePolicies _ | DetachRolePolicy _ _ | DeletePolicy _
  | DeleteRole _ => "iam"
  | CreateSecurityPolicy _ _ _ | GetSecurityPolicy _ _
  | CreateAccessPolicy _ _ _ | GetAccessPolicy _ | CreateCollection _
  | BatchGetCollection _ | DeleteCollection _ | DeleteAccessPolicy _
  | DeleteSecurityPolicy _ _ => "opensearchserverless"
  | IndicesCreate _ _ _ => "opensearch"
  | CreateGraph _ _ | GetGraph _ | UpdateGraph _ _
  | DeleteGraph _ => "neptune-graph"
  | ZipWrite _ | CreateFunction _ _ | DeleteFunction _ => "lambda"
  | CreateKnowledgeBase _ _ _ _ _ _ | ListKnowledgeBases
  | GetKnowledgeBase _ | CreateDataSource _ _ _ _ _ | ListDataSources _
  | GetDataSource _ _ | StartIngestionJob _ _ | GetIngestionJob _ _ _
  | DeleteDataSource _ _ | DeleteKnowledgeBase _ => "bedrock-agent"
  end.

Definition from_service (service : string) (c : call) : bool :=
  String.eqb (service_of c) service.

(** The IAM calls that [delete_iam_roles_and_policies] makes for the role
    [role_name]. *)
Definition concerns_role (role_name : string) (c : call) : bool :=
  match c with
  | GetRole r | ListAttachedRolePolicies r | DetachRolePolicy r _
  | DeleteRole r => String.eqb r role_name
  | DeletePolicy _ => true
  | _ => false
  end.

(** The calls of the teardown orderings. *)
Definition is_delete_data_source (kb_id : string) (c : call) : bool :=
  match c with
  | DeleteDataSource _ kb => String.eqb kb kb_id
  | _ => false
  end.

Definition is_delete_knowledge_base (kb_id : string) (c : call) : bool :=
  match c with
  | DeleteKnowledgeBase kb => String.eqb kb kb_id
  | _ => false
  end.

Definition is_detach_role_policy (role_name : string) (c : call) : bool :=
  match c with
  | DetachRolePolicy r _ => String.eqb r role_name
  | _ => false
  end.

Definition is_delete_role (role_name : string) (c : call) : bool :=
  match c with
  | DeleteRole r => String.eqb r role_name
  | _ => false
  end.

(** A [delete_policy] call on a policy whose ARN has [service-role] as its
    second [/]-separated segment. *)
Definition deletes_service_role_policy (c : call) : bool :=
  match c with
  | DeletePolicy policy_arn =>
      match second_segment policy_arn with
      | Some segment => String.eqb segment "service-role"
      | None => false
      end
  | _ => false
  end.

(** ** The errors that precede validation *)

Definition has_key (d : descriptor) (k : string) : bool :=
  match dict_get (scalars d) k with
  | Some _ => true
  | None => false
  end.

(** The descriptors that the two list comprehensions of [__init__] can
    read: [d["type"]] is there, and so is [d["bucket_name"]] for the type
    [S3], and [d["credentialsSecretArn"]] for the types [CONFLUENCE],
    [SHAREPOINT] and [SALESFORCE]. *)
Definition readable (d : descriptor) : bool :=
  match dict_get (scalars d) "type" with
  | None => false
  | Some type =>
      (if String.eqb type "S3" then has_key d "bucket_name" else true)
      && (if String.eqb type "CONFLUENCE" || String.eqb type "SHAREPOINT"
             || String.eqb type "SALESFORCE"
          then has_key d "credentialsSecretArn" else true)
  end.

(** What [__init__] raises when it does not reach [_validate_models], in a
    run with the trace [t]: the error of an identity lookup; the [KeyError]
    of a lookup whose reply holds no [Arn]; the [TypeError] of the iteration
    over [data_sources=None]; or the [KeyError] of a descriptor that lacks
    one of the keys read. *)
Definition reading_error (args : Args) (t : list event) (e : exn) : Prop :=
  In (Called GetCallerIdentity (Raises e)) t \/
  ((exists r,
      In (Called GetCallerIdentity (Returns r)) t /\
      forall account arn, r <> CallerIdentity account arn) /\
   e = KeyError "Arn") \/
  (arg_data_sources args = None /\
   e = TypeError "'NoneType' object is not iterable") \/
  (exists l k,
     arg_data_sources args = Some l /\
     forallb readable l = false /\
     In k ["type"; "bucket_name"; "credentialsSecretArn"] /\
     e = KeyError k).

(** ** Example instances in the mock cloud *)

Module Examples.

Import MockCloud.

Definition demo_descriptor : descriptor :=
  {| scalars := [("type", "S3"); ("bucket_name", "demo-docs")]; lists := [] |}.

Definition demo_attributes : Attributes :=
  make_attributes region account caller demo_args [demo_descriptor]
    ["demo-docs"] [].

(** The instance the constructor returns for [demo_args] in the empty
    cloud. *)
Definition demo_self : Self :=
  {| attrs := demo_attributes;
     res :=
       {| lambda_arn := None;
          roles := ["AmazonBedrockExecutionRoleForKnowledgeBase_demo-u"];
          graph_id := None;
          bedrock_kb_execution_role :=
            Some {| RoleName :=
                      "AmazonBedrockExecutionRoleForKnowledgeBase_demo-u";
                    RoleArn :=
                      role_arn
                        "AmazonBedrockExecutionRoleForKnowledgeBase_demo-u" |};
          host :=
            Some "col-bedrock-sample-rag-demo-u.us-west-2.aoss.amazonaws.com";
          collection_id := Some "col-bedrock-sample-rag-demo-u";
          collection_arn :=
            Some "arn:aws:aoss:collection/col-bedrock-sample-rag-demo-u";
          lambda_iam_role_name := None;
          knowledge_base := Some (kb_of "product-reviews-kb");
          data_source :=
            Some [ {| dataSourceId := "DS-KB-product-reviews-kb-s3" |} ] |} |}.

(** The first construction, from the empty cloud, and the cloud it leaves. *)
Definition first_run : result Self * cloud * list event :=
  __init__ perform region 5 demo_args empty.

Definition provisioned : cloud := final first_run.

(** A second construction with the same arguments. *)
Definition second_run : result Self * cloud * list event :=
  __init__ perform region 5 demo_args provisioned.

(** A cloud in which another account owns the bucket name. *)
Definition squatted : cloud := add "foreign-bucket" "demo-docs" empty.

(** The instance [demo_self] with the role of a Lambda function, as
    [create_lambda] records it, and a cloud that holds that role. *)
Definition two_role_self : Self :=
  add_lambda_role "product-reviews-kb-lambda-role-demo-u" demo_self.

Definition two_role_cloud : cloud :=
  add "role" "product-reviews-kb-lambda-role-demo-u" provisioned.

(** The instance that [create_lambda] leaves when the role it gets back
    bears the name of the execution role. *)
Definition repeated_role_self : Self :=
  add_lambda_role "AmazonBedrockExecutionRoleForKnowledgeBase_demo-u"
    demo_self.

(** An instance with two data sources, the first of which is not in the
    provisioned cloud. *)
Definition archive_descriptor : descriptor :=
  {| scalars := [("type", "S3"); ("bucket_name", "demo-archive")];
     lists := [] |}.

Definition partly_missing_self : Self :=
  set_knowledge_base (kb_of "product-reviews-kb")
    [ {| dataSourceId := "DS-KB-product-reviews-kb-gone" |};
      {| dataSourceId := "DS-KB-product-reviews-kb-s3" |} ]
    {| attrs :=
         make_attributes region account caller demo_args
           [archive_descriptor; demo_descriptor]
           ["demo-archive"; "demo-docs"] [];
       res := res demo_self |}.

End Examples.

(** * Further definitions *)

(** ** Accessors *)

Section Accessors.

Variable World : Type.

Local Abbreviation M := (M World).

(** [get_knowledge_base_id] returns [self.knowledge_base["knowledgeBaseId"]];
    the line that pretty-prints the id is left out, as above. *)
Definition get_knowledge_base_id (self : Self) : M string :=
  kb <- attribute "knowledge_base" (knowledge_base self) ;;
  ret (knowledgeBaseId kb).

End Accessors.

(** ** Kinds of provider calls *)

(** The operations that remove a resource, or a part of one: the
    [delete_*] and [detach_*] operations of the clients. *)
Definition removes (c : call) : bool :=
  match c with
  | DeleteObjectVersions _ | DeleteObjects _ | DeleteBucket _
  | DeleteLogGroup _ | DeletePolicyVersion _ _ | DetachRolePolicy _ _
  | DeletePolicy _ | DeleteRole _ | DeleteCollection _
  | DeleteAccessPolicy _ | DeleteSecurityPolicy _ _ | DeleteGraph _
  | DeleteFunction _ | DeleteDataSource _ _ | DeleteKnowledgeBase _ => true
  | _ => false
  end.

(** The operations that create a resource, attach one to another, or write
    to one: [create_*], [put_*], [attach_*], [update_*], [start_*], and the
    archive written for the Lambda function. *)
Definition creates (c : call) : bool :=
  match c with
  | CreateBucket _ _ | CreateLogGroup _ | PutRetentionPolicy _ _
  | CreateDeliverySource _ _ | CreateDeliveryDestination _ _
  | CreateDelivery _ _ | CreateRole _ _ | UpdateAssumeRolePolicy _ _
  | CreatePolicy _ _ | CreatePolicyVersion _ _ | AttachRolePolicy _ _
  | CreateSecurityPolicy _ _ _ | CreateAccessPolicy _ _ _
  | CreateCollection _ | IndicesCreate _ _ _ | CreateGraph _ _
  | UpdateGraph _ _ | ZipWrite _ | CreateFunction _ _
  | CreateKnowledgeBase _ _ _ _ _ _ | CreateDataSource _ _ _ _ _
  | StartIngestionJob _ _ => true
  | _ => false
  end.

(** The dimension that [_get_embedding_dimensions] returns, if it returns. *)
Definition dimension_of (embedding : string) (multi_modal : bool)
  : option Z :=
  match get_embedding_dimensions_of embedding multi_modal with
  | inr d => Some d
  | inl _ => None
  end.

(** The provider calls of the provisioning pipeline: those of every
    configuration, those of the OpenSearch Serverless backend ([oss]) or of
    the Neptune Analytics backend, and those of the custom chunking strategy
    ([custom]); a vector index or a graph is created with [dimension]. *)
Definition provisioning_call (oss custom : bool) (dimension : option Z)
    (c : call) : bool :=
  let has_dimension d :=
    match dimension with
    | Some d' => Z.eqb d d'
    | None => false
    end in
  match c with
  | HeadBucket _ | CreateBucket _ _
  | CreateLogGroup _ | PutRetentionPolicy _ _ | CreateDeliverySource _ _
  | DescribeDeliverySources _ | CreateDeliveryDestination _ _
  | DescribeDeliveryDestinations _ | CreateDelivery _ _
  | CreateRole _ _ | GetRole _ | UpdateAssumeRolePolicy _ _
  | CreatePolicy _ _ | ListPolicyVersions _ | DeletePolicyVersion _ _
  | CreatePolicyVersion _ _ | AttachRolePolicy _ _
  | CreateKnowledgeBase _ _ _ _ _ _ | ListKnowledgeBases
  | GetKnowledgeBase _ | CreateDataSource _ _ _ _ _ | ListDataSources _
  | GetDataSource _ _ => true
  | CreateSecurityPolicy _ _ _ | GetSecurityPolicy _ _
  | CreateAccessPolicy _ _ _ | GetAccessPolicy _ | CreateCollection _
  | BatchGetCollection _ => oss
  | IndicesCreate _ _ d => oss && has_dimension d
  | CreateGraph _ d => negb oss && has_dimension d
  | GetGraph _ => negb oss
  | ZipWrite _ | CreateFunction _ _ => custom
  | _ => false
  end.

(** The provider calls of the teardown, by the flags of [delete_kb]. *)
Definition teardown_call (s3 iam lam : bool) (c : call) : bool :=
  match c with
  | DeleteDataSource _ _ | DeleteKnowledgeBase _ | DeleteLogGroup _
  | DeleteCollection _ | DeleteAccessPolicy _ | DeleteSecurityPolicy _ _
  | UpdateGraph _ false | DeleteGraph _ => true
  | ListBuckets | DeleteObjectVersions _ | DeleteObjects _
  | DeleteBucket _ => s3
  | GetRole _ | ListAttachedRolePolicies _ | DetachRolePolicy _ _
  | DeletePolicy _ | DeleteRole _ => iam
  | DeleteFunction _ => lam
  | _ => false
  end.

(** ** Counting calls *)

Definition is_create_knowledge_base (c : call) : bool :=
  match c with CreateKnowledgeBase _ _ _ _ _ _ => true | _ => false end.

(** The number of calls of a trace that satisfy [P]. *)
Definition count_calls (P : call -> bool) (t : list event) : nat :=
  List.length (filter P (calls t)).

(** Computations that make at most [n] calls satisfying [P] in every run. *)
Definition bounded {World A : Type} (P : call -> bool) (n : nat)
    (m : M World A) : Prop :=
  forall w, count_calls P (trace (m w)) <= n.

(** The data sources that the [create_data_source] calls of a trace
    returned, in order. *)
Definition created_data_sources (t : list event) : list data_source_detail :=
  flat_map (fun ev =>
              match ev with
              | Called (CreateDataSource _ _ _ _ _)
                  (Returns (DataSourceResponse ds)) => [ds]
              | _ => []
              end) t.

(** The names that [create_data_sources] gives to the data sources of the
    knowledge base [kb_id]: one per type. *)
Definition data_source_names (kb_id : string) : list string :=
  map (fun type => kb_id ++ type)
    [ "-s3"; "-confluence"; "-sharepoint"; "-salesforce"; "-web" ].

(** ** Properties of traces *)

(** Computations whose trace satisfies [Q] in every run. *)
Definition holds {World A : Type} (Q : list event -> Prop) (m : M World A)
  : Prop :=
  forall w, Q (trace (m w)).

(** The traces in which a policy version is deleted only after the versions
    of the policy were listed, there were five of them or more, and the
    deleted one is the first of the list that is not the default version. *)
Definition prunes_listed_versions (t : list event) : Prop :=
  forall policy_arn version_id,
    In (DeletePolicyVersion policy_arn version_id) (calls t) ->
    exists versions version,
      In (Called (ListPolicyVersions policy_arn)
            (Returns (PolicyVersions versions))) t /\
      5 <= List.length versions /\
      find (fun v => negb (IsDefaultVersion v)) versions = Some version /\
      version_id = VersionId version.

(** The traces in which a bucket is deleted only if it is one of
    [candidates], [list_buckets] returned it, and its object versions and
    its objects were deleted. *)
Definition deletes_listed_buckets (candidates : list string)
    (t : list event) : Prop :=
  forall bucket,
    In (DeleteBucket bucket) (calls t) ->
    In bucket candidates /\
    (exists names,
       In (Called ListBuckets (Returns (Buckets names))) t /\
       In bucket names) /\
    exists x y,
      In (Called (DeleteObjectVersions bucket) (Returns x)) t /\
      In (Called (DeleteObjects bucket) (Returns y)) t.

(** In the list of calls [t], every [delete_policy] comes right after the
    [detach_role_policy] of the same policy; [previous] is the call before
    [t]. *)
Fixpoint deletes_after_detach (previous : option call) (t : list call)
  : bool :=
  match t with
  | [] => true
  | c :: t' =>
      match c with
      | DeletePolicy policy_arn =>
          match previous with
          | Some (DetachRolePolicy _ detached) =>
              String.eqb detached policy_arn
          | _ => false
          end
      | _ => true
      end
      && deletes_after_detach (Some c) t'
  end.

(** Strings without a slash. *)
Definition no_slash (s : string) : Prop :=
  forall n, String.get n s <> Some "/"%char.

(** ** Further example arguments *)

Module Variants.

Import MockCloud.

(** The arguments of the lab without the list of data sources. *)
Definition no_sources_args : Args :=
  {| arg_kb_name := arg_kb_name demo_args;
     arg_kb_description := arg_kb_description demo_args;
     arg_data_sources := None;
     arg_multi_modal := false;
     arg_parser := None;
     arg_intermediate_bucket_name := None;
     arg_lambda_function_name := None;
     arg_embedding_model := arg_embedding_model demo_args;
     arg_generation_model := arg_generation_model demo_args;
     arg_reranking_model := arg_reranking_model demo_args;
     arg_graph_model := arg_graph_model demo_args;
     arg_chunking_strategy := "FIXED_SIZE";
     arg_suffix := arg_suffix demo_args;
     arg_vector_store := "OPENSEARCH_SERVERLESS" |}.

(** A data source given without its [type]. *)
Definition untyped_source_args : Args :=
  {| arg_kb_name := arg_kb_name demo_args;
     arg_kb_description := arg_kb_description demo_args;
     arg_data_sources :=
       Some [ {| scalars := [("bucket_name", "demo-docs")]; lists := [] |} ];
     arg_multi_modal := false;
     arg_parser := None;
     arg_intermediate_bucket_name := None;
     arg_lambda_function_name := None;
     arg_embedding_model := arg_embedding_model demo_args;
     arg_generation_model := arg_generation_model demo_args;
     arg_reranking_model := arg_reranking_model demo_args;
     arg_graph_model := arg_graph_model demo_args;
     arg_chunking_strategy := "FIXED_SIZE";
     arg_suffix := arg_suffix demo_args;
     arg_vector_store := "OPENSEARCH_SERVERLESS" |}.

(** Multimodal mode with a compatible embedding model and no parser. *)
Definition parserless_multimodal_args : Args :=
  {| arg_kb_name := arg_kb_name demo_args;
     arg_kb_description := arg_kb_description demo_args;
     arg_data_sources := arg_data_sources demo_args;
     arg_multi_modal := true;
     arg_parser := None;
     arg_intermediate_bucket_name := Some "demo-intermediate";
     arg_lambda_function_name := None;
     arg_embedding_model := "cohere.embed-v4:0";
     arg_generation_model := arg_generation_model demo_args;
     arg_reranking_model := arg_reranking_model demo_args;
     arg_graph_model := arg_graph_model demo_args;
     arg_chunking_strategy := "FIXED_SIZE";
     arg_suffix := arg_suffix demo_args;
     arg_vector_store := "OPENSEARCH_SERVERLESS" |}.

(** The arguments of the lab with a graph as the vector store. *)
Definition neptune_args : Args :=
  {| arg_kb_name := arg_kb_name demo_args;
     arg_kb_description := arg_kb_description demo_args;
     arg_data_sources := arg_data_sources demo_args;
     arg_multi_modal := false;
     arg_parser := None;
     arg_intermediate_bucket_name := None;
     arg_lambda_function_name := None;
     arg_embedding_model := arg_embedding_model demo_args;
     arg_generation_model := arg_generation_model demo_args;
     arg_reranking_model := arg_reranking_model demo_args;
     arg_graph_model := arg_graph_model demo_args;
     arg_chunking_strategy := "FIXED_SIZE";
     arg_suffix := arg_suffix demo_args;
     arg_vector_store := "NEPTUNE_ANALYTICS" |}.

End Variants.

(** * Properties *)

Unset Implicit Arguments.

(** * Properties *)

Ltac in_list := repeat first [ left; reflexivity | right ].

(** ** The tables *)

Lemma str_in_In (x : string) (l : list string) :
  str_in x l = true <-> In x l.
Proof.
  unfold str_in. rewrite existsb_exists. split.
  - intros (y & Hy & Heq). apply String.eqb_eq in Heq. now subst.
  - intros H. exists x. split; [ assumption | apply String.eqb_refl ].
Qed.

Lemma dict_get_dimensions_cases (m : string) (d : Z) :
  dict_get embedding_context_dimensions m = Some d ->
  In (m, d) embedding_context_dimensions.
Proof.
  unfold embedding_context_dimensions; cbn [dict_get].
  repeat match goal with
         | |- context [String.eqb m ?k] =>
             destruct (String.eqb_spec m k) as [-> | _];
             [ intros [= <-]; in_list | ]
         end.
  discriminate.
Qed.

Lemma get_embedding_dimensions_of_table (m : string) (d : Z) (mm : bool) :
  dict_get embedding_context_dimensions m = Some d ->
  get_embedding_dimensions_of m mm = inr d.
Proof.
  intros H. apply dict_get_dimensions_cases in H. cbn in H.
  repeat (destruct H as [[= <- <-] | H]; [ destruct mm; reflexivity | ]).
  contradiction.
Qed.

Lemma allow_list_in_table (m : string) :
  In m valid_embedding_models ->
  exists d, dict_get embedding_context_dimensions m = Some d.
Proof.
  cbn. intros H.
  repeat (destruct H as [<- | H]; [ eexists; reflexivity | ]).
  contradiction.
Qed.

Lemma compatible_models_valid (m : string) :
  str_in m multimodal_compatible_models = true ->
  str_in m valid_embedding_models = true.
Proof.
  rewrite !str_in_In. cbn. intros H.
  repeat (destruct H as [<- | H]; [ in_list | ]).
  contradiction.
Qed.

Section Properties.

Variable World : Type.
Variable perform : call -> World -> reply * World.
Variable session_region_name : string.

Local Abbreviation M := (M World).

(** ** Runs of the combinators *)

Lemma outcome_bind {A B : Type} (m : M A) (k : A -> M B) (w : World) :
  outcome (bind m k w) =
  match outcome (m w) with
  | Ok a => outcome (k a (final (m w)))
  | Raise e => Raise e
  | Diverge => Diverge
  end.
Proof.
  unfold bind, outcome, final.
  destruct (m w) as [[[a | e | ] w1] t1]; cbn; try reflexivity.
  now destruct (k a w1) as [[r w2] t2].
Qed.

Lemma trace_bind {A B : Type} (m : M A) (k : A -> M B) (w : World) :
  trace (bind m k w) =
  (trace (m w) ++
   match outcome (m w) with
   | Ok a => trace (k a (final (m w)))
   | _ => []
   end)%list.
Proof.
  unfold bind, outcome, final, trace.
  destruct (m w) as [[[a | e | ] w1] t1]; cbn; try now rewrite app_nil_r.
  now destruct (k a w1) as [[r w2] t2].
Qed.

Lemma final_bind {A B : Type} (m : M A) (k : A -> M B) (w : World) :
  final (bind m k w) =
  match outcome (m w) with
  | Ok a => final (k a (final (m w)))
  | _ => final (m w)
  end.
Proof.
  unfold bind, outcome, final.
  destruct (m w) as [[[a | e | ] w1] t1]; cbn; try reflexivity.
  now destruct (k a w1) as [[r w2] t2].
Qed.

Lemma outcome_try {A : Type} (m : M A) (h : exn -> M A) (w : World) :
  outcome (try_ m h w) =
  match outcome (m w) with
  | Raise e => outcome (h e (final (m w)))
  | other => other
  end.
Proof.
  unfold try_, outcome, final.
  destruct (m w) as [[[a | e | ] w1] t1]; cbn; try reflexivity.
  now destruct (h e w1) as [[r w2] t2].
Qed.

Lemma trace_try {A : Type} (m : M A) (h : exn -> M A) (w : World) :
  trace (try_ m h w) =
  (trace (m w) ++
   match outcome (m w) with
   | Raise e => trace (h e (final (m w)))
   | _ => []
   end)%list.
Proof.
  unfold try_, outcome, final, trace.
  destruct (m w) as [[[a | e | ] w1] t1]; cbn; try now rewrite app_nil_r.
  now destruct (h e w1) as [[r w2] t2].
Qed.

Lemma final_try {A : Type} (m : M A) (h : exn -> M A) (w : World) :
  final (try_ m h w) =
  match outcome (m w) with
  | Raise e => final (h e (final (m w)))
  | _ => final (m w)
  end.
Proof.
  unfold try_, outcome, final.
  destruct (m w) as [[[a | e | ] w1] t1]; cbn; try reflexivity.
  now destruct (h e w1) as [[r w2] t2].
Qed.

Lemma calls_app (t1 t2 : list event) :
  calls (t1 ++ t2) = (calls t1 ++ calls t2)%list.
Proof.
  induction t1 as [ | [c r | s] t1 IH]; cbn; now rewrite ?IH.
Qed.

Lemma printed_app (t1 t2 : list event) :
  printed (t1 ++ t2) = (printed t1 ++ printed t2)%list.
Proof.
  induction t1 as [ | [c r | s] t1 IH]; cbn; now rewrite ?IH.
Qed.

(** ** Silent computations *)

Lemma silent_ret {A : Type} (a : A) : silent (ret a : M A).
Proof. intros w. left. now exists a. Qed.

Lemma silent_raise {A : Type} (e : exn) : silent (raise e : M A).
Proof. intros w. right. now exists e. Qed.

Lemma silent_bind {A B : Type} (m : M A) (k : A -> M B) :
  silent m -> (forall a, silent (k a)) -> silent (bind m k).
Proof.
  intros Hm Hk w. unfold bind. destruct (Hm w) as [[a ->] | [e ->]].
  - destruct (Hk a w) as [[b ->] | [e ->]]; [ left | right ]; eauto.
  - right. now exists e.
Qed.

Lemma silent_item (d : descriptor) (k : string) : silent (item d k : M string).
Proof.
  unfold item. destruct (dict_get (scalars d) k);
    [ apply silent_ret | apply silent_raise ].
Qed.

Lemma silent_s3_bucket_names (l : list descriptor) :
  silent (s3_bucket_names l : M (list string)).
Proof.
  induction l as [ | d l IH]; cbn [s3_bucket_names].
  - apply silent_ret.
  - apply silent_bind; [ apply silent_item | intros t ].
    destruct (String.eqb t "S3"); [ | exact IH ].
    apply silent_bind; [ apply silent_item | intros b ].
    apply silent_bind; [ exact IH | intros o; apply silent_ret ].
Qed.

Lemma silent_saas_secret_arns (l : list descriptor) :
  silent (saas_secret_arns l : M (list string)).
Proof.
  induction l as [ | d l IH]; cbn [saas_secret_arns].
  - apply silent_ret.
  - apply silent_bind; [ apply silent_item | intros t ].
    destruct (_ || _); [ | exact IH ].
    apply silent_bind; [ apply silent_item | intros b ].
    apply silent_bind; [ exact IH | intros o; apply silent_ret ].
Qed.

Lemma silent_validate_models (self : Attributes) :
  silent (_validate_models self : M unit).
Proof.
  unfold _validate_models.
  destruct (validate_models_check _ _ _ _);
    [ apply silent_raise | apply silent_ret ].
Qed.

Lemma silent_calls {A : Type} (m : M A) (w : World) :
  silent m -> trace (m w) = [] /\ final (m w) = w.
Proof. intros H. destruct (H w) as [[a ->] | [e ->]]; now split. Qed.


(** ** The constructor up to [_validate_models] *)

Lemma read_attributes_run (args : Args) (w : World) :
  let run := read_attributes perform session_region_name args w in
  Forall (eq GetCallerIdentity) (calls (trace run)) /\
  outcome run <> Diverge /\
  (forall a, outcome run = Ok a ->
     calls (trace run) = [GetCallerIdentity; GetCallerIdentity] /\
     embedding_model a = arg_embedding_model args /\
     generation_model a = arg_generation_model args /\
     reranking_model a = arg_reranking_model args /\
     multi_modal a = arg_multi_modal args).
Proof.
  unfold read_attributes, caller_account, caller_arn, bind, invoke.
  destruct (perform GetCallerIdentity w) as [[r1 | e1] w1]; cbn;
    [ | repeat split; auto; discriminate ].
  destruct (perform GetCallerIdentity w1) as [[r2 | e2] w2]; cbn;
    [ | repeat split; auto; discriminate ].
  destruct r2; cbn; try (repeat split; auto; discriminate).
  destruct (arg_data_sources args) as [l | ]; cbn;
    [ | repeat split; auto; discriminate ].
  destruct (silent_s3_bucket_names l w2) as [[b ->] | [e ->]]; cbn;
    try (repeat split; auto; discriminate).
  destruct (silent_saas_secret_arns l w2) as [[s ->] | [e ->]]; cbn;
    try (repeat split; auto; discriminate).
  repeat split; auto; try discriminate;
    match goal with H : Ok _ = Ok _ |- _ => injection H as <- end;
    reflexivity.
Qed.


Lemma validate_rejects_unknown_model (embedding generation reranking : string)
    (mm : bool) :
  str_in embedding valid_embedding_models = false \/
  str_in generation valid_generation_models = false \/
  str_in reranking valid_reranking_models = false ->
  exists m,
    validate_models_check embedding generation reranking mm
      = Some (ValueError m) /\
    In m [ invalid_embedding_message; invalid_generation_message;
           invalid_reranking_message ].
Proof.
  unfold validate_models_check. intros H.
  destruct (str_in embedding valid_embedding_models);
    [ | eexists; split; [ reflexivity | in_list ] ].
  destruct (str_in generation valid_generation_models);
    [ | eexists; split; [ reflexivity | in_list ] ].
  destruct (str_in reranking valid_reranking_models);
    [ | eexists; split; [ reflexivity | in_list ] ].
  destruct H as [H | [H | H]]; discriminate.
Qed.

Lemma validate_rejects_incompatible_model
    (embedding generation reranking : string) :
  str_in embedding multimodal_compatible_models = false ->
  exists m,
    validate_models_check embedding generation reranking true
      = Some (ValueError m) /\
    In m [ invalid_embedding_message; invalid_generation_message;
           invalid_reranking_message; multimodal_message ] /\
    (str_in embedding valid_embedding_models = true ->
     str_in generation valid_generation_models = true ->
     str_in reranking valid_reranking_models = true ->
     m = multimodal_message).
Proof.
  unfold validate_models_check. intros ->.
  destruct (str_in embedding valid_embedding_models);
    [ | eexists; split; [ reflexivity | split; [ in_list | discriminate ] ] ].
  destruct (str_in generation valid_generation_models);
    [ | eexists; split;
        [ reflexivity | split; [ in_list | intros _; discriminate ] ] ].
  destruct (str_in reranking valid_reranking_models);
    eexists; (split; [ reflexivity | split; [ in_list | ] ]);
    [ reflexivity | intros _ _; discriminate ].
Qed.

(** ** The list comprehensions over [data_sources] *)

Lemma s3_bucket_names_reads (l : list descriptor) (w : World) :
  forallb readable l = true ->
  exists b, s3_bucket_names l w = (Ok b, w, []).
Proof.
  induction l as [ | d l IH]; cbn [forallb s3_bucket_names]; intros H.
  - eexists. reflexivity.
  - apply andb_true_iff in H. destruct H as [Hd Hl].
    destruct (IH Hl) as [b Hb].
    unfold readable, has_key in Hd. unfold item, bind.
    destruct (dict_get (scalars d) "type") as [t | ]; [ | discriminate Hd ].
    apply andb_true_iff in Hd. destruct Hd as [Hs3 _]. cbn.
    destruct (String.eqb t "S3").
    + destruct (dict_get (scalars d) "bucket_name");
        [ | discriminate Hs3 ].
      cbn. rewrite Hb. eexists. reflexivity.
    + rewrite Hb. eexists. reflexivity.
Qed.

Lemma saas_secret_arns_reads (l : list descriptor) (w : World) :
  forallb readable l = true ->
  exists s, saas_secret_arns l w = (Ok s, w, []).
Proof.
  induction l as [ | d l IH]; cbn [forallb saas_secret_arns]; intros H.
  - eexists. reflexivity.
  - apply andb_true_iff in H. destruct H as [Hd Hl].
    destruct (IH Hl) as [s Hs].
    unfold readable, has_key in Hd. unfold item, bind.
    destruct (dict_get (scalars d) "type") as [t | ]; [ | discriminate Hd ].
    apply andb_true_iff in Hd. destruct Hd as [_ Hsaas]. cbn.
    destruct (String.eqb t "CONFLUENCE" || String.eqb t "SHAREPOINT"
              || String.eqb t "SALESFORCE").
    + destruct (dict_get (scalars d) "credentialsSecretArn");
        [ | discriminate Hsaas ].
      cbn. rewrite Hs. eexists. reflexivity.
    + rewrite Hs. eexists. reflexivity.
Qed.

Lemma s3_bucket_names_fails (l : list descriptor) (w : World) (e : exn) :
  outcome (s3_bucket_names l w) = Raise e ->
  forallb readable l = false /\
  exists k,
    In k ["type"; "bucket_name"; "credentialsSecretArn"] /\ e = KeyError k.
Proof.
  induction l as [ | d l IH]; cbn [forallb s3_bucket_names];
    [ discriminate | ].
  unfold item, bind, outcome.
  destruct (dict_get (scalars d) "type") as [t | ] eqn:Ht; cbn.
  2: { intros [= <-]. split.
       - unfold readable. now rewrite Ht.
       - eexists. split; [ | reflexivity ]. in_list. }
  destruct (String.eqb t "S3") eqn:Hs3.
  - destruct (dict_get (scalars d) "bucket_name") eqn:Hname; cbn.
    2: { intros [= <-]. split.
         - unfold readable, has_key. now rewrite Ht, Hs3, Hname.
         - eexists. split; [ | reflexivity ]. in_list. }
    destruct (silent_s3_bucket_names l w) as [[b Hb] | [e' Hb]];
      rewrite Hb; cbn; [ discriminate | ].
    intros [= <-]. destruct IH as [Hl Hk]; [ now rewrite Hb | ].
    split; [ rewrite Hl; apply andb_false_r | exact Hk ].
  - intros H.
    assert (H' : outcome (s3_bucket_names l w) = Raise e)
      by (destruct (s3_bucket_names l w) as [[r w2] t2]; exact H).
    destruct (IH H') as [Hl Hk].
    split; [ rewrite Hl; apply andb_false_r | exact Hk ].
Qed.

Lemma saas_secret_arns_fails (l : list descriptor) (w : World) (e : exn) :
  outcome (saas_secret_arns l w) = Raise e ->
  forallb readable l = false /\
  exists k,
    In k ["type"; "bucket_name"; "credentialsSecretArn"] /\ e = KeyError k.
Proof.
  induction l as [ | d l IH]; cbn [forallb saas_secret_arns];
    [ discriminate | ].
  unfold item, bind, outcome.
  destruct (dict_get (scalars d) "type") as [t | ] eqn:Ht; cbn.
  2: { intros [= <-]. split.
       - unfold readable. now rewrite Ht.
       - eexists. split; [ | reflexivity ]. in_list. }
  destruct (String.eqb t "CONFLUENCE" || String.eqb t "SHAREPOINT"
            || String.eqb t "SALESFORCE") eqn:Hsaas.
  - destruct (dict_get (scalars d) "credentialsSecretArn") eqn:Hsecret; cbn.
    2: { intros [= <-]. split.
         - unfold readable, has_key.
           now rewrite Ht, Hsaas, Hsecret, andb_false_r.
         - eexists. split; [ | reflexivity ]. in_list. }
    destruct (silent_saas_secret_arns l w) as [[arns Hs] | [e' Hs]];
      rewrite Hs; cbn; [ discriminate | ].
    intros [= <-]. destruct IH as [Hl Hk]; [ now rewrite Hs | ].
    split; [ rewrite Hl; apply andb_false_r | exact Hk ].
  - intros H.
    assert (H' : outcome (saas_secret_arns l w) = Raise e)
      by (destruct (saas_secret_arns l w) as [[r w2] t2]; exact H).
    destruct (IH H') as [Hl Hk].
    split; [ rewrite Hl; apply andb_false_r | exact Hk ].
Qed.

(** [__init__] reaches [_validate_models] when the two identity lookups
    return an identity and the descriptors can be read. *)
Lemma read_attributes_reads (args : Args) (w w1 w2 : World)
    (l : list descriptor) (account arn account' arn' : string) :
  perform GetCallerIdentity w = (Returns (CallerIdentity account arn), w1) ->
  perform GetCallerIdentity w1
    = (Returns (CallerIdentity account' arn'), w2) ->
  arg_data_sources args = Some l ->
  forallb readable l = true ->
  exists a,
    outcome (read_attributes perform session_region_name args w) = Ok a.
Proof.
  intros H1 H2 Hl Hr.
  destruct (s3_bucket_names_reads l w2 Hr) as [b Hb].
  destruct (saas_secret_arns_reads l w2 Hr) as [s Hs].
  eexists.
  unfold read_attributes, caller_account, caller_arn, outcome, bind, invoke.
  rewrite H1. cbn. rewrite H2. cbn. rewrite Hl. cbn. rewrite Hb. cbn.
  rewrite Hs. reflexivity.
Qed.

(** What it raises when it does not reach [_validate_models]. *)
Lemma read_attributes_error (args : Args) (w : World) (e : exn) :
  let read := read_attributes perform session_region_name args w in
  outcome read = Raise e -> reading_error args (trace read) e.
Proof.
  unfold read_attributes, caller_account, caller_arn, bind, invoke,
    reading_error, outcome, trace.
  destruct (perform GetCallerIdentity w) as [[r1 | e1] w1]; cbn;
    [ | intros [= <-]; left; left; reflexivity ].
  destruct (perform GetCallerIdentity w1) as [[r2 | e2] w2]; cbn;
    [ | intros [= <-]; left; right; left; reflexivity ].
  destruct r2; cbn;
    try (intros [= <-]; right; left;
         split; [ eexists; split;
                    [ right; left; reflexivity | intros ? ?; discriminate ]
                | reflexivity ]).
  destruct (arg_data_sources args) as [l | ]; cbn;
    [ | intros [= <-]; right; right; left; split; reflexivity ].
  destruct (silent_s3_bucket_names l w2) as [[b Hb] | [e' Hb]];
    rewrite Hb; cbn.
  - destruct (silent_saas_secret_arns l w2) as [[s Hs] | [e' Hs]];
      rewrite Hs; cbn; [ discriminate | ].
    intros [= <-].
    destruct (saas_secret_arns_fails l w2 e') as (Hl & k & Hk & ->);
      [ now rewrite Hs | ].
    right; right; right. exists l, k. now repeat split.
  - intros [= <-].
    destruct (s3_bucket_names_fails l w2 e') as (Hl & k & Hk & ->);
      [ now rewrite Hb | ].
    right; right; right. exists l, k. now repeat split.
Qed.

(** When validation fails, the constructor ends where [_validate_models]
    raises: its trace is the trace of the attribute assignments. *)
Lemma init_stops_at_validation (fuel : nat) (args : Args) (w : World)
    (e : exn) :
  validate_models_check (arg_embedding_model args)
    (arg_generation_model args) (arg_reranking_model args)
    (arg_multi_modal args) = Some e ->
  let read := read_attributes perform session_region_name args w in
  let run := __init__ perform session_region_name fuel args w in
  trace run = trace read /\
  outcome run = match outcome read with
                | Ok _ => Raise e
                | Raise e' => Raise e'
                | Diverge => Diverge
                end.
Proof.
  intros Hv read run. subst run. unfold __init__, initial_attributes.
  rewrite !trace_bind, !outcome_bind. fold read.
  pose proof (read_attributes_run args w) as (_ & _ & Hok). fold read in Hok.
  destruct (outcome read) as [a | e' | ] eqn:Hr.
  - destruct (Hok a eq_refl) as (_ & He & Hg & Hr' & Hm).
    rewrite !trace_bind, !outcome_bind.
    unfold _validate_models. rewrite He, Hg, Hr', Hm, Hv. cbn.
    generalize (trace read); intros t.
    rewrite !app_nil_r. split; reflexivity.
  - generalize (trace read); intros t.
    rewrite !app_nil_r. split; reflexivity.
  - generalize (trace read); intros t.
    rewrite !app_nil_r. split; reflexivity.
Qed.

Lemma init_rejects (fuel : nat) (args : Args) (w : World) (m : string) :
  validate_models_check (arg_embedding_model args)
    (arg_generation_model args) (arg_reranking_model args)
    (arg_multi_modal args) = Some (ValueError m) ->
  let run := __init__ perform session_region_name fuel args w in
  Forall (eq GetCallerIdentity) (calls (trace run)) /\
  (exists e, outcome run = Raise e) /\
  (forall account arn w1 account' arn' w2 l,
     perform GetCallerIdentity w
       = (Returns (CallerIdentity account arn), w1) ->
     perform GetCallerIdentity w1
       = (Returns (CallerIdentity account' arn'), w2) ->
     arg_data_sources args = Some l ->
     forallb readable l = true ->
     calls (trace run) = [GetCallerIdentity; GetCallerIdentity] /\
     outcome run = Raise (ValueError m)) /\
  (forall e,
     outcome run = Raise e ->
     e = ValueError m \/ reading_error args (trace run) e).
Proof.
  intros Hv run.
  destruct (@init_stops_at_validation fuel args w _ Hv) as [Ht Ho].
  fold run in Ht, Ho.
  pose proof (read_attributes_run args w) as (Hc & Hd & Hok).
  cbv zeta in Hc, Hd, Hok.
  pose proof (read_attributes_error args w) as Herr. cbv zeta in Herr.
  rewrite Ht, Ho. split; [ exact Hc | split; [ | split ] ].
  - destruct (outcome (read_attributes _ _ _ _)) as [a | e | ];
      [ eauto | eauto | contradiction ].
  - intros account arn w1 account' arn' w2 l H1 H2 Hl Hr.
    destruct (read_attributes_reads args w w1 w2 l _ _ _ _ H1 H2 Hl Hr)
      as [a Ha].
    rewrite Ha. split; [ apply (Hok a Ha) | reflexivity ].
  - intros e.
    destruct (outcome (read_attributes _ _ _ _)) as [a | e' | ] eqn:Hread.
    + intros [= <-]. now left.
    + intros [= <-]. right. now apply Herr.
    + discriminate.
Qed.

(** ** Validation precedes provisioning *)



(** ** Bucket provisioning *)

Lemma last_call_app (t1 t2 : list event) :
  last_call (t1 ++ t2) =
  match last_call t2 with
  | Some x => Some x
  | None => last_call t1
  end.
Proof.
  induction t1 as [ | [c r | s] t1 IH]; cbn.
  - now destruct (last_call t2).
  - rewrite IH. destruct (last_call t2); [ reflexivity | ].
    now destruct (last_call t1).
  - exact IH.
Qed.

Lemma last_call_in (t : list event) (c : call) (r : reply) :
  last_call t = Some (c, r) -> In (Called c r) t.
Proof.
  induction t as [ | [c' r' | s] t IH]; cbn; [ discriminate | | ].
  - destruct (last_call t) as [x | ].
    + intros [= ->]. right. now apply IH.
    + intros [= -> ->]. now left.
  - intros H. right. now apply IH.
Qed.

(** Closes a goal about a run whose trace has been computed: the run does
    not diverge, and the only call of its trace is the creation of [b]. *)
Ltac single_call_run b :=
  split;
  [ discriminate
  | let c := fresh "c" in
    let r := fresh "r" in
    let H := fresh "H" in
    intros c r H; cbn in H;
    repeat (destruct H as [H | H];
            [ first
                [ discriminate H
                | injection H as <- <-;
                  split;
                  [ reflexivity
                  | exists b; eexists;
                    split; [ reflexivity | split; [ reflexivity | ] ];
                    unfold creation_outcome, has_code;
                    repeat match goal with
                           | Heq : error_code _ = _ |- _ => rewrite Heq
                           | Heq : String.eqb _ _ = _ |- _ => rewrite Heq
                           end;
                    reflexivity ] ]
            | ]);
    contradiction ].

Lemma create_one_bucket_run (self : Attributes) (bucket_name : option string)
    (existing_buckets : list (option string)) (w : World) :
  let run := create_one_bucket perform self bucket_name existing_buckets w in
  outcome run <> Diverge /\
  forall c r,
    In (Called c r) (trace run) ->
    last_call (trace run) = Some (c, r) /\
    exists b location,
      bucket_name = Some b /\ c = CreateBucket b location /\
      outcome run = creation_outcome b existing_buckets r.
Proof.
  unfold create_one_bucket, bind, try_, say, required, invoke.
  destruct bucket_name as [b | ]; cbn.
  2: { split; [ discriminate | intros c r [[=] | []] ]. }
  destruct (String.eqb (region_name self) "us-east-1");
    (destruct (perform (CreateBucket b _) w) as [[x | e] w1]; cbn;
     [ single_call_run b | ];
     destruct (error_code e) as [code | ] eqn:Hcode; cbn;
     [ | single_call_run b ];
     destruct (String.eqb code "BucketAlreadyExists") eqn:Htaken; cbn;
     [ single_call_run b | ];
     destruct (String.eqb code "BucketAlreadyOwnedByYou") eqn:Hown; cbn;
     [ single_call_run b | ];
     destruct (String.eqb code "AccessDenied"); cbn; single_call_run b).
Qed.

Lemma create_buckets_failure (self : Attributes)
    (buckets existing_buckets : list (option string)) (w : World)
    (b : string) (location : option string) (e : exn) :
  In (Called (CreateBucket b location) (Raises e))
    (trace (create_buckets perform self buckets existing_buckets w)) ->
  has_code "BucketAlreadyOwnedByYou" e = false ->
  last_call (trace (create_buckets perform self buckets existing_buckets w))
    = Some (CreateBucket b location, Raises e) /\
  outcome (create_buckets perform self buckets existing_buckets w) =
    if has_code "BucketAlreadyExists" e
    then Raise (ValueError (bucket_taken_message b))
    else Raise e.
Proof.
  revert existing_buckets w.
  induction buckets as [ | bucket_name rest IH]; intros existing_buckets w;
    cbn [create_buckets].
  - cbn. intros [].
  - cbv zeta. rewrite trace_bind, outcome_bind.
    pose proof (create_one_bucket_run self bucket_name existing_buckets w)
      as [Hhalt Hone].
    cbv zeta in Hhalt, Hone.
    intros Hin Hown. apply in_app_or in Hin. destruct Hin as [Hin | Hin].
    + destruct (Hone _ _ Hin) as (Hlast & b' & loc' & _ & [= <- <-] & Hout).
      rewrite Hout. unfold creation_outcome. rewrite Hown.
      destruct (has_code "BucketAlreadyExists" e);
        (split; [ rewrite app_nil_r; exact Hlast | reflexivity ]).
    + destruct (outcome (create_one_bucket _ _ _ _ _)) as [ex' | e' | ];
        [ | contradiction | contradiction ].
      destruct (IH ex' _ Hin Hown) as [Hlast Hout].
      split; [ | exact Hout ].
      rewrite last_call_app, Hlast. reflexivity.
Qed.


Lemma probe_buckets_calls (buckets existing_buckets : list (option string))
    (w : World) (c : call) (r : reply) :
  In (Called c r) (trace (probe_buckets perform buckets existing_buckets w)) ->
  exists b, c = HeadBucket b.
Proof.
  revert existing_buckets w.
  induction buckets as [ | bucket_name rest IH]; intros existing_buckets w;
    cbn [probe_buckets].
  - cbn. intros [].
  - rewrite trace_bind. intros Hin. apply in_app_or in Hin.
    destruct Hin as [Hin | Hin].
    + clear IH. revert Hin.
      unfold try_, bind, required, invoke, say, ret, raise.
      destruct bucket_name as [b | ]; cbn; [ | intros [] ].
      destruct (perform (HeadBucket b) w) as [[x | e] w1]; cbn.
      * intros [[= <- <-] | [[=] | []]]. now exists b.
      * destruct (error_code e) as [code | ]; cbn.
        { destruct (String.eqb code "NoSuchBucket"); cbn;
            [ | destruct (_ || _); cbn ];
            (intros [[= <- <-] | [[=] | []]]; now exists b). }
        intros [[= <- <-] | []]. now exists b.
    + destruct (outcome (try_ _ _ w)); [ | contradiction | contradiction ].
      eapply IH. exact Hin.
Qed.

Lemma has_code_exclusive (a b : string) (e : exn) :
  a <> b -> has_code a e = true -> has_code b e = false.
Proof.
  unfold has_code. destruct (error_code e) as [code | ]; [ | discriminate ].
  intros Hab Ha. apply String.eqb_eq in Ha. subst code.
  now apply String.eqb_neq.
Qed.

(** C7.  A creation attempt answered with [BucketAlreadyExists] (the name is
    owned by another account) makes [create_s3_bucket] raise a [ValueError]
    naming the bucket, and that attempt is the last provider call: nothing
    is retried.  The error raised is not the provider's own, whereas any
    other error of a creation attempt ([BucketAlreadyOwnedByYou] apart, which
    adopts the bucket) is raised as it is, also ending the provisioning. *)
Theorem taken_bucket_name_is_fatal (self : Attributes) (w : World)
    (b : string) (location : option string) (e : exn) :
  let run := create_s3_bucket perform self w in
  In (Called (CreateBucket b location) (Raises e)) (trace run) ->
  (has_code "BucketAlreadyExists" e = true ->
   outcome run = Raise (ValueError (bucket_taken_message b)) /\
   outcome run <> Raise e /\
   last_call (trace run) = Some (CreateBucket b location, Raises e)) /\
  (has_code "BucketAlreadyExists" e = false ->
   has_code "BucketAlreadyOwnedByYou" e = false ->
   outcome run = Raise e /\
   last_call (trace run) = Some (CreateBucket b location, Raises e)).
Proof.
  intros run Hin. subst run. unfold create_s3_bucket in *.
  rewrite trace_bind in Hin. rewrite trace_bind, outcome_bind.
  apply in_app_or in Hin. destruct Hin as [Hin | Hin].
  { apply probe_buckets_calls in Hin. destruct Hin as [b' [=]]. }
  destruct (outcome (probe_buckets _ _ _ _)) as [existing | e' | ];
    [ | contradiction | contradiction ].
  rewrite last_call_app.
  split.
  - intros Htaken.
    assert (Hown : has_code "BucketAlreadyOwnedByYou" e = false)
      by (eapply has_code_exclusive; [ | exact Htaken ]; discriminate).
    destruct (create_buckets_failure _ _ _ _ _ _ _ Hin Hown) as [-> ->].
    rewrite Htaken. repeat split.
    intros [= <-]. discriminate Htaken.
  - intros Htaken Hown.
    destruct (create_buckets_failure _ _ _ _ _ _ _ Hin Hown) as [-> ->].
    now rewrite Htaken.
Qed.

(** ** Confinement of the calls of a computation *)

Lemma confined_ret {A : Type} (P : call -> bool) (a : A) :
  confined P (ret a : M A).
Proof. intros w. reflexivity. Qed.

Lemma confined_raise {A : Type} (P : call -> bool) (e : exn) :
  confined P (raise e : M A).
Proof. intros w. reflexivity. Qed.

Lemma confined_say (P : call -> bool) (line : string) :
  confined P (say line : M unit).
Proof. intros w. reflexivity. Qed.

Lemma confined_invoke (P : call -> bool) (c : call) :
  P c = true -> confined P (invoke perform c).
Proof.
  intros Hc w. unfold invoke.
  destruct (perform c w) as [[r | e] w']; cbn; now rewrite Hc.
Qed.

Lemma confined_bind {A B : Type} (P : call -> bool) (m : M A)
    (k : A -> M B) :
  confined P m -> (forall a, confined P (k a)) -> confined P (bind m k).
Proof.
  intros Hm Hk w. rewrite trace_bind, calls_app, forallb_app, Hm.
  destruct (outcome (m w)); [ apply Hk | reflexivity | reflexivity ].
Qed.

Lemma confined_try {A : Type} (P : call -> bool) (m : M A)
    (h : exn -> M A) :
  confined P m -> (forall e, confined P (h e)) -> confined P (try_ m h).
Proof.
  intros Hm Hh w. rewrite trace_try, calls_app, forallb_app, Hm.
  destruct (outcome (m w)); [ reflexivity | apply Hh | reflexivity ].
Qed.

Lemma confined_weaken {A : Type} (P Q : call -> bool) (m : M A) :
  (forall c, P c = true -> Q c = true) -> confined P m -> confined Q m.
Proof.
  intros HPQ Hm w. specialize (Hm w).
  rewrite forallb_forall in *. auto.
Qed.

(** Confinement of straight-line code, rule by rule. *)
Ltac confine :=
  repeat first
    [ apply confined_ret
    | apply confined_raise
    | apply confined_say
    | apply confined_invoke; reflexivity
    | apply confined_bind; [ | intro ]
    | apply confined_try; [ | intro ]
    | match goal with
      | |- confined _ (if ?b then _ else _) => destruct b
      | |- confined _ (match ?x with _ => _ end) => destruct x
      | |- confined _ (let '(_, _) := ?x in _) => destruct x
      end ].

(** ** Order of the calls *)

Section Order.

Variables early late : call -> bool.

Lemma ordered_app (t1 t2 : list call) :
  ordered early late t1 = true ->
  ordered early late t2 = true ->
  forallb (fun c => negb (late c)) t1 = true \/
  forallb (fun c => negb (early c)) t2 = true ->
  ordered early late (t1 ++ t2) = true.
Proof.
  induction t1 as [ | c t1 IH]; cbn; [ auto | ].
  intros H1 H2 H. apply andb_true_iff in H1. destruct H1 as [Hc H1].
  apply andb_true_iff. split.
  - destruct (late c) eqn:Hl; [ | reflexivity ].
    rewrite forallb_app, Hc. cbn.
    destruct H as [H | H]; [ | exact H ].
    cbn in H. discriminate H.
  - apply IH; [ exact H1 | exact H2 | ].
    destruct H as [H | H]; [ left | right; exact H ].
    apply andb_true_iff in H. apply H.
Qed.

Lemma ordered_without_late (t : list call) :
  forallb (fun c => negb (late c)) t = true -> ordered early late t = true.
Proof.
  induction t as [ | c t IH]; cbn; [ reflexivity | ].
  intros H. apply andb_true_iff in H. destruct H as [Hc H].
  apply negb_true_iff in Hc. rewrite Hc. cbn. auto.
Qed.

Lemma ordered_precedes (t : list call) :
  (forall c, early c = true -> late c = false) ->
  ordered early late t = true -> precedes early late t.
Proof.
  intros Hdisjoint. induction t as [ | a t IH]; intros Hord i j c d Hi Hc Hj Hd.
  - destruct i; discriminate.
  - cbn in Hord. apply andb_true_iff in Hord. destruct Hord as [Ha Hord].
    destruct i as [ | i], j as [ | j]; cbn in Hi, Hj.
    + injection Hi as ->. injection Hj as ->.
      rewrite (Hdisjoint _ Hd) in Hc. discriminate.
    + injection Hi as ->. rewrite Hc in Ha.
      rewrite forallb_forall in Ha.
      apply nth_error_In in Hj. apply Ha in Hj.
      rewrite Hd in Hj. discriminate.
    + lia.
    + apply -> Nat.succ_lt_mono. eapply IH; eauto.
Qed.

Local Abbreviation orderly := (orderly early late).

Lemma orderly_confined {A : Type} (m : M A) :
  confined (fun c => negb (late c)) m -> orderly m.
Proof. intros H w. apply ordered_without_late, H. Qed.

Lemma orderly_bind {A B : Type} (m : M A) (k : A -> M B) :
  orderly m -> (forall a, orderly (k a)) ->
  confined (fun c => negb (late c)) m \/
  (forall a, confined (fun c => negb (early c)) (k a)) ->
  orderly (bind m k).
Proof.
  intros Hm Hk H w. rewrite trace_bind, calls_app.
  apply ordered_app; [ apply Hm | | ].
  - destruct (outcome (m w)); [ apply Hk | reflexivity | reflexivity ].
  - destruct H as [H | H]; [ left; apply H | right ].
    destruct (outcome (m w)); [ apply H | reflexivity | reflexivity ].
Qed.

Lemma orderly_try {A : Type} (m : M A) (h : exn -> M A) :
  orderly m -> (forall e, orderly (h e)) ->
  confined (fun c => negb (late c)) m \/
  (forall e, confined (fun c => negb (early c)) (h e)) ->
  orderly (try_ m h).
Proof.
  intros Hm Hh H w. rewrite trace_try, calls_app.
  apply ordered_app; [ apply Hm | | ].
  - destruct (outcome (m w)); [ reflexivity | apply Hh | reflexivity ].
  - destruct H as [H | H]; [ left; apply H | right ].
    destruct (outcome (m w)); [ reflexivity | apply H | reflexivity ].
Qed.

End Order.

(** ** Teardown: which calls, in which order *)

Lemma orderly_invoke (early late : call -> bool) (c : call) :
  orderly early late (invoke perform c).
Proof.
  intros w. unfold invoke.
  destruct (perform c w) as [[r | e] w']; cbn; now destruct (late c).
Qed.

Lemma confined_all {A : Type} (m : M A) : confined (fun _ => true) m.
Proof.
  intros w. induction (calls (trace (m w))); cbn; auto.
Qed.

(** The loops of the teardown, for any predicate that holds of their
    calls. *)
Lemma confined_delete_data_sources (P : call -> bool) (self : Self)
    (created : list data_source_detail) :
  (forall ds kb, P (DeleteDataSource ds kb) = true) ->
  confined P (delete_data_sources perform self created).
Proof.
  intros HP. induction created as [ | ds rest IH]; cbn [delete_data_sources].
  - apply confined_ret.
  - apply confined_bind; [ | intros _; exact IH ].
    unfold attribute. confine. apply confined_invoke, HP.
Qed.

Lemma confined_delete_buckets (P : call -> bool) (names : list string) :
  (forall c, from_service "s3" c = true -> P c = true) ->
  confined P (delete_buckets perform names).
Proof.
  intros HP. induction names as [ | b rest IH]; cbn [delete_buckets].
  - apply confined_ret.
  - apply confined_bind; [ | intros _; exact IH ].
    unfold delete_one_bucket. confine; apply confined_invoke, HP; reflexivity.
Qed.

Lemma confined_bind_ret {A B : Type} (P : call -> bool) (a : A)
    (k : A -> M B) :
  confined P (k a) -> confined P (bind (ret a) k).
Proof.
  intros H w. specialize (H w). unfold bind, ret, trace in *.
  now destruct (k a w) as [[r w'] t].
Qed.

Lemma confined_detach_and_delete_policies (P : call -> bool)
    (role_name : string) (attached : list attached_policy) :
  (forall a, P (DetachRolePolicy role_name a) = true) ->
  (forall a,
     deletes_service_role_policy (DeletePolicy a) = false ->
     P (DeletePolicy a) = true) ->
  confined P (detach_and_delete_policies perform role_name attached).
Proof.
  intros Hdetach Hdelete.
  induction attached as [ | p rest IH]; cbn [detach_and_delete_policies];
    cbv zeta.
  - apply confined_ret.
  - apply confined_bind; [ apply confined_invoke, Hdetach | intros _ ].
    apply confined_bind; [ apply confined_say | intros _ ].
    destruct (second_segment (PolicyArn p)) as [segment | ] eqn:Hseg;
      [ | confine ].
    apply confined_bind_ret.
    apply confined_bind; [ | intros _; exact IH ].
    destruct (String.eqb segment "service-role") eqn:Hs; [ confine | ].
    apply confined_bind; [ | intros _; apply confined_say ].
    apply confined_invoke, Hdelete.
    unfold deletes_service_role_policy. now rewrite Hseg.
Qed.

Lemma confined_delete_one_role (P : call -> bool) (role_name : string) :
  (forall c,
     concerns_role role_name c = true ->
     deletes_service_role_policy c = false -> P c = true) ->
  confined P (delete_one_role perform role_name).
Proof.
  intros HP. unfold delete_one_role.
  assert (Hrole : forall c,
             concerns_role role_name c = true ->
             (forall a, c <> DeletePolicy a) -> P c = true).
  { intros c Hc Hno. apply HP; [ exact Hc | ].
    destruct c; try reflexivity. now contradiction (Hno policy_arn). }
  apply confined_bind; [ apply confined_say | intros _ ].
  apply confined_bind.
  - apply confined_try;
      [ apply confined_bind; [ | intros _; apply confined_ret ]
      | intros e; confine ].
    apply confined_invoke, Hrole; [ apply String.eqb_refl | discriminate ].
  - intros [ | ]; [ | apply confined_ret ].
    apply confined_bind;
      [ apply confined_invoke, Hrole; [ apply String.eqb_refl | discriminate ]
      | intros r ].
    apply confined_bind; [ destruct r; confine | intros attached ].
    apply confined_bind;
      [ apply confined_detach_and_delete_policies;
        intros a; [ | intros Ha ]; apply HP; cbn;
        auto using String.eqb_refl
      | intros _ ].
    apply confined_bind; [ | intros _; apply confined_say ].
    apply confined_invoke, Hrole; [ apply String.eqb_refl | discriminate ].
Qed.

Lemma confined_delete_roles (P : call -> bool) (role_names : list string) :
  (forall c r,
     In r role_names -> concerns_role r c = true ->
     deletes_service_role_policy c = false -> P c = true) ->
  confined P (delete_roles perform role_names).
Proof.
  induction role_names as [ | r rest IH]; intros HP; cbn [delete_roles].
  - apply confined_ret.
  - apply confined_bind.
    + apply confined_delete_one_role. intros c. apply HP. now left.
    + intros _. apply IH. intros c r' Hr'. apply HP. now right.
Qed.

Lemma concerns_role_iam (r : string) (c : call) :
  concerns_role r c = true -> from_service "iam" c = true.
Proof. destruct c; cbn; try discriminate; reflexivity. Qed.

(** The last call of the loop body for a role is its [delete_role]. *)
Lemma orderly_delete_one_role (r role_name : string) :
  orderly (is_detach_role_policy r) (is_delete_role r)
    (delete_one_role perform role_name).
Proof.
  unfold delete_one_role.
  apply orderly_bind;
    [ apply orderly_confined, confined_say | intros _
    | left; apply confined_say ].
  apply orderly_bind; [ | | left ].
  - apply orderly_confined. confine.
  - intros [ | ]; [ | apply orderly_confined, confined_ret ].
    apply orderly_bind;
      [ apply orderly_confined, confined_invoke; reflexivity | intros x
      | left; apply confined_invoke; reflexivity ].
    apply orderly_bind;
      [ apply orderly_confined; destruct x; confine | intros attached
      | left; destruct x; confine ].
    apply orderly_bind; [ | intros _ | left ].
    + apply orderly_confined, confined_detach_and_delete_policies;
        reflexivity.
    + apply orderly_bind;
        [ apply orderly_invoke
        | intros _; apply orderly_confined, confined_say
        | right; intros _; apply confined_say ].
    + apply confined_detach_and_delete_policies; reflexivity.
  - confine.
Qed.


Lemma orderly_delete_roles (r : string) (role_names : list string) :
  NoDup role_names ->
  orderly (is_detach_role_policy r) (is_delete_role r)
    (delete_roles perform role_names).
Proof.
  induction role_names as [ | r1 rest IH]; intros Hnodup;
    cbn [delete_roles].
  - apply orderly_confined, confined_ret.
  - inversion Hnodup as [ | ? ? Hnotin Hrest ]; subst.
    apply orderly_bind;
      [ apply orderly_delete_one_role | intros _; apply IH, Hrest | ].
    destruct (String.eqb_spec r1 r) as [-> | Hneq].
    + right. intros _. apply confined_delete_roles.
      intros c r' Hr' Hc _. destruct c; try reflexivity; cbn in *.
      apply negb_true_iff, String.eqb_neq. intros ->.
      apply String.eqb_eq in Hc. now subst.
    + left. apply confined_delete_one_role.
      intros c Hc _. destruct c; try reflexivity; cbn in *.
      apply negb_true_iff, String.eqb_neq. intros ->.
      apply String.eqb_eq in Hc. now subst.
Qed.

(** The block of [delete_kb] that deletes the data sources and then the
    knowledge base. *)
Lemma orderly_delete_entity (kb_id : string) (self : Self) :
  orderly (is_delete_data_source kb_id) (is_delete_knowledge_base kb_id)
    (delete_entity perform self).
Proof.
  unfold delete_entity.
  apply orderly_try;
    [ | intros e; apply orderly_confined; confine | right; intros e; confine ].
  apply orderly_bind;
    [ apply orderly_confined; unfold attribute; confine | intros created
    | left; unfold attribute; confine ].
  apply orderly_bind; [ | intros _ | left ].
  - apply orderly_confined, confined_delete_data_sources. reflexivity.
  - apply orderly_bind;
      [ apply orderly_confined; unfold attribute; confine | intros kb
      | left; unfold attribute; confine ].
    apply orderly_bind;
      [ apply orderly_invoke
      | intros _; apply orderly_confined, confined_say
      | right; intros _; apply confined_say ].
  - apply confined_delete_data_sources. reflexivity.
Qed.

Lemma confined_delete_entity (P : call -> bool) (self : Self) :
  (forall c, from_service "bedrock-agent" c = true -> P c = true) ->
  confined P (delete_entity perform self).
Proof.
  intros HP. unfold delete_entity, attribute.
  apply confined_try; [ | intros e; confine ].
  apply confined_bind; [ confine | intros created ].
  apply confined_bind;
    [ apply confined_delete_data_sources; intros; now apply HP | intros _ ].
  confine. now apply confined_invoke, HP.
Qed.

(** What follows that step makes no [bedrock-agent] call, and what precedes
    the IAM step or follows it makes no IAM call. *)
Lemma confined_delete_s3 (P : call -> bool) (self : Attributes) :
  (forall c, from_service "s3" c = true -> P c = true) ->
  confined P (delete_s3 perform self).
Proof.
  intros HP. unfold delete_s3.
  apply confined_bind; [ | intros _; apply confined_say ].
  now apply confined_delete_buckets.
Qed.

Lemma confined_delete_cloudwatch_log_group (P : call -> bool)
    (self : Attributes) :
  (forall c, from_service "logs" c = true -> P c = true) ->
  confined P (delete_cloudwatch_log_group perform self).
Proof.
  intros HP. unfold delete_cloudwatch_log_group.
  confine; apply confined_invoke, HP; reflexivity.
Qed.

Lemma confined_delete_lambda_function (P : call -> bool)
    (self : Attributes) :
  (forall c, from_service "lambda" c = true -> P c = true) ->
  confined P (delete_lambda_function perform self).
Proof.
  intros HP. unfold delete_lambda_function, required.
  confine; apply confined_invoke, HP; reflexivity.
Qed.


Lemma confined_delete_lambda_block (P : call -> bool) (self : Self) :
  (forall c, from_service "lambda" c = true -> P c = true) ->
  confined P (delete_lambda_block perform self).
Proof.
  intros HP. unfold delete_lambda_block.
  apply confined_try; [ | intros e; confine ].
  apply confined_bind; [ | intros _; apply confined_say ].
  now apply confined_delete_lambda_function.
Qed.

Lemma confined_delete_index (P : call -> bool) (self : Self) :
  (forall c,
     from_service "opensearchserverless" c = true \/
     from_service "neptune-graph" c = true -> P c = true) ->
  confined P (delete_index perform self).
Proof.
  intros HP. unfold delete_index, attribute, required.
  confine; apply confined_invoke, HP; auto.
Qed.

Lemma confined_delete_iam_roles_and_policies (P : call -> bool)
    (self : Self) :
  (forall c,
     from_service "iam" c = true ->
     deletes_service_role_policy c = false -> P c = true) ->
  confined P (delete_iam_roles_and_policies perform self).
Proof.
  intros HP. unfold delete_iam_roles_and_policies.
  apply confined_bind; [ | intros _; apply confined_say ].
  apply confined_delete_roles. intros c r _ Hc.
  apply HP. eapply concerns_role_iam, Hc.
Qed.

(** The calls of [delete_kb] satisfy a predicate that holds of the calls
    of each of its blocks. *)
Lemma confined_delete_kb (P : call -> bool) (self : Self)
    (s3 iam lam : bool) :
  (forall c,
     deletes_service_role_policy c = false ->
     In (service_of c)
       [ "bedrock-agent"; "s3"; "logs"; "iam"; "lambda";
         "opensearchserverless"; "neptune-graph" ] ->
     P c = true) ->
  confined P (delete_kb perform self s3 iam lam).
Proof.
  intros HP.
  assert (Hservice : forall service,
             In service
               [ "bedrock-agent"; "s3"; "logs"; "lambda";
                 "opensearchserverless"; "neptune-graph" ] ->
             forall c, from_service service c = true -> P c = true).
  { intros service Hin c Hc. apply String.eqb_eq in Hc.
    apply HP.
    - destruct c; try reflexivity.
      cbn in Hc. subst service. cbn in Hin.
      repeat (destruct Hin as [Hin | Hin]; [ discriminate Hin | ]).
      contradiction.
    - rewrite Hc. cbn in Hin. cbn. tauto. }
  unfold delete_kb.
  apply confined_bind;
    [ apply confined_delete_entity, Hservice; in_list | intros _ ].
  apply confined_bind;
    [ destruct s3;
      [ apply confined_delete_s3, Hservice; in_list | apply confined_ret ]
    | intros _ ].
  apply confined_bind;
    [ apply confined_delete_cloudwatch_log_group, Hservice; in_list
    | intros _ ].
  apply confined_bind;
    [ destruct iam; [ | apply confined_ret ] | intros _ ].
  { apply confined_delete_iam_roles_and_policies. intros c Hc Hs.
    apply HP; [ exact Hs | ]. apply String.eqb_eq in Hc. rewrite Hc. in_list. }
  apply confined_bind;
    [ destruct lam;
      [ apply confined_delete_lambda_block, Hservice; in_list
      | apply confined_ret ]
    | intros _ ].
  apply confined_delete_index. intros c [Hc | Hc];
    (eapply Hservice; [ | exact Hc ]); in_list.
Qed.


Lemma orderly_delete_kb_entity (kb_id : string) (self : Self)
    (s3 iam lam : bool) :
  orderly (is_delete_data_source kb_id) (is_delete_knowledge_base kb_id)
    (delete_kb perform self s3 iam lam).
Proof.
  assert (Htail : forall P : call -> bool,
             (forall c, from_service "bedrock-agent" c = false ->
                        P c = true) ->
             confined P
               ((if s3 then delete_s3 perform self else ret tt) ;;
                delete_cloudwatch_log_group perform self ;;
                (if iam then delete_iam_roles_and_policies perform self
                 else ret tt) ;;
                (if lam then delete_lambda_block perform self else ret tt) ;;
                delete_index perform self)).
  { intros P HP.
    assert (Hother : forall service,
               service <> "bedrock-agent" ->
               forall c, from_service service c = true -> P c = true).
    { intros service Hneq c Hc. apply HP. apply String.eqb_eq in Hc.
      unfold from_service. rewrite Hc. now apply String.eqb_neq. }
    apply confined_bind;
      [ destruct s3;
        [ apply confined_delete_s3, Hother; discriminate
        | apply confined_ret ]
      | intros _ ].
    apply confined_bind;
      [ apply confined_delete_cloudwatch_log_group, Hother; discriminate
      | intros _ ].
    apply confined_bind;
      [ destruct iam; [ | apply confined_ret ] | intros _ ].
    { apply confined_delete_iam_roles_and_policies. intros c Hc _.
      eapply Hother; [ | exact Hc ]. discriminate. }
    apply confined_bind;
      [ destruct lam;
        [ apply confined_delete_lambda_block, Hother; discriminate
        | apply confined_ret ]
      | intros _ ].
    apply confined_delete_index. intros c [Hc | Hc];
      (eapply Hother; [ | exact Hc ]); discriminate. }
  unfold delete_kb.
  apply orderly_bind; [ apply orderly_delete_entity | intros _ | right ].
  - apply orderly_confined, Htail. intros c Hc.
    destruct c; try reflexivity; discriminate Hc.
  - intros _. apply Htail. intros c Hc.
    destruct c; try reflexivity; discriminate Hc.
Qed.

Lemma orderly_delete_kb_roles (r : string) (self : Self)
    (s3 iam lam : bool) :
  NoDup (roles self) ->
  orderly (is_detach_role_policy r) (is_delete_role r)
    (delete_kb perform self s3 iam lam).
Proof.
  intros Hnodup.
  assert (Hother : forall service,
             service <> "iam" ->
             forall c, from_service service c = true ->
                       negb (is_delete_role r c) = true /\
                       negb (is_detach_role_policy r c) = true).
  { intros service Hneq c Hc. apply String.eqb_eq in Hc.
    destruct c; cbn in *; auto; now contradiction Hneq. }
  unfold delete_kb.
  apply orderly_bind; [ | intros _ | left ].
  1, 3: try apply orderly_confined;
        apply confined_delete_entity; intros c Hc;
        eapply Hother; [ | exact Hc ]; discriminate.
  apply orderly_bind; [ | intros _ | left ].
  1, 3: try apply orderly_confined;
        (destruct s3; [ | apply confined_ret ]);
        apply confined_delete_s3; intros c Hc;
        eapply Hother; [ | exact Hc ]; discriminate.
  apply orderly_bind; [ | intros _ | left ].
  1, 3: try apply orderly_confined;
        apply confined_delete_cloudwatch_log_group; intros c Hc;
        eapply Hother; [ | exact Hc ]; discriminate.
  assert (Htail : forall P : call -> bool,
             (forall c, from_service "iam" c = false -> P c = true) ->
             confined P
               ((if lam then delete_lambda_block perform self else ret tt) ;;
                delete_index perform self)).
  { intros P HP.
    assert (Hnot : forall service,
               service <> "iam" ->
               forall c, from_service service c = true -> P c = true).
    { intros service Hneq c Hc. apply HP. apply String.eqb_eq in Hc.
      unfold from_service. rewrite Hc. now apply String.eqb_neq. }
    apply confined_bind;
      [ destruct lam;
        [ apply confined_delete_lambda_block, Hnot; discriminate
        | apply confined_ret ]
      | intros _ ].
    apply confined_delete_index. intros c [Hc | Hc];
      (eapply Hnot; [ | exact Hc ]); discriminate. }
  apply orderly_bind; [ | intros _ | right; intros _ ].
  - destruct iam; [ | apply orderly_confined, confined_ret ].
    unfold delete_iam_roles_and_policies.
    apply orderly_bind;
      [ now apply orderly_delete_roles
      | intros _; apply orderly_confined, confined_say
      | right; intros _; apply confined_say ].
  - apply orderly_confined, Htail. intros c Hc.
    destruct c; try reflexivity; discriminate Hc.
  - apply Htail. intros c Hc.
    destruct c; try reflexivity; discriminate Hc.
Qed.



(** ** Computations that return, halt, report *)

Lemma halting_ret {A : Type} (a : A) : halting (ret a : M A).
Proof. intros w. discriminate. Qed.

Lemma halting_raise {A : Type} (e : exn) : halting (raise e : M A).
Proof. intros w. discriminate. Qed.

Lemma halting_say (line : string) : halting (say line : M unit).
Proof. intros w. discriminate. Qed.

Lemma halting_invoke (c : call) : halting (invoke perform c).
Proof.
  intros w. unfold invoke.
  destruct (perform c w) as [[r | e] w']; discriminate.
Qed.

Lemma halting_bind {A B : Type} (m : M A) (k : A -> M B) :
  halting m -> (forall a, halting (k a)) -> halting (bind m k).
Proof.
  intros Hm Hk w. rewrite outcome_bind. specialize (Hm w).
  destruct (outcome (m w)); [ apply Hk | discriminate | contradiction ].
Qed.

Lemma halting_try {A : Type} (m : M A) (h : exn -> M A) :
  halting m -> (forall e, halting (h e)) -> halting (try_ m h).
Proof.
  intros Hm Hh w. rewrite outcome_try. specialize (Hm w).
  destruct (outcome (m w)); [ discriminate | apply Hh | contradiction ].
Qed.

Lemma unfailing_halting {A : Type} (m : M A) : unfailing m -> halting m.
Proof. intros H w. destruct (H w) as [a ->]. discriminate. Qed.

Lemma unfailing_ret {A : Type} (a : A) : unfailing (ret a : M A).
Proof. intros w. now exists a. Qed.

Lemma unfailing_say (line : string) : unfailing (say line : M unit).
Proof. intros w. now exists tt. Qed.

Lemma unfailing_bind {A B : Type} (m : M A) (k : A -> M B) :
  unfailing m -> (forall a, unfailing (k a)) -> unfailing (bind m k).
Proof.
  intros Hm Hk w. rewrite outcome_bind. destruct (Hm w) as [a ->]. apply Hk.
Qed.

Lemma unfailing_try {A : Type} (m : M A) (h : exn -> M A) :
  halting m -> (forall e, unfailing (h e)) -> unfailing (try_ m h).
Proof.
  intros Hm Hh w. rewrite outcome_try. specialize (Hm w).
  destruct (outcome (m w)) as [a | e | ];
    [ now exists a | apply Hh | contradiction ].
Qed.

Lemma unfailing_try_body {A : Type} (m : M A) (h : exn -> M A) :
  unfailing m -> unfailing (try_ m h).
Proof.
  intros Hm w. rewrite outcome_try. destruct (Hm w) as [a ->]. now exists a.
Qed.

Ltac halt :=
  repeat first
    [ apply halting_ret
    | apply halting_raise
    | apply halting_say
    | apply halting_invoke
    | apply halting_bind; [ | intro ]
    | apply halting_try; [ | intro ]
    | match goal with
      | |- halting (if ?b then _ else _) => destruct b
      | |- halting (match ?x with _ => _ end) => destruct x
      end ].

Lemma reported_app_strict (s : bool) (t1 t2 : list event) :
  reported true t1 = true -> reported s t2 = true ->
  reported s (t1 ++ t2) = true.
Proof.
  intros H1 H2. induction t1 as [ | ev t1 IH]; [ exact H2 | ].
  destruct ev as [c [x | e] | line]; cbn in *; try now apply IH.
  destruct t1 as [ | [c' r' | line] t1]; try discriminate H1.
  cbn [app]. now apply IH.
Qed.

Lemma reported_app_print (s : bool) (t1 t2 : list event) (line : string) :
  reported false t1 = true -> reported s (Printed line :: t2) = true ->
  reported s (t1 ++ Printed line :: t2) = true.
Proof.
  intros H1 H2. induction t1 as [ | ev t1 IH]; [ exact H2 | ].
  destruct ev as [c [x | e] | l]; cbn in *; try now apply IH.
  destruct t1 as [ | [c' r' | l] t1]; try discriminate H1.
  - exact H2.
  - cbn [app]. now apply IH.
Qed.

Lemma reported_weaken (t : list event) :
  reported true t = true -> reported false t = true.
Proof.
  induction t as [ | ev t IH]; [ reflexivity | ].
  destruct ev as [c [x | e] | l]; cbn; try exact IH.
  destruct t as [ | [c' r' | l] t]; try discriminate; exact IH.
Qed.

Lemma accountable_ret {A : Type} (a : A) : accountable (ret a : M A).
Proof. intros w. reflexivity. Qed.

Lemma accountable_raise {A : Type} (e : exn) : accountable (raise e : M A).
Proof. intros w. reflexivity. Qed.

Lemma accountable_say (line : string) : accountable (say line : M unit).
Proof. intros w. reflexivity. Qed.

Lemma accountable_invoke (c : call) : accountable (invoke perform c).
Proof.
  intros w. unfold invoke. now destruct (perform c w) as [[r | e] w'].
Qed.

Lemma accountable_bind {A B : Type} (m : M A) (k : A -> M B) :
  accountable m -> (forall a, accountable (k a)) -> accountable (bind m k).
Proof.
  intros Hm Hk w. rewrite outcome_bind, trace_bind. specialize (Hm w).
  destruct (outcome (m w)) as [a | e | ]; cbn [is_ok] in *.
  - apply reported_app_strict; [ exact Hm | apply Hk ].
  - now rewrite app_nil_r.
  - now rewrite app_nil_r.
Qed.

(** A handler reports when it prints first, or raises at once. *)
Lemma accountable_try {A : Type} (m : M A) (h : exn -> M A) :
  accountable m ->
  (forall e, accountable (h e) /\
             (announcing (h e) \/ exists e', h e = raise e')) ->
  accountable (try_ m h).
Proof.
  intros Hm Hh w. rewrite outcome_try, trace_try. specialize (Hm w).
  destruct (outcome (m w)) as [a | e | ]; cbn [is_ok] in *.
  - now rewrite app_nil_r.
  - destruct (Hh e) as [Hacc [Hann | [e' Heq]]].
    + destruct (Hann (final (m w))) as (line & t & Ht).
      specialize (Hacc (final (m w))). rewrite Ht in *.
      now apply reported_app_print.
    + rewrite Heq. cbn. now rewrite app_nil_r.
  - now rewrite app_nil_r.
Qed.

Lemma announcing_say (line : string) : announcing (say line : M unit).
Proof. intros w. now exists line, []. Qed.

Lemma announcing_bind_say {B : Type} (line : string) (k : unit -> M B) :
  announcing (bind (say line) k).
Proof.
  intros w. unfold bind, say. destruct (k tt w) as [[r w'] t].
  now exists line, t.
Qed.

(** A handler that only prints, whatever the exception. *)
Ltac printing_handler :=
  let e := fresh "e" in
  intros e; split;
  [ repeat first
      [ apply accountable_say
      | match goal with
        | |- accountable (if ?b then _ else _) => destruct b
        end ]
  | left;
    repeat first
      [ apply announcing_say
      | match goal with
        | |- announcing (if ?b then _ else _) => destruct b
        end ] ].

Ltac account :=
  repeat first
    [ apply accountable_ret
    | apply accountable_raise
    | apply accountable_say
    | apply accountable_invoke
    | apply accountable_bind; [ | intro ]
    | apply accountable_try; [ | printing_handler ]
    | match goal with
      | |- accountable (if ?b then _ else _) => destruct b
      | |- accountable (match ?x with _ => _ end) => destruct x
      end ].

Lemma attempts_invoke (c : call) : attempts c (invoke perform c).
Proof.
  intros w. unfold invoke.
  destruct (perform c w) as [[r | e] w']; now left.
Qed.

Lemma attempts_bind_first {A B : Type} (c : call) (m : M A) (k : A -> M B) :
  attempts c m -> attempts c (bind m k).
Proof.
  intros Hm w. rewrite trace_bind, calls_app. apply in_or_app. left. apply Hm.
Qed.

Lemma attempts_bind_next {A B : Type} (c : call) (m : M A) (k : A -> M B) :
  unfailing m -> (forall a, attempts c (k a)) -> attempts c (bind m k).
Proof.
  intros Hm Hk w. rewrite trace_bind, calls_app. apply in_or_app. right.
  destruct (Hm w) as [a ->]. apply Hk.
Qed.

Lemma attempts_bind_ret {A B : Type} (c : call) (a : A) (k : A -> M B) :
  attempts c (k a) -> attempts c (bind (ret a) k).
Proof.
  intros H w. specialize (H w). unfold bind, ret, trace in *.
  now destruct (k a w) as [[r w'] t].
Qed.

Lemma attempts_try {A : Type} (c : call) (m : M A) (h : exn -> M A) :
  attempts c m -> attempts c (try_ m h).
Proof.
  intros Hm w. rewrite trace_try, calls_app. apply in_or_app. left. apply Hm.
Qed.


(** ** Teardown: every block returns and reports *)

Lemma delete_data_sources_returns (self : Self)
    (created : list data_source_detail) :
  unfailing (delete_data_sources perform self created) /\
  accountable (delete_data_sources perform self created).
Proof.
  induction created as [ | ds rest [IHu IHa]]; cbn [delete_data_sources].
  - split; [ apply unfailing_ret | apply accountable_ret ].
  - split.
    + apply unfailing_bind; [ | intros _; exact IHu ].
      apply unfailing_try; [ unfold attribute; halt | ].
      intros e. destruct (is_ResourceNotFoundException e); apply unfailing_say.
    + apply accountable_bind; [ | intros _; exact IHa ].
      unfold attribute. account.
Qed.

Lemma delete_data_sources_attempts (self : Self) (kb : knowledge_base_detail)
    (created : list data_source_detail) (ds : data_source_detail) :
  knowledge_base self = Some kb -> In ds created ->
  attempts (DeleteDataSource (dataSourceId ds) (knowledgeBaseId kb))
    (delete_data_sources perform self created).
Proof.
  intros Hkb.
  induction created as [ | d rest IH]; intros Hin; [ contradiction | ].
  cbn [delete_data_sources]. destruct Hin as [-> | Hin].
  - apply attempts_bind_first, attempts_try. rewrite Hkb. cbn [attribute].
    unfold attempts. intros w. unfold bind, ret, invoke. cbn.
    destruct (perform _ w) as [[r | e] w']; now left.
  - apply attempts_bind_next; [ | intros _; now apply IH ].
    apply unfailing_try; [ unfold attribute; halt | ].
    intros e. destruct (is_ResourceNotFoundException e); apply unfailing_say.
Qed.

Lemma delete_entity_returns (self : Self) :
  unfailing (delete_entity perform self) /\
  accountable (delete_entity perform self).
Proof.
  unfold delete_entity. split.
  - apply unfailing_try.
    + unfold attribute. halt.
      apply unfailing_halting, delete_data_sources_returns.
    + intros e. destruct (is_ResourceNotFoundException e); apply unfailing_say.
  - apply accountable_try; [ | printing_handler ].
    unfold attribute. account. apply delete_data_sources_returns.
Qed.

Lemma delete_buckets_returns (names : list string) :
  unfailing (delete_buckets perform names) /\
  accountable (delete_buckets perform names).
Proof.
  induction names as [ | b rest [IHu IHa]]; cbn [delete_buckets].
  - split; [ apply unfailing_ret | apply accountable_ret ].
  - unfold delete_one_bucket. split.
    + apply unfailing_bind; [ | intros _; exact IHu ].
      apply unfailing_try; [ halt | intros e; apply unfailing_say ].
    + apply accountable_bind; [ | intros _; exact IHa ].
      account.
Qed.

Lemma delete_s3_returns (self : Attributes) :
  unfailing (delete_s3 perform self) /\ accountable (delete_s3 perform self).
Proof.
  unfold delete_s3. split.
  - apply unfailing_bind;
      [ apply delete_buckets_returns | intros _; apply unfailing_say ].
  - apply accountable_bind;
      [ apply delete_buckets_returns | intros _; apply accountable_say ].
Qed.

Lemma delete_cloudwatch_log_group_returns (self : Attributes) :
  unfailing (delete_cloudwatch_log_group perform self) /\
  accountable (delete_cloudwatch_log_group perform self).
Proof.
  unfold delete_cloudwatch_log_group. split.
  - apply unfailing_try; [ halt | ].
    intros e. destruct (is_ResourceNotFoundException e); apply unfailing_say.
  - account.
Qed.

Lemma delete_lambda_block_returns (self : Self) :
  unfailing (delete_lambda_block perform self) /\
  accountable (delete_lambda_block perform self).
Proof.
  unfold delete_lambda_block, delete_lambda_function, required. split.
  - apply unfailing_try_body.
    apply unfailing_bind; [ | intros _; apply unfailing_say ].
    apply unfailing_try; [ halt | intros e; apply unfailing_say ].
  - apply accountable_try.
    + account.
    + intros e. split; [ account | ].
      destruct (is_ResourceNotFoundException e);
        [ left; apply announcing_say | right; now exists e ].
Qed.

Lemma delete_index_returns (self : Self) :
  unfailing (delete_index perform self) /\
  accountable (delete_index perform self).
Proof.
  unfold delete_index, attribute, required. split.
  - destruct (String.eqb _ _);
      (apply unfailing_try; [ halt | intros e; apply unfailing_say ]).
  - account.
Qed.

Lemma roles_found_absent_app (t1 t2 : list event) :
  roles_found_absent (t1 ++ t2) ->
  roles_found_absent t1 /\ roles_found_absent t2.
Proof.
  intros H. split; intros r rep Hin; apply (H r rep), in_or_app; auto.
Qed.

Lemma tolerant_lift {A : Type} (m : M A) :
  unfailing m -> accountable m -> tolerant m.
Proof.
  intros Hu Ha w _. specialize (Ha w). destruct (Hu w) as [a Hout].
  rewrite Hout in Ha. split; [ now exists a | exact Ha ].
Qed.

Lemma tolerant_bind {A B : Type} (m : M A) (k : A -> M B) :
  tolerant m -> (forall a, tolerant (k a)) -> tolerant (bind m k).
Proof.
  intros Hm Hk w. rewrite trace_bind, outcome_bind. intros Habsent.
  apply roles_found_absent_app in Habsent. destruct Habsent as [H1 H2].
  destruct (Hm w H1) as [[a Hout] Hrep]. rewrite Hout in *.
  destruct (Hk a _ H2) as [Hok Hrep2].
  split; [ exact Hok | now apply reported_app_strict ].
Qed.

Lemma attempts_when_absent_lift {A : Type} (c : call) (m : M A) :
  attempts c m -> attempts_when_absent c m.
Proof. intros H w _. apply H. Qed.

Lemma attempts_when_absent_first {A B : Type} (c : call) (m : M A)
    (k : A -> M B) :
  attempts_when_absent c m -> attempts_when_absent c (bind m k).
Proof.
  intros Hm w. rewrite trace_bind, calls_app. intros Habsent.
  apply roles_found_absent_app in Habsent.
  apply in_or_app. left. now apply Hm.
Qed.

Lemma attempts_when_absent_next {A B : Type} (c : call) (m : M A)
    (k : A -> M B) :
  tolerant m -> (forall a, attempts_when_absent c (k a)) ->
  attempts_when_absent c (bind m k).
Proof.
  intros Hm Hk w. rewrite trace_bind, calls_app. intros Habsent.
  apply roles_found_absent_app in Habsent. destruct Habsent as [H1 H2].
  destruct (Hm w H1) as [[a Hout] _]. rewrite Hout in *.
  apply in_or_app. right. now apply Hk.
Qed.

(** The loop body for a role that is found absent. *)
Lemma delete_one_role_absent (role_name : string) (w : World) :
  roles_found_absent (trace (delete_one_role perform role_name w)) ->
  exists e w',
    delete_one_role perform role_name w =
    (Ok tt, w',
     [ Printed ("Found role " ++ role_name);
       Called (GetRole role_name) (Raises e);
       Printed ("Role " ++ role_name ++ " does not exist") ]).
Proof.
  intros Habsent.
  assert (Hreply : exists e,
             fst (perform (GetRole role_name) w) = Raises e /\
             is_NoSuchEntityException e = true).
  { apply (Habsent role_name). unfold delete_one_role.
    rewrite trace_bind. cbn [say trace outcome fst snd final].
    rewrite trace_bind. apply in_or_app. right. apply in_or_app. left.
    unfold try_, bind, invoke, ret, trace.
    destruct (perform (GetRole role_name) w) as [[x | e] w']; cbn;
      [ now left | ].
    destruct (is_NoSuchEntityException e); cbn; now left. }
  destruct Hreply as (e & Hreply & Hcode).
  exists e, (snd (perform (GetRole role_name) w)).
  unfold delete_one_role, bind, try_, say, invoke, ret.
  destruct (perform (GetRole role_name) w) as [r w']. cbn in Hreply.
  subst r. cbn. rewrite Hcode. reflexivity.
Qed.

Lemma tolerant_delete_roles (role_names : list string) :
  tolerant (delete_roles perform role_names) /\
  (forall r, In r role_names ->
             attempts_when_absent (GetRole r)
               (delete_roles perform role_names)).
Proof.
  assert (Hone : forall r,
             tolerant (delete_one_role perform r) /\
             attempts_when_absent (GetRole r) (delete_one_role perform r)).
  { intros r. split; intros w Habsent;
      destruct (delete_one_role_absent _ _ Habsent) as (e & w' & ->).
    - split; [ now exists tt | reflexivity ].
    - cbn. now left. }
  induction role_names as [ | r1 rest [IHt IHg]]; cbn [delete_roles].
  - split; [ | intros r [] ].
    apply tolerant_lift; [ apply unfailing_ret | apply accountable_ret ].
  - split.
    + apply tolerant_bind; [ apply Hone | intros _; exact IHt ].
    + intros r [<- | Hr].
      * apply attempts_when_absent_first, Hone.
      * apply attempts_when_absent_next;
          [ apply Hone | intros _; now apply IHg ].
Qed.


Lemma tolerant_delete_kb (self : Self) (s3 iam lam : bool) :
  tolerant (delete_kb perform self s3 iam lam).
Proof.
  unfold delete_kb.
  apply tolerant_bind;
    [ apply tolerant_lift; apply delete_entity_returns | intros _ ].
  apply tolerant_bind; [ | intros _ ].
  { destruct s3;
      apply tolerant_lift;
      first [ apply delete_s3_returns | apply unfailing_ret
            | apply accountable_ret ]. }
  apply tolerant_bind;
    [ apply tolerant_lift; apply delete_cloudwatch_log_group_returns
    | intros _ ].
  apply tolerant_bind; [ | intros _ ].
  { destruct iam;
      [ | apply tolerant_lift; [ apply unfailing_ret | apply accountable_ret ] ].
    unfold delete_iam_roles_and_policies.
    apply tolerant_bind; [ apply tolerant_delete_roles | intros _ ].
    apply tolerant_lift; [ apply unfailing_say | apply accountable_say ]. }
  apply tolerant_bind; [ | intros _ ].
  { destruct lam;
      apply tolerant_lift;
      first [ apply delete_lambda_block_returns | apply unfailing_ret
            | apply accountable_ret ]. }
  apply tolerant_lift; apply delete_index_returns.
Qed.

(** The calls that each block of [delete_kb] makes whatever the replies. *)
Lemma delete_entity_attempts (self : Self) (kb : knowledge_base_detail)
    (created : list data_source_detail) :
  knowledge_base self = Some kb -> data_source self = Some created ->
  (forall ds, In ds created ->
     attempts (DeleteDataSource (dataSourceId ds) (knowledgeBaseId kb))
       (delete_entity perform self)) /\
  attempts (DeleteKnowledgeBase (knowledgeBaseId kb))
    (delete_entity perform self).
Proof.
  intros Hkb Hds. unfold delete_entity. rewrite Hds, Hkb. cbn [attribute].
  split.
  - intros ds Hin. apply attempts_try, attempts_bind_ret.
    apply attempts_bind_first.
    now apply delete_data_sources_attempts.
  - apply attempts_try, attempts_bind_ret.
    apply attempts_bind_next;
      [ apply delete_data_sources_returns | intros _ ].
    apply attempts_bind_ret, attempts_bind_first, attempts_invoke.
Qed.

Lemma delete_cloudwatch_log_group_attempts (self : Attributes) :
  attempts (DeleteLogGroup (log_group_name self))
    (delete_cloudwatch_log_group perform self).
Proof.
  unfold delete_cloudwatch_log_group.
  apply attempts_try, attempts_bind_first, attempts_invoke.
Qed.

Lemma delete_lambda_block_attempts (self : Self) (f : string) :
  lambda_function_name self = Some f ->
  attempts (DeleteFunction f) (delete_lambda_block perform self).
Proof.
  intros Hf. unfold delete_lambda_block, delete_lambda_function.
  rewrite Hf. cbn [required].
  apply attempts_try, attempts_bind_first, attempts_try.
  apply attempts_bind_ret, attempts_bind_first, attempts_invoke.
Qed.

Lemma delete_index_attempts (self : Self) (id : string) :
  (vector_store self = "OPENSEARCH_SERVERLESS" ->
   collection_id self = Some id ->
   attempts (DeleteCollection id) (delete_index perform self)) /\
  (vector_store self <> "OPENSEARCH_SERVERLESS" ->
   graph_id self = Some id ->
   attempts (UpdateGraph id false) (delete_index perform self)).
Proof.
  unfold delete_index. split.
  - intros Hvs Hid. apply String.eqb_eq in Hvs. rewrite Hvs, Hid.
    cbn [attribute].
    apply attempts_try, attempts_bind_ret, attempts_bind_first,
      attempts_invoke.
  - intros Hneq Hid. apply String.eqb_neq in Hneq. rewrite Hneq, Hid.
    cbn [required].
    apply attempts_try, attempts_bind_ret, attempts_bind_first,
      attempts_invoke.
Qed.



(** ** Ingestion *)

Lemma next_call_app (follow : option call) (t1 t2 : list event) :
  next_call follow (t1 ++ t2) = next_call (next_call follow t2) t1.
Proof.
  induction t1 as [ | [c r | line] t1 IH]; cbn; auto.
Qed.

Lemma polled_to_end_app (follow : option call) (t1 t2 : list event) :
  polled_to_end (next_call follow t2) t1 = true ->
  polled_to_end follow t2 = true ->
  polled_to_end follow (t1 ++ t2) = true.
Proof.
  intros H1 H2. induction t1 as [ | [c r | line] t1 IH]; cbn in *; auto.
  apply andb_true_iff in H1. destruct H1 as [Hc H1].
  rewrite next_call_app, Hc. cbn. now apply IH.
Qed.



Lemma poll_ingestion_job_calls (fuel : nat) (kb_id ds_id : string)
    (job : ingestion_job) :
  confined (fun c => negb (is_start_ingestion_job c))
    (poll_ingestion_job perform fuel kb_id ds_id job) /\
  accountable (poll_ingestion_job perform fuel kb_id ds_id job).
Proof.
  revert job. induction fuel as [ | fuel IH]; intros job;
    cbn [poll_ingestion_job];
    (destruct (negb _); [ | split; [ apply confined_ret
                                   | apply accountable_ret ] ]).
  - split; intros w; reflexivity.
  - split.
    + apply confined_bind; [ apply confined_invoke; reflexivity | intros r ].
      apply confined_bind; [ destruct r; confine | intros j; apply IH ].
    + apply accountable_bind; [ apply accountable_invoke | intros r ].
      apply accountable_bind; [ destruct r; account | intros j; apply IH ].
Qed.

Section Progress.

(** A provider on which ingestion jobs progress: [remaining] bounds the
    number of polls that still report a job in progress; it is at most
    [bound] after a job has been started, and decreases with every poll that
    does not report a terminal status. *)
Variable remaining : World -> nat.
Variable bound : nat.

Hypothesis start_bounded :
  forall w kb_id ds_id r w',
    perform (StartIngestionJob kb_id ds_id) w = (Returns r, w') ->
    remaining w' <= bound.

Hypothesis poll_progresses :
  forall w kb_id ds_id job_id j w',
    perform (GetIngestionJob kb_id ds_id job_id) w
      = (Returns (IngestionJobResponse j), w') ->
    str_in (status j) terminal_statuses = true \/ remaining w' < remaining w.

Lemma poll_ingestion_job_run (fuel : nat) (kb_id ds_id : string)
    (job : ingestion_job) (w : World) (c : call) (follow : option call) :
  job_reply c (Returns (IngestionJobResponse job)) = Some (kb_id, ds_id, job) ->
  may_follow follow ->
  str_in (status job) terminal_statuses = true \/ remaining w < fuel ->
  let run := poll_ingestion_job perform fuel kb_id ds_id job w in
  outcome run <> Diverge /\
  polled_to_end follow
    (Called c (Returns (IngestionJobResponse job)) :: trace run) = true.
Proof.
  revert job w c. induction fuel as [ | fuel IH]; intros job w c Hc Hf Hfuel;
    cbn [poll_ingestion_job polled_to_end]; rewrite Hc;
    destruct (str_in (status job) terminal_statuses) eqn:Hterm; cbn [negb].
  - cbn. unfold follows_job. rewrite Hterm.
    split; [ discriminate | ]. destruct follow; cbn in *; now rewrite ?Hf.
  - destruct Hfuel as [[=] | Hlt]. lia.
  - cbn. unfold follows_job. rewrite Hterm.
    split; [ discriminate | ]. destruct follow; cbn in *; now rewrite ?Hf.
  - destruct Hfuel as [[=] | Hlt].
    assert (Hnext : follows_job kb_id ds_id job
                      (Some (GetIngestionJob kb_id ds_id (ingestionJobId job)))
                    = true)
      by (unfold follows_job; now rewrite Hterm, !String.eqb_refl).
    unfold bind, invoke, ingestion_job_of.
    destruct (perform (GetIngestionJob kb_id ds_id (ingestionJobId job)) w)
      as [[r | e] w'] eqn:Hp;
      [ destruct r | ]; cbn; rewrite ?Hnext;
      try (split; [ discriminate | reflexivity ]).
    destruct (IH job0 w' (GetIngestionJob kb_id ds_id (ingestionJobId job))
                eq_refl Hf) as [Hhalt Hpoll].
    { destruct (poll_progresses _ _ _ _ _ _ Hp) as [Ht | Hdec];
        [ now left | right; lia ]. }
    cbn [polled_to_end job_reply] in Hpoll.
    destruct (poll_ingestion_job perform fuel kb_id ds_id job0 w')
      as [[ro wo] to].
    cbn in *. rewrite Hnext. split; [ exact Hhalt | exact Hpoll ].
Qed.



Lemma filter_none {A : Type} (p : A -> bool) (l : list A) :
  forallb (fun x => negb (p x)) l = true -> filter p l = [].
Proof.
  induction l as [ | x l IH]; cbn; [ reflexivity | ].
  intros H. apply andb_true_iff in H. destruct H as [Hx H].
  apply negb_true_iff in Hx. rewrite Hx. now apply IH.
Qed.

Lemma printed_suffix (follow : option call) (t ps : list event) :
  calls ps = [] ->
  calls (t ++ ps) = calls t /\
  next_call follow (t ++ ps) = next_call follow t /\
  polled_to_end follow (t ++ ps) = polled_to_end follow t.
Proof.
  intros Hps.
  assert (Hnext : forall f, next_call f ps = f).
  { induction ps as [ | [c r | l] ps IH]; intros f; cbn in *;
      [ reflexivity | discriminate | now apply IH ]. }
  assert (Hpolled : polled_to_end follow ps = true).
  { induction ps as [ | [c r | l] ps IH]; cbn in *;
      [ reflexivity | discriminate | ].
    apply IH; [ exact Hps | ]. intros f. apply (Hnext f). }
  split; [ | split ].
  - now rewrite calls_app, Hps, app_nil_r.
  - now rewrite next_call_app, Hnext.
  - induction t as [ | [c r | l] t IH]; cbn; auto.
    now rewrite next_call_app, Hnext, IH.
Qed.

Lemma ingest_guarded_accountable (fuel : nat) (self : Self) (idx : nat) :
  accountable (ingest_guarded perform fuel self idx).
Proof.
  unfold ingest_guarded, ingest_one, attribute, ingestion_job_of.
  apply accountable_try.
  - account. apply poll_ingestion_job_calls.
  - intros e. split; [ account | left; apply announcing_bind_say ].
Qed.

Lemma ingest_guarded_run (fuel : nat) (self : Self) (idx : nat) (w : World)
    (kb : knowledge_base_detail) (created : list data_source_detail)
    (ds : data_source_detail) (follow : option call) :
  knowledge_base self = Some kb -> data_source self = Some created ->
  nth_error created idx = Some ds ->
  bound < fuel -> may_follow follow ->
  let run := ingest_guarded perform fuel self idx w in
  outcome run = Ok tt /\
  starts (trace run)
    = [StartIngestionJob (knowledgeBaseId kb) (dataSourceId ds)] /\
  polled_to_end follow (trace run) = true /\
  next_call follow (trace run)
    = Some (StartIngestionJob (knowledgeBaseId kb) (dataSourceId ds)).
Proof.
  intros Hkb Hds Hnth Hfuel Hfollow.
  unfold ingest_guarded, ingest_one. rewrite Hkb, Hds.
  unfold try_, bind, attribute, ret, invoke, say, ingestion_job_of, starts.
  cbn. rewrite Hnth.
  destruct (perform (StartIngestionJob _ _) w) as [[r | e] w'] eqn:Hs;
    [ destruct r | ]; cbn; try (repeat split; reflexivity).
  pose proof (start_bounded _ _ _ _ _ Hs) as Hb.
  destruct (poll_ingestion_job_run fuel (knowledgeBaseId kb) (dataSourceId ds)
              job w'
              (StartIngestionJob (knowledgeBaseId kb) (dataSourceId ds))
              follow eq_refl Hfollow)
    as [Hhalt Hpoll]; [ right; lia | ].
  pose proof (proj1 (poll_ingestion_job_calls fuel (knowledgeBaseId kb)
                       (dataSourceId ds) job) w') as Hcalls.
  cbn [polled_to_end job_reply] in Hpoll.
  destruct (poll_ingestion_job perform fuel _ _ job w') as [[ro wo] to].
  cbn in Hhalt, Hpoll, Hcalls.
  destruct ro as [j | e | ]; [ | | contradiction ]; cbn;
    match goal with
    | |- context [(to ++ ?ps)%list] =>
        destruct (printed_suffix follow to ps eq_refl) as (-> & -> & ->)
    end;
    rewrite (filter_none _ _ Hcalls); auto.
Qed.



Lemma skipn_cons {A : Type} (idx : nat) (l : list A) (x : A) (xs : list A) :
  skipn idx l = x :: xs -> nth_error l idx = Some x /\ skipn (S idx) l = xs.
Proof.
  revert l. induction idx as [ | idx IH]; intros [ | y l]; cbn;
    try discriminate.
  - now intros [= -> ->].
  - intros H. destruct (IH l H) as [Hn Hs]. split; [ exact Hn | exact Hs ].
Qed.

Lemma starts_app (t1 t2 : list event) :
  starts (t1 ++ t2) = (starts t1 ++ starts t2)%list.
Proof. unfold starts. now rewrite calls_app, filter_app. Qed.

Lemma ingest_from_run (fuel : nat) (self : Self)
    (kb : knowledge_base_detail) (created : list data_source_detail) :
  knowledge_base self = Some kb -> data_source self = Some created ->
  bound < fuel ->
  forall (todo : list descriptor) (idx : nat)
         (rest : list data_source_detail) (w : World),
    skipn idx created = rest -> length rest = length todo ->
    let run := ingest_from perform fuel self idx todo w in
    outcome run = Ok tt /\
    starts (trace run)
      = map (fun ds => StartIngestionJob (knowledgeBaseId kb) (dataSourceId ds))
          rest /\
    polled_to_end None (trace run) = true /\
    reported true (trace run) = true /\
    may_follow (next_call None (trace run)).
Proof.
  intros Hkb Hds Hfuel todo.
  induction todo as [ | d todo IH]; intros idx rest w Hskip Hlen;
    cbn [ingest_from].
  - destruct rest; [ | discriminate ]. cbn. auto.
  - destruct rest as [ | ds rest]; [ discriminate | ].
    destruct (skipn_cons _ _ _ _ Hskip) as [Hnth Hskip'].
    injection Hlen as Hlen.
    cbv zeta. rewrite outcome_bind, trace_bind.
    set (first := ingest_guarded perform fuel self idx w).
    destruct (IH (S idx) rest (final first) Hskip' Hlen)
      as (Hout & Hstarts & Hpolled & Hrep & Hnext).
    cbv zeta in Hout, Hstarts, Hpolled, Hrep, Hnext.
    destruct (ingest_guarded_run fuel self idx w kb created ds
                (next_call None
                   (trace (ingest_from perform fuel self (S idx) todo
                             (final first))))
                Hkb Hds Hnth Hfuel Hnext)
      as (Hout1 & Hstarts1 & Hpolled1 & Hnext1).
    fold first in Hout1, Hstarts1, Hpolled1, Hnext1.
    pose proof (ingest_guarded_accountable fuel self idx w) as Hrep1.
    fold first in Hrep1. rewrite Hout1 in Hrep1 |- *. cbn [is_ok] in Hrep1.
    repeat split.
    + exact Hout.
    + rewrite starts_app, Hstarts1, Hstarts. reflexivity.
    + now apply polled_to_end_app.
    + now apply reported_app_strict.
    + rewrite next_call_app, Hnext1. reflexivity.
Qed.

End Progress.

Lemma ingest_from_never_raises (fuel : nat) (self : Self) (idx : nat)
    (todo : list descriptor) (w : World) (e : exn) :
  outcome (ingest_from perform fuel self idx todo w) <> Raise e.
Proof.
  revert idx w. induction todo as [ | d todo IH]; intros idx w;
    cbn [ingest_from]; [ discriminate | ].
  rewrite outcome_bind. unfold ingest_guarded at 1. rewrite outcome_try.
  destruct (outcome (ingest_one perform fuel self idx w)) as [[] | e' | ];
    [ apply IH | | discriminate ].
  unfold ingest_guarded. rewrite final_try.
  destruct (outcome (ingest_one perform fuel self idx w));
    cbn; apply IH.
Qed.

(** C9.  [start_ingestion_job] never raises: whatever fails in the ingestion
    of one data source is caught, and is reported.  On a provider whose jobs
    progress, and with the corresponding patience, it returns, having
    started one job per data source, in order, whatever the earlier ones met;
    every job is polled until its status is [COMPLETE], [FAILED] or
    [STOPPED] and no longer; and every failed call is followed by a printed
    report. *)
Theorem ingestion_isolates_failures :
  (forall (fuel : nat) (self : Self) (w : World) (e : exn),
     outcome (start_ingestion_job perform fuel self w) <> Raise e) /\
  (forall (remaining : World -> nat) (bound : nat),
     (forall w kb_id ds_id r w',
        perform (StartIngestionJob kb_id ds_id) w = (Returns r, w') ->
        remaining w' <= bound) ->
     (forall w kb_id ds_id job_id j w',
        perform (GetIngestionJob kb_id ds_id job_id) w
          = (Returns (IngestionJobResponse j), w') ->
        str_in (status j) terminal_statuses = true \/
        remaining w' < remaining w) ->
     forall (fuel : nat) (self : Self) (w : World)
            (kb : knowledge_base_detail) (created : list data_source_detail),
       knowledge_base self = Some kb -> data_source self = Some created ->
       length created = length (data_sources self) ->
       bound < fuel ->
       let run := start_ingestion_job perform fuel self w in
       outcome run = Ok tt /\
       starts (trace run)
         = map (fun ds =>
                  StartIngestionJob (knowledgeBaseId kb) (dataSourceId ds))
             created /\
       polled_to_end None (trace run) = true /\
       reported true (trace run) = true).
Proof.
  split.
  - intros fuel self w e. apply ingest_from_never_raises.
  - intros remaining bound Hstart Hpoll fuel self w kb created Hkb Hds Hlen
      Hfuel.
    destruct (ingest_from_run remaining bound Hstart Hpoll fuel self kb created
                Hkb Hds Hfuel (data_sources self) 0 created w eq_refl Hlen)
      as (Hout & Hstarts & Hpolled & Hrep & _).
    unfold start_ingestion_job. auto.
Qed.


(** ** Adoption of an existing knowledge base and of its connectors *)

Lemma bind_returns {A B : Type} (m : M A) (k : A -> M B) (w : World) (b : B) :
  outcome (bind m k w) = Ok b ->
  exists a,
    outcome (m w) = Ok a /\
    outcome (k a (final (m w))) = Ok b /\
    trace (bind m k w) = (trace (m w) ++ trace (k a (final (m w))))%list.
Proof.
  rewrite outcome_bind, trace_bind.
  destruct (outcome (m w)) as [a | e | ]; [ | discriminate | discriminate ].
  intros H. now exists a.
Qed.

Lemma try_returns {A : Type} (m : M A) (h : exn -> M A) (w : World) (a : A) :
  outcome (try_ m h w) = Ok a ->
  (outcome (m w) = Ok a /\ trace (try_ m h w) = trace (m w)) \/
  (exists e,
     outcome (m w) = Raise e /\
     outcome (h e (final (m w))) = Ok a /\
     trace (try_ m h w) = (trace (m w) ++ trace (h e (final (m w))))%list).
Proof.
  rewrite outcome_try, trace_try.
  destruct (outcome (m w)) as [a' | e | ]; [ | | discriminate ].
  - intros [= ->]. left. now rewrite app_nil_r.
  - intros H. right. now exists e.
Qed.

Lemma invoke_returns (c : call) (w : World) (x : response) :
  outcome (invoke perform c w) = Ok x ->
  In (Called c (Returns x)) (trace (invoke perform c w)).
Proof.
  unfold invoke. destruct (perform c w) as [[r | e] w']; cbn;
    [ intros [= ->]; now left | discriminate ].
Qed.

(** A loop over a non-empty list of descriptors returns only after a
    [create_data_source] call that returned. *)
Lemma create_data_sources_loop_returns (self : Self) (kb_id : string)
    (descriptors : list descriptor)
    (previous : option string * option data_source_configuration)
    (ds_list l : list data_source_detail) (w : World) :
  descriptors <> [] ->
  outcome (create_data_sources_loop perform self kb_id descriptors previous
             ds_list w) = Ok l ->
  exists c x,
    is_create_data_source c = true /\
    In (Called c (Returns x))
      (trace (create_data_sources_loop perform self kb_id descriptors
                previous ds_list w)).
Proof.
  destruct descriptors as [ | d rest]; [ contradiction | intros _ ].
  cbn [create_data_sources_loop]. cbv zeta. intros Hok.
  repeat match type of Hok with
         | outcome (bind _ _ _) = Ok _ =>
             let a := fresh "a" in
             let Hm := fresh "Hm" in
             let Ht := fresh "Ht" in
             apply bind_returns in Hok;
             destruct Hok as (a & Hm & Hok & Ht); rewrite Ht; clear Ht
         end.
  match goal with
  | H : outcome (invoke perform ?c _) = Ok ?x |- _ =>
      exists c, x; split; [ reflexivity | ];
      repeat (apply in_or_app;
              first [ left; apply invoke_returns; exact H | right ])
  end.
Qed.


Ltac find_in H :=
  first [ exact H
        | apply in_or_app; first [ left; find_in H | right; find_in H ] ].

Ltac unbind H :=
  repeat match type of H with
         | outcome (bind _ _ _) = Ok _ =>
             let a := fresh "a" in
             let Hm := fresh "Hm" in
             let Ht := fresh "Ht" in
             apply bind_returns in H;
             destruct H as (a & Hm & H & Ht); rewrite ?Ht; clear Ht;
             cbv beta in H
         | outcome ((let '(_, _) := ?p in _) _) = Ok _ =>
             is_var p; destruct p; cbv beta iota in H
         end.

(** The body of [create_knowledge_base] returns only after a
    [create_data_source] call that returned: the handler of the conflict
    leaves [ds_list] unassigned. *)
Lemma create_knowledge_base_body_returns (self : Self) (w : World)
    (r : knowledge_base_detail * list data_source_detail) :
  data_sources self <> [] ->
  outcome (create_knowledge_base_body perform self w) = Ok r ->
  exists c x,
    is_create_data_source c = true /\
    In (Called c (Returns x))
      (trace (create_knowledge_base_body perform self w)).
Proof.
  intros Hne Hok. unfold create_knowledge_base_body in *. cbv zeta in *.
  unbind Hok.
  match goal with
  | H : outcome (try_ (bind (create_data_sources _ _ _ _) _) _ ?w0) = Ok ?o
    |- _ => rename H into Htry; set (w1 := w0) in *
  end.
  apply try_returns in Htry. destruct Htry as [[Hbody Ht] | (e & _ & Hh & _)].
  - rewrite Ht. apply bind_returns in Hbody.
    destruct Hbody as (l & Hloop & _ & Ht'). rewrite Ht'.
    unfold create_data_sources in *.
    destruct (create_data_sources_loop_returns _ _ _ _ _ _ _ Hne Hloop)
      as (c & x & Hc & Hin).
    exists c, x. split; [ exact Hc | ].
    find_in Hin.
  - exfalso.
    destruct (is_ConflictException e); [ | discriminate Hh ].
    unbind Hh. cbn in Hh. injection Hh as <-.
    match goal with
    | H : outcome (local "ds_list" None _) = Ok _ |- _ => discriminate H
    end.
Qed.

Lemma retrying_returns {A : Type} (n : nat) (body : M A) (w : World)
    (a : A) :
  outcome (retrying n body w) = Ok a ->
  exists w',
    outcome (body w') = Ok a /\
    forall ev, In ev (trace (body w')) -> In ev (trace (retrying n body w)).
Proof.
  revert w. induction n as [ | n IH]; intros w; cbn [retrying]; intros Hok;
    apply try_returns in Hok;
    destruct Hok as [[Hbody Ht] | (e & Hraise & Hh & Ht)].
  - exists w. split; [ exact Hbody | now rewrite Ht ].
  - discriminate Hh.
  - exists w. split; [ exact Hbody | now rewrite Ht ].
  - destruct (IH _ Hh) as (w' & Hbody & Hsub).
    exists w'. split; [ exact Hbody | ].
    intros ev Hev. rewrite Ht. apply in_or_app. right. now apply Hsub.
Qed.

(** C2 (the code at fault).  When the connectors exist already -- every
    [create_data_source] call of the run is answered with
    [ConflictException] -- [create_knowledge_base] does not return: the
    handler lists and fetches a data source, but the function then reads
    [ds_list], which only the creation assigns, and every attempt of the
    retry decorator ends the same way. *)
Theorem connector_conflict_is_not_adopted (self : Self) (w : World) :
  let run := create_knowledge_base perform self w in
  data_sources self <> [] ->
  connectors_conflict (trace run) ->
  forall r, outcome run <> Ok r.
Proof.
  intros run Hne Hconflict r Hok. subst run.
  unfold create_knowledge_base in *.
  destruct (retrying_returns _ _ _ _ Hok) as (w' & Hbody & Hsub).
  destruct (create_knowledge_base_body_returns self w' r Hne Hbody)
    as (c & x & Hc & Hin).
  destruct (Hconflict c (Returns x) (Hsub _ Hin) Hc) as (e & [=] & _).
Qed.

(** ** The vector index on a second provisioning *)

Lemma create_vector_index_returns (self : Self) (w : World) :
  outcome (create_vector_index perform self w) = Ok tt ->
  exists h index dimension x,
    In (Called (IndicesCreate h index dimension) (Returns x))
      (trace (create_vector_index perform self w)).
Proof.
  intros Hok. unfold create_vector_index in *. unbind Hok.
  apply try_returns in Hok.
  destruct Hok as [[Hbody Ht] | (e & _ & Hh & _)]; [ | discriminate Hh ].
  rewrite Ht. unbind Hbody.
  match goal with
  | H : outcome (invoke perform (IndicesCreate ?h ?i ?d) _) = Ok ?x |- _ =>
      exists h, i, d, x;
      repeat (apply in_or_app;
              first [ left; apply invoke_returns; exact H | right ])
  end.
Qed.

Lemma setup_resources_creates_index (fuel : nat) (self self' : Self)
    (w : World) :
  vector_store self = "OPENSEARCH_SERVERLESS" ->
  outcome (_setup_resources perform fuel self w) = Ok self' ->
  exists h index dimension x,
    In (Called (IndicesCreate h index dimension) (Returns x))
      (trace (_setup_resources perform fuel self w)).
Proof.
  intros Hvs Hok. unfold _setup_resources in *. cbv zeta in *.
  unbind Hok.
  match goal with
  | H : outcome ((if String.eqb ?s ?k then _ else _) _) = Ok _ |- _ =>
      assert (Hb : String.eqb s k = true)
        by (apply String.eqb_eq; exact Hvs);
      rewrite Hb in H; rewrite Hb; rename H into Hindex
  end.
  unbind Hindex.
  match goal with
  | H : outcome (create_vector_index perform ?s ?w0) = Ok ?u |- _ =>
      destruct u;
      destruct (create_vector_index_returns s w0 H) as (h & i & d & x & Hin);
      exists h, i, d, x
  end.
  find_in Hin.
Qed.

Lemma read_attributes_vector_store (args : Args) (w : World)
    (a : Attributes) :
  outcome (read_attributes perform session_region_name args w) = Ok a ->
  vector_store a = arg_vector_store args.
Proof.
  intros Hok. unfold read_attributes in Hok. unbind Hok.
  cbn in Hok. injection Hok as <-. reflexivity.
Qed.

(** C1 (the code at fault).  A construction that finds the vector index
    in place -- every [indices.create] of the run is answered with an
    error, as OpenSearch answers for an index that exists -- does not
    complete: [create_vector_index] catches the [RequestError], prints it and
    raises it again, so that no instance is returned, whatever the buckets,
    the roles, the policies and the collection resolved to before. *)
Theorem existing_index_stops_provisioning
    (fuel : nat) (args : Args) (w : World) :
  let run := __init__ perform session_region_name fuel args w in
  arg_vector_store args = "OPENSEARCH_SERVERLESS" ->
  index_exists (trace run) ->
  forall self, outcome run <> Ok self.
Proof.
  intros run Hvs Hexists self Hok. subst run. unfold __init__ in *.
  apply bind_returns in Hok. destruct Hok as (a & Ha & Hsetup & Ht).
  rewrite Ht in Hexists. clear Ht.
  unfold initial_attributes in Ha. unbind Ha.
  cbn in Ha. injection Ha as <-.
  match goal with
  | H : outcome (read_attributes _ _ _ _) = Ok ?a0 |- _ =>
      pose proof (read_attributes_vector_store _ _ _ H) as Hstore
  end.
  rewrite Hvs in Hstore.
  destruct (setup_resources_creates_index fuel
              {| attrs := a0; res := initial_resources a0 |} self _
              Hstore Hsetup)
    as (h & i & d & x & Hin).
  destruct (Hexists h i d (Returns x)) as (e & [=]).
  apply in_or_app. right. exact Hin.
Qed.

(** ** The dimensions of the embedding model *)

(** C4.  For every embedding model of the allow-list
    [valid_embedding_models], [_get_embedding_dimensions] returns the entry
    of the model in the table [embedding_context_dimensions], calling
    nothing; for a model that the table does not hold it raises a
    [ValueError], and returns no default. *)
Theorem embedding_dimensions_lookup (self : Attributes) (w : World) :
  (In (embedding_model self) valid_embedding_models ->
   exists d,
     dict_get embedding_context_dimensions (embedding_model self) = Some d /\
     _get_embedding_dimensions self w = (Ok d, w, [])) /\
  (dict_get embedding_context_dimensions (embedding_model self) = None ->
   _get_embedding_dimensions self w =
     (Raise (ValueError
               (dimensions_undefined_message (embedding_model self))), w, [])).
Proof.
  split.
  - intros Hin. destruct (allow_list_in_table _ Hin) as [d Hd].
    exists d. split; [ exact Hd | ].
    unfold _get_embedding_dimensions.
    now rewrite (get_embedding_dimensions_of_table _ _ (multi_modal self) Hd).
  - intros Hnone.
    unfold _get_embedding_dimensions, get_embedding_dimensions_of.
    now rewrite Hnone.
Qed.

(** C10.  For an embedding model that the table holds,
    [_get_embedding_dimensions] returns the entry of the table whether the
    multimodal flag is set or not: the branch of the Cohere embed-v4 models
    returns 1024, which is their entry. *)
Theorem dimensions_ignore_multimodal_flag
    (self : Attributes) (d : Z) (w : World) :
  dict_get embedding_context_dimensions (embedding_model self) = Some d ->
  _get_embedding_dimensions self w = (Ok d, w, []) /\
  (forall multi_modal,
     get_embedding_dimensions_of (embedding_model self) multi_modal = inr d) /\
  (str_in (embedding_model self) cohere_v4_models = true -> d = 1024%Z).
Proof.
  intros Hd. split; [ | split ].
  - unfold _get_embedding_dimensions.
    now rewrite (get_embedding_dimensions_of_table _ _ (multi_modal self) Hd).
  - intros mm. exact (get_embedding_dimensions_of_table _ _ mm Hd).
  - intros Hv4.
    pose proof (get_embedding_dimensions_of_table _ _ true Hd) as Hmm.
    unfold get_embedding_dimensions_of in Hmm.
    rewrite Hd, Hv4 in Hmm. cbn in Hmm. now injection Hmm as <-.
Qed.

(** * Further properties of the orchestrator *)

(** ** The calls of the provisioning pipeline *)

Lemma confined_diverge {A : Type} (P : call -> bool) :
  confined P (diverge : M A).
Proof. intros w. reflexivity. Qed.

Ltac confine_code :=
  cbv zeta;
  repeat first
    [ apply confined_diverge
    | progress confine
    | progress unfold attribute, local, required, first, item, item_list,
        role_of, policy_arn_of, collection_details_of, knowledge_base_of,
        data_source_of, ingestion_job_of ].

Section ProvisioningCalls.

Variables oss custom : bool.
Variable dimension : option Z.

Local Abbreviation allowed := (provisioning_call oss custom dimension).

Lemma provisioning_probe_buckets
    (buckets existing : list (option string)) :
  confined allowed (probe_buckets perform buckets existing).
Proof.
  revert existing.
  induction buckets as [ | b rest IH]; intros existing; cbn [probe_buckets].
  - apply confined_ret.
  - apply confined_bind; [ | intros a; apply IH ]. confine_code.
Qed.

Lemma provisioning_create_buckets (self : Attributes)
    (buckets existing : list (option string)) :
  confined allowed (create_buckets perform self buckets existing).
Proof.
  revert existing.
  induction buckets as [ | b rest IH]; intros existing; cbn [create_buckets].
  - apply confined_ret.
  - apply confined_bind; [ | intros a; apply IH ].
    unfold create_one_bucket. confine_code.
Qed.

Lemma provisioning_create_s3_bucket (self : Attributes) :
  confined allowed (create_s3_bucket perform self).
Proof.
  unfold create_s3_bucket. cbv zeta.
  apply confined_bind;
    [ apply provisioning_probe_buckets
    | intros a; apply provisioning_create_buckets ].
Qed.

Lemma provisioning_create_cloudwatch_log_group (self : Attributes) :
  confined allowed (create_cloudwatch_log_group perform self).
Proof. unfold create_cloudwatch_log_group. confine_code. Qed.

Lemma provisioning_configure_log_delivery (self : Attributes)
    (arn : string) :
  confined allowed (configure_log_delivery perform self arn).
Proof. unfold configure_log_delivery. confine_code. Qed.

Lemma provisioning_execution_role_policies (self : Attributes)
    (secrets : list string) :
  confined allowed (execution_role_policies self secrets : M _).
Proof. unfold execution_role_policies. confine_code. Qed.

Lemma provisioning_delete_oldest_non_default (policy_arn : string)
    (versions : list policy_version) :
  confined allowed (delete_oldest_non_default perform policy_arn versions).
Proof.
  induction versions as [ | v rest IH]; cbn [delete_oldest_non_default].
  - apply confined_ret.
  - destruct (negb (IsDefaultVersion v)); [ confine_code | exact IH ].
Qed.

Lemma provisioning_create_and_attach_policies (self : Attributes)
    (execution_role : response)
    (policies : list (string * policy_document)) :
  confined allowed
    (create_and_attach_policies perform self execution_role policies).
Proof.
  induction policies as [ | [name document] rest IH];
    cbn [create_and_attach_policies].
  - apply confined_ret.
  - apply confined_bind; [ | intros _; exact IH ].
    unfold create_and_attach_policy.
    pose proof provisioning_delete_oldest_non_default as Hprune.
    confine_code; apply Hprune.
Qed.

Lemma provisioning_create_bedrock_execution_role_multi_ds
    (self : Attributes) (secrets : list string) :
  confined allowed
    (create_bedrock_execution_role_multi_ds perform self secrets).
Proof.
  unfold create_bedrock_execution_role_multi_ds.
  apply confined_bind;
    [ apply provisioning_execution_role_policies | intros policies ].
  apply confined_bind; [ confine_code | intros r ].
  apply confined_bind;
    [ apply provisioning_create_and_attach_policies
    | intros _; apply confined_ret ].
Qed.

Lemma provisioning_create_data_sources_loop (self : Self) (kb_id : string)
    (descriptors : list descriptor)
    (previous : option string * option data_source_configuration)
    (ds_list : list data_source_detail) :
  confined allowed
    (create_data_sources_loop perform self kb_id descriptors previous
       ds_list).
Proof.
  revert previous ds_list.
  induction descriptors as [ | d rest IH]; intros previous ds_list;
    cbn [create_data_sources_loop].
  - apply confined_ret.
  - pose proof IH as Hrest.
    unfold select_configuration. confine_code; apply Hrest.
Qed.

Lemma confined_retrying {A : Type} (P : call -> bool) (n : nat)
    (body : M A) :
  confined P body -> confined P (retrying n body).
Proof.
  intros Hbody. induction n as [ | n IH]; cbn [retrying];
    (apply confined_try; [ exact Hbody | intros e ]).
  - apply confined_raise.
  - exact IH.
Qed.

Lemma provisioning_create_knowledge_base (self : Self) :
  confined allowed (create_knowledge_base perform self).
Proof.
  unfold create_knowledge_base. apply confined_retrying.
  unfold create_knowledge_base_body, create_data_sources.
  pose proof provisioning_configure_log_delivery as Hlog.
  pose proof provisioning_create_data_sources_loop as Hloop.
  confine_code; first [ apply Hlog | apply Hloop ].
Qed.

End ProvisioningCalls.

Lemma provisioning_create_policies_in_oss (custom : bool)
    (dimension : option Z) (self : Self) :
  confined (provisioning_call true custom dimension)
    (create_policies_in_oss perform self).
Proof. unfold create_policies_in_oss. confine_code. Qed.

Lemma provisioning_wait_collection (custom : bool) (dimension : option Z)
    (fuel : nat) (self : Attributes) (r : response) :
  confined (provisioning_call true custom dimension)
    (wait_collection perform fuel self r).
Proof.
  revert r. induction fuel as [ | fuel IH]; intros r; cbn [wait_collection].
  - confine_code.
  - pose proof IH as Hwait. confine_code. apply Hwait.
Qed.

Lemma provisioning_create_oss (custom : bool) (dimension : option Z)
    (fuel : nat) (self : Self) :
  confined (provisioning_call true custom dimension)
    (create_oss perform fuel self).
Proof.
  unfold create_oss, create_oss_policy_attach_bedrock_execution_role.
  pose proof (provisioning_wait_collection custom dimension) as Hwait.
  confine_code; apply Hwait.
Qed.

Lemma provisioning_create_vector_index (custom : bool) (self : Self) :
  confined
    (provisioning_call true custom
       (dimension_of (embedding_model self) (multi_modal self)))
    (create_vector_index perform self).
Proof.
  unfold create_vector_index, _get_embedding_dimensions, dimension_of.
  destruct (get_embedding_dimensions_of _ _) as [e | d];
    [ confine_code | ].
  apply confined_bind_ret. confine_code.
  apply confined_invoke. cbn. apply Z.eqb_refl.
Qed.

Lemma provisioning_wait_graph (custom : bool) (dimension : option Z)
    (fuel : nat) (graph_id : string) :
  confined (provisioning_call false custom dimension)
    (wait_graph perform fuel graph_id).
Proof.
  induction fuel as [ | fuel IH]; cbn [wait_graph].
  - confine_code.
  - pose proof IH as Hwait. confine_code. apply Hwait.
Qed.

Lemma provisioning_create_neptune (custom : bool) (fuel : nat)
    (self : Attributes) :
  confined
    (provisioning_call false custom
       (dimension_of (embedding_model self) (multi_modal self)))
    (create_neptune perform fuel self).
Proof.
  unfold create_neptune, _get_embedding_dimensions, dimension_of.
  destruct (get_embedding_dimensions_of _ _) as [e | d];
    [ confine_code | ].
  apply confined_bind_ret.
  apply confined_bind;
    [ apply confined_invoke; cbn; apply Z.eqb_refl | intros r ].
  pose proof (provisioning_wait_graph custom (Some d) fuel) as Hwait.
  confine_code. apply Hwait.
Qed.

Lemma provisioning_create_lambda (oss : bool) (dimension : option Z)
    (self : Self) :
  confined (provisioning_call oss true dimension)
    (create_lambda perform self).
Proof. unfold create_lambda, create_lambda_role. confine_code. Qed.

Lemma provisioning_get_embedding_dimensions (P : call -> bool)
    (self : Attributes) :
  confined P (_get_embedding_dimensions self : M Z).
Proof.
  unfold _get_embedding_dimensions.
  destruct (get_embedding_dimensions_of _ _); confine_code.
Qed.

Lemma confined_bind_post {A B : Type} (P : call -> bool) (Q : A -> Prop)
    (m : M A) (k : A -> M B) :
  confined P m ->
  (forall w a, outcome (m w) = Ok a -> Q a) ->
  (forall a, Q a -> confined P (k a)) ->
  confined P (bind m k).
Proof.
  intros Hm Hpost Hk w. rewrite trace_bind, calls_app, forallb_app, Hm.
  destruct (outcome (m w)) as [a | e | ] eqn:Hout;
    [ apply Hk, (Hpost w), Hout | reflexivity | reflexivity ].
Qed.

(** The provisioning steps leave the attributes that [__init__] assigned
    as they are. *)
Lemma create_lambda_attrs (self self' : Self) (r : response) (w : World) :
  outcome (create_lambda perform self w) = Ok (r, self') ->
  attrs self' = attrs self.
Proof.
  unfold create_lambda. intros Hok. unbind Hok.
  cbn in Hok. injection Hok as _ <-. reflexivity.
Qed.

(** The calls of [_setup_resources], by the vector store, the chunking
    strategy and the embedding model of the instance. *)
Lemma provisioning_setup_resources (fuel : nat) (self : Self) :
  confined
    (provisioning_call
       (String.eqb (vector_store self) "OPENSEARCH_SERVERLESS")
       (is_custom self)
       (dimension_of (embedding_model self) (multi_modal self)))
    (_setup_resources perform fuel self).
Proof.
  unfold _setup_resources. cbv zeta.
  apply confined_bind; [ apply provisioning_create_s3_bucket | intros _ ].
  apply confined_bind;
    [ apply provisioning_create_cloudwatch_log_group | intros _ ].
  apply confined_bind;
    [ apply provisioning_create_bedrock_execution_role_multi_ds | intros r0 ].
  apply confined_bind; [ confine_code | intros r ].
  set (self1 := set_bedrock_kb_execution_role r self).
  change (vector_store self) with (vector_store self1).
  change (is_custom self) with (is_custom self1).
  change (embedding_model self) with (embedding_model self1).
  change (multi_modal self) with (multi_modal self1).
  clearbody self1.
  apply (confined_bind_post _ (fun s : Self => attrs s = attrs self1)).
  - destruct (String.eqb (vector_store self1) "OPENSEARCH_SERVERLESS").
    + apply confined_bind;
        [ apply provisioning_create_policies_in_oss | intros _ ].
      apply confined_bind; [ apply provisioning_create_oss | intros x ].
      destruct x as [[h id] arn].
      apply confined_bind;
        [ apply provisioning_get_embedding_dimensions | intros _ ].
      apply confined_bind; [ | intros _; apply confined_ret ].
      apply (provisioning_create_vector_index (is_custom self1)
               (set_collection h id arn self1)).
    + apply confined_bind;
        [ apply provisioning_get_embedding_dimensions | intros _ ].
      apply confined_bind; [ | intros id; apply confined_ret ].
      apply provisioning_create_neptune.
  - intros w s Hok.
    destruct (String.eqb (vector_store self1) "OPENSEARCH_SERVERLESS");
      unbind Hok; cbn in Hok; injection Hok as <-; reflexivity.
  - intros self2 Hattrs.
    apply (confined_bind_post _ (fun s : Self => attrs s = attrs self1)).
    + destruct (is_custom self2) eqn:Hcustom; [ | apply confined_ret ].
      unfold is_custom in *. rewrite <- Hattrs, Hcustom.
      apply confined_bind; [ apply provisioning_create_lambda | intros x ].
      destruct x as [response self3]. confine_code.
    + intros w s Hok. destruct (is_custom self2).
      * unbind Hok. cbn in Hok. injection Hok as <-.
        match goal with
        | H : outcome (create_lambda _ _ _) = Ok _ |- _ =>
            apply create_lambda_attrs in H; cbn; congruence
        end.
      * cbn in Hok. injection Hok as <-. exact Hattrs.
    + intros self3 _.
      apply confined_bind;
        [ apply provisioning_create_knowledge_base | intros x ].
      destruct x as [kb ds_list]. apply confined_ret.
Qed.

Lemma confined_s3_bucket_names (P : call -> bool) (l : list descriptor) :
  confined P (s3_bucket_names l : M (list string)).
Proof.
  induction l as [ | d rest IH]; cbn [s3_bucket_names].
  - apply confined_ret.
  - pose proof IH as Hrest. confine_code; apply Hrest.
Qed.

Lemma confined_saas_secret_arns (P : call -> bool) (l : list descriptor) :
  confined P (saas_secret_arns l : M (list string)).
Proof.
  induction l as [ | d rest IH]; cbn [saas_secret_arns].
  - apply confined_ret.
  - pose proof IH as Hrest. confine_code; apply Hrest.
Qed.

Lemma confined_read_attributes (P : call -> bool) (args : Args) :
  P GetCallerIdentity = true ->
  confined P (read_attributes perform session_region_name args).
Proof.
  intros HP. unfold read_attributes, caller_account, caller_arn.
  pose proof (confined_s3_bucket_names P) as Hnames.
  pose proof (confined_saas_secret_arns P) as Harns.
  confine_code;
    first [ apply confined_invoke, HP | apply Hnames | apply Harns ].
Qed.

(** What [read_attributes] copies from the arguments. *)
Lemma read_attributes_fields (args : Args) (w : World) (a : Attributes) :
  outcome (read_attributes perform session_region_name args w) = Ok a ->
  vector_store a = arg_vector_store args /\
  chunking_strategy a = arg_chunking_strategy args /\
  embedding_model a = arg_embedding_model args /\
  multi_modal a = arg_multi_modal args /\
  parser a = arg_parser args /\
  arg_data_sources args = Some (data_sources a).
Proof.
  intros Hok. unfold read_attributes in Hok. unbind Hok.
  cbn in Hok. injection Hok as <-. cbn.
  match goal with
  | H : outcome (match arg_data_sources args with _ => _ end _) = Ok _
    |- _ => destruct (arg_data_sources args); [ | discriminate H ];
            cbn in H; injection H as <-
  end.
  repeat split; reflexivity.
Qed.

(** The provider calls of the constructor: the two identity lookups, and the
    calls of the pipeline for the vector store, the chunking strategy and the
    embedding model of the arguments. *)
Lemma constructor_calls (fuel : nat) (args : Args) :
  confined
    (fun c =>
       match c with
       | GetCallerIdentity => true
       | _ =>
           provisioning_call
             (String.eqb (arg_vector_store args) "OPENSEARCH_SERVERLESS")
             (String.eqb (arg_chunking_strategy args) "CUSTOM")
             (dimension_of (arg_embedding_model args) (arg_multi_modal args))
             c
       end)
    (__init__ perform session_region_name fuel args).
Proof.
  unfold __init__, initial_attributes.
  apply (confined_bind_post _
           (fun a : Attributes =>
              vector_store a = arg_vector_store args /\
              chunking_strategy a = arg_chunking_strategy args /\
              embedding_model a = arg_embedding_model args /\
              multi_modal a = arg_multi_modal args)).
  - apply confined_bind;
      [ apply confined_read_attributes; reflexivity | intros a ].
    unfold _validate_models. confine_code.
  - intros w a Hok. unbind Hok. cbn in Hok. injection Hok as <-.
    match goal with
    | H : outcome (read_attributes _ _ _ _) = Ok _ |- _ =>
        destruct (read_attributes_fields _ _ _ H)
          as (Hstore & Hstrategy & Hmodel & Hmulti & _)
    end.
    auto.
  - intros a (Hv & Hc & He & Hm).
    eapply confined_weaken;
      [ | apply (provisioning_setup_resources fuel
                   {| attrs := a; res := initial_resources a |}) ].
    cbn [attrs]. unfold is_custom. rewrite Hv, Hc, He, Hm.
    intros c Hc'. destruct c; try exact Hc'; reflexivity.
Qed.

Lemma confined_Forall {A : Type} (P : call -> bool) (m : M A) (w : World) :
  confined P m -> Forall (fun c => P c = true) (calls (trace (m w))).
Proof.
  intros H. apply Forall_forall. intros c Hc.
  specialize (H w). rewrite forallb_forall in H. now apply H.
Qed.

(** X1.  The constructor removes nothing but a superseded policy version: the
    only [delete_*] or [detach_*] operation among its calls is
    [delete_policy_version]. *)
Theorem constructor_removes_no_resource
    (fuel : nat) (args : Args) (w : World) :
  Forall (fun c =>
            removes c = true -> exists policy_arn version_id,
              c = DeletePolicyVersion policy_arn version_id)
    (calls (trace (__init__ perform session_region_name fuel args w))).
Proof.
  eapply Forall_impl;
    [ | apply confined_Forall, (constructor_calls fuel args) ].
  intros c Hc Hr. destruct c; try discriminate Hr; try discriminate Hc.
  eauto.
Qed.

(** X2.  The constructor provisions one vector backend: with
    [vector_store="OPENSEARCH_SERVERLESS"] it calls no Neptune Analytics
    operation, with another vector store no OpenSearch operation; and it calls
    a Lambda operation only for the chunking strategy [CUSTOM]. *)
Theorem constructor_provisions_one_backend
    (fuel : nat) (args : Args) (w : World) :
  let called :=
    calls (trace (__init__ perform session_region_name fuel args w)) in
  (arg_vector_store args = "OPENSEARCH_SERVERLESS" ->
   Forall (fun c => service_of c <> "neptune-graph") called) /\
  (arg_vector_store args <> "OPENSEARCH_SERVERLESS" ->
   Forall (fun c => service_of c <> "opensearchserverless" /\
                    service_of c <> "opensearch") called) /\
  (arg_chunking_strategy args <> "CUSTOM" ->
   Forall (fun c => service_of c <> "lambda") called).
Proof.
  intros called. subst called.
  pose proof (confined_Forall _ _ w (constructor_calls fuel args)) as Hcalls.
  cbv beta in Hcalls.
  split; [ | split ]; intros Hcase;
    (eapply Forall_impl; [ | exact Hcalls ]); intros c Hc.
  - apply String.eqb_eq in Hcase. rewrite Hcase in Hc.
    destruct c; cbn; try discriminate; discriminate Hc.
  - apply String.eqb_neq in Hcase. rewrite Hcase in Hc.
    destruct c; cbn; try (split; discriminate); discriminate Hc.
  - apply String.eqb_neq in Hcase. rewrite Hcase in Hc.
    destruct c; cbn; try discriminate; discriminate Hc.
Qed.

Lemma dimension_of_table (m : string) (multi_modal : bool) (d : Z) :
  dimension_of m multi_modal = Some d ->
  dict_get embedding_context_dimensions m = Some d.
Proof.
  unfold dimension_of, get_embedding_dimensions_of.
  destruct (dict_get embedding_context_dimensions m) as [base | ] eqn:Hbase;
    [ | discriminate ].
  destruct (multi_modal && str_in m cohere_v4_models) eqn:Hcase;
    intros [= <-]; [ | reflexivity ].
  apply andb_prop in Hcase. destruct Hcase as [_ Hin].
  apply str_in_In in Hin. cbn in Hin.
  repeat (destruct Hin as [<- | Hin]; [ rewrite <- Hbase; reflexivity | ]).
  contradiction.
Qed.

(** X3.  The vector index, or the graph, is created with the dimension that
    the table [embedding_context_dimensions] gives for the embedding model of
    the arguments. *)
Theorem index_dimension_is_table_entry
    (fuel : nat) (args : Args) (w : World) :
  Forall (fun c =>
            forall d,
              (exists h index, c = IndicesCreate h index d) \/
              (exists graph_name, c = CreateGraph graph_name d) ->
              dict_get embedding_context_dimensions (arg_embedding_model args)
                = Some d)
    (calls (trace (__init__ perform session_region_name fuel args w))).
Proof.
  eapply Forall_impl;
    [ | apply confined_Forall, (constructor_calls fuel args) ].
  intros c Hc d [(h & i & ->) | (g & ->)]; cbn in Hc;
    apply andb_prop in Hc; destruct Hc as [_ Hc];
    apply (dimension_of_table _ (arg_multi_modal args));
    destruct (dimension_of _ _) as [d' | ]; [ | discriminate Hc | | discriminate Hc ];
    apply Z.eqb_eq in Hc; now subst.
Qed.

(** ** The calls of the teardown *)

Lemma teardown_delete_buckets (iam lam : bool) (names : list string) :
  confined (teardown_call true iam lam) (delete_buckets perform names).
Proof.
  induction names as [ | b rest IH]; cbn [delete_buckets].
  - apply confined_ret.
  - apply confined_bind; [ | intros _; exact IH ].
    unfold delete_one_bucket. confine_code.
Qed.

Lemma teardown_calls (self : Self) (s3 iam lam : bool) :
  confined (teardown_call s3 iam lam) (delete_kb perform self s3 iam lam).
Proof.
  unfold delete_kb.
  apply confined_bind; [ | intros _ ].
  { unfold delete_entity.
    pose proof (confined_delete_data_sources (teardown_call s3 iam lam) self)
      as Hloop.
    confine_code; apply Hloop; reflexivity. }
  apply confined_bind; [ | intros _ ].
  { destruct s3; [ | apply confined_ret ].
    unfold delete_s3.
    apply confined_bind;
      [ apply teardown_delete_buckets | intros _; apply confined_say ]. }
  apply confined_bind; [ | intros _ ].
  { unfold delete_cloudwatch_log_group. confine_code. }
  apply confined_bind; [ | intros _ ].
  { destruct iam; [ | apply confined_ret ].
    unfold delete_iam_roles_and_policies.
    apply confined_bind; [ | intros _; apply confined_say ].
    apply confined_delete_roles. intros c r _ Hc _.
    destruct c; try discriminate Hc; reflexivity. }
  apply confined_bind; [ | intros _ ].
  { destruct lam; [ | apply confined_ret ].
    unfold delete_lambda_block, delete_lambda_function. confine_code. }
  unfold delete_index. confine_code.
Qed.

(** X4.  The flags of [delete_kb] are respected: without [delete_s3_bucket]
    the teardown calls no S3 operation, without
    [delete_iam_roles_and_policies] no IAM operation, and without
    [delete_lambda_function] no Lambda operation. *)
Theorem teardown_respects_flags
    (self : Self) (s3 iam lam : bool) (w : World) :
  let called := calls (trace (delete_kb perform self s3 iam lam w)) in
  (s3 = false -> Forall (fun c => service_of c <> "s3") called) /\
  (iam = false -> Forall (fun c => service_of c <> "iam") called) /\
  (lam = false -> Forall (fun c => service_of c <> "lambda") called).
Proof.
  intros called. subst called.
  pose proof (confined_Forall _ _ w (teardown_calls self s3 iam lam))
    as Hcalls.
  split; [ | split ]; intros ->;
    (eapply Forall_impl; [ | exact Hcalls ]); intros c Hc;
    destruct c; cbn; try discriminate; discriminate Hc.
Qed.

(** X5.  The teardown creates nothing: none of its calls is a [create_*],
    [put_*], [attach_*] or [start_*] operation, and the only update is the one
    that lifts the deletion protection of the graph. *)
Theorem teardown_creates_nothing
    (self : Self) (s3 iam lam : bool) (w : World) :
  Forall (fun c =>
            creates c = true -> exists graph_id, c = UpdateGraph graph_id false)
    (calls (trace (delete_kb perform self s3 iam lam w))).
Proof.
  eapply Forall_impl;
    [ | apply confined_Forall, (teardown_calls self s3 iam lam) ].
  intros c Hc Hcreates.
  destruct c; try discriminate Hcreates; try discriminate Hc.
  destruct deletion_protection; [ discriminate Hc | eauto ].
Qed.

(** ** Buckets: what is probed, what is created *)

Lemma option_string_eqb_refl (x : option string) :
  option_string_eqb x x = true.
Proof. destruct x; cbn; [ apply String.eqb_refl | reflexivity ]. Qed.

(** The buckets that [head_bucket] found are in the list that the first
    loop returns. *)
Lemma probe_buckets_found (buckets existing result : list (option string))
    (w : World) :
  outcome (probe_buckets perform buckets existing w) = Ok result ->
  (forall y, In y existing -> In y result) /\
  (forall b x,
     In (Called (HeadBucket b) (Returns x))
       (trace (probe_buckets perform buckets existing w)) ->
     In (Some b) result).
Proof.
  revert existing w.
  induction buckets as [ | bucket_name rest IH]; intros existing w;
    cbn [probe_buckets].
  - cbn. intros [= <-]. split; [ auto | intros b x [] ].
  - intros Hok. apply bind_returns in Hok.
    destruct Hok as (a & Hstep & Hrest & Ht). rewrite Ht. clear Ht.
    destruct (IH _ _ Hrest) as [Hkept Hfound]. clear IH.
    assert (Hinv :
              (forall y, In y existing -> In y a) /\
              (forall b x,
                 In (Called (HeadBucket b) (Returns x))
                   (trace
                      (try_
                         (b0 <- required bucket_name ;;
                          invoke perform (HeadBucket b0) ;;
                          say ("Bucket " ++ fmt bucket_name
                                 ++ " already exists and you have access - reusing it!") ;;
                          ret (existing ++ [bucket_name])%list)
                         (fun e =>
                            match error_code e with
                            | None => raise e
                            | Some code =>
                                (if String.eqb code "NoSuchBucket" then
                                   say ("Bucket " ++ fmt bucket_name
                                          ++ " does not exist - will create it")
                                 else if String.eqb code "Forbidden"
                                         || String.eqb code "AccessDenied" then
                                   say ("Bucket " ++ fmt bucket_name
                                          ++ " exists but you do not have access - will try to create with different name")
                                 else
                                   say ("Could not access bucket "
                                          ++ fmt bucket_name ++ ": "
                                          ++ code ++ " - will try to create it")) ;;
                                ret existing
                            end) w)) ->
                 In (Some b) a)).
    { revert Hstep.
      unfold try_, bind, required, invoke, say, ret, raise, outcome, trace.
      destruct bucket_name as [b0 | ]; cbn; [ | discriminate ].
      destruct (perform (HeadBucket b0) w) as [[x0 | e] w1]; cbn.
      - intros [= <-]. split.
        + intros y Hy. apply in_or_app. now left.
        + intros b x [[= <- <-] | [[=] | []]].
          apply in_or_app. right. now left.
      - destruct (error_code e) as [code | ]; cbn; [ | discriminate ].
        destruct (String.eqb code "NoSuchBucket"); cbn;
          [ | destruct (_ || _); cbn ];
          (intros [= <-]; split; [ auto | intros b x [[=] | [[=] | []]] ]). }
    destruct Hinv as [Hkept1 Hfound1]. split.
    + intros y Hy. apply Hkept, Hkept1, Hy.
    + intros b x Hin. apply in_app_or in Hin. destruct Hin as [Hin | Hin].
      * apply Hkept, (Hfound1 b x), Hin.
      * apply (Hfound b x), Hin.
Qed.

Lemma create_buckets_calls (self : Attributes)
    (buckets existing : list (option string)) (w : World)
    (b : string) (location : option string) :
  In (CreateBucket b location)
    (calls (trace (create_buckets perform self buckets existing w))) ->
  In (Some b) buckets /\
  location = (if String.eqb (region_name self) "us-east-1"
              then None else Some (region_name self)).
Proof.
  revert existing w.
  induction buckets as [ | bucket_name rest IH]; intros existing w;
    cbn [create_buckets].
  - cbn. intros [].
  - rewrite trace_bind, calls_app. intros Hin. apply in_app_or in Hin.
    destruct Hin as [Hin | Hin].
    + clear IH.
      assert (Hone :
                confined
                  (fun c =>
                     match c with
                     | CreateBucket b' location' =>
                         option_string_eqb (Some b') bucket_name
                         && option_string_eqb location'
                              (if String.eqb (region_name self) "us-east-1"
                               then None else Some (region_name self))
                     | _ => false
                     end)
                  (create_one_bucket perform self bucket_name existing)).
      { unfold create_one_bucket.
        apply confined_bind; [ apply confined_say | intros _ ].
        apply confined_try; [ | intros e; confine_code ].
        destruct bucket_name as [b0 | ]; cbn [required];
          [ apply confined_bind_ret | confine_code ].
        confine_code; apply confined_invoke; cbn;
          rewrite !String.eqb_refl; reflexivity. }
      specialize (Hone w). rewrite forallb_forall in Hone.
      specialize (Hone _ Hin). cbn beta iota in Hone.
      apply andb_prop in Hone. destruct Hone as [Hname Hloc].
      destruct bucket_name as [b0 | ]; [ | discriminate Hname ].
      cbn in Hname. apply String.eqb_eq in Hname. subst b0.
      split; [ now left | ].
      destruct (String.eqb (region_name self) "us-east-1");
        destruct location as [l | ]; cbn in Hloc; try discriminate Hloc;
        [ reflexivity | apply String.eqb_eq in Hloc; now subst ].
    + destruct (outcome (create_one_bucket _ _ _ _ _)) as [a | e | ];
        [ | contradiction | contradiction ].
      destruct (IH _ _ Hin) as [Hb Hloc]. split; [ now right | exact Hloc ].
Qed.

(** X6.  [create_bucket] is called only for a bucket of the instance that
    [head_bucket] did not find, and with a location constraint, the region,
    unless the region is [us-east-1]. *)
Theorem buckets_are_created_only_when_missing
    (self : Attributes) (w : World) (b : string)
    (location : option string) :
  let run := create_s3_bucket perform self w in
  In (CreateBucket b location) (calls (trace run)) ->
  In (Some b) (buckets_to_check self) /\
  (forall x, ~ In (Called (HeadBucket b) (Returns x)) (trace run)) /\
  location = (if String.eqb (region_name self) "us-east-1"
              then None else Some (region_name self)).
Proof.
  intros run Hin. subst run. unfold create_s3_bucket in *. cbv zeta in *.
  rewrite trace_bind in *. rewrite calls_app in Hin.
  apply in_app_or in Hin. destruct Hin as [Hin | Hin].
  { exfalso.
    assert (Hprobe :
              confined (fun c => match c with HeadBucket _ => true
                                         | _ => false end)
                (probe_buckets perform (buckets_to_check self) [])).
    { clear. generalize (@nil (option string)) as existing.
      induction (buckets_to_check self) as [ | x rest IH]; intros existing;
        cbn [probe_buckets].
      - apply confined_ret.
      - apply confined_bind; [ | intros a; apply IH ]. confine_code. }
    specialize (Hprobe w). rewrite forallb_forall in Hprobe.
    now specialize (Hprobe _ Hin). }
  destruct (outcome (probe_buckets _ _ _ _)) as [existing | e | ] eqn:Hprobe;
    [ | contradiction | contradiction ].
  destruct (create_buckets_calls _ _ _ _ _ _ Hin) as [Hb Hloc].
  unfold buckets_to_create in Hb. apply filter_In in Hb.
  destruct Hb as [Hcheck Hmissing]. apply negb_true_iff in Hmissing.
  split; [ exact Hcheck | split; [ | exact Hloc ] ].
  intros x Hhead. apply in_app_or in Hhead. destruct Hhead as [Hhead | Hhead].
  - destruct (probe_buckets_found _ _ _ _ Hprobe) as [_ Hfound].
    specialize (Hfound b x Hhead).
    assert (Hex : existsb (option_string_eqb (Some b)) existing = true).
    { apply existsb_exists. exists (Some b).
      split; [ exact Hfound | apply option_string_eqb_refl ]. }
    congruence.
  - assert (Hcreate :
              confined (fun c => match c with CreateBucket _ _ => true
                                         | _ => false end)
                (create_buckets perform self
                   (buckets_to_create (buckets_to_check self) existing)
                   existing)).
    { clear. generalize existing at 2 as ex.
      induction (buckets_to_create _ _) as [ | x rest IH]; intros ex;
        cbn [create_buckets].
      - apply confined_ret.
      - apply confined_bind; [ | intros a; apply IH ].
        unfold create_one_bucket. confine_code. }
    specialize (Hcreate (final (probe_buckets perform
                                  (buckets_to_check self) [] w))).
    rewrite forallb_forall in Hcreate.
    assert (Hc : In (HeadBucket b)
                   (calls (trace (create_buckets perform self
                      (buckets_to_create (buckets_to_check self) existing)
                      existing
                      (final (probe_buckets perform
                                (buckets_to_check self) [] w)))))).
    { clear - Hhead. revert Hhead.
      generalize (trace (create_buckets perform self
                      (buckets_to_create (buckets_to_check self) existing)
                      existing
                      (final (probe_buckets perform
                                (buckets_to_check self) [] w)))).
      intros t. induction t as [ | [c r | line] t IH]; cbn.
      - intros [].
      - intros [[= Hc Hr] | H]; [ left; exact Hc | right; now apply IH ].
      - intros [[=] | H]. now apply IH. }
    now specialize (Hcreate _ Hc).
Qed.

(** ** The log group and the log delivery *)

(** X7.  [create_cloudwatch_log_group] reuses a log group that exists: it
    raises only what [create_log_group] raises,
    [ResourceAlreadyExistsException] apart, and then without going on to the
    retention policy; in every other run it sets the retention to one day and
    returns, whatever [put_retention_policy] answers. *)
Theorem log_group_is_created_or_reused (self : Attributes) (w : World) :
  let name := log_group_name self in
  let run := create_cloudwatch_log_group perform self w in
  (forall e,
     fst (perform (CreateLogGroup name) w) = Raises e ->
     is_ResourceAlreadyExistsException e = false ->
     outcome run = Raise e /\ calls (trace run) = [CreateLogGroup name]) /\
  ((forall e,
      fst (perform (CreateLogGroup name) w) = Raises e ->
      is_ResourceAlreadyExistsException e = true) ->
   outcome run = Ok tt /\
   calls (trace run) = [CreateLogGroup name; PutRetentionPolicy name 1%Z]).
Proof.
  intros name run. subst name run.
  unfold create_cloudwatch_log_group, bind, try_, invoke, ret, raise,
    outcome, trace.
  destruct (perform (CreateLogGroup (log_group_name self)) w)
    as [[x | e] w1]; cbn.
  - split; [ intros e [=] | intros _ ].
    destruct (perform (PutRetentionPolicy _ _) w1) as [[x2 | e2] w2]; cbn;
      now split.
  - split.
    + intros e' [= <-] ->. cbn. now split.
    + intros H. rewrite (H e eq_refl). cbn.
      destruct (perform (PutRetentionPolicy _ _) w1) as [[x2 | e2] w2]; cbn;
        now split.
Qed.

Lemma confined_configure_log_delivery (self : Attributes) (arn : string) :
  confined (from_service "logs") (configure_log_delivery perform self arn).
Proof. unfold configure_log_delivery. confine_code. Qed.

(** X8.  [configure_log_delivery] never fails: whatever the provider answers
    it returns, and it calls CloudWatch Logs only. *)
Theorem log_delivery_never_fails
    (self : Attributes) (knowledge_base_arn : string) (w : World) :
  let run := configure_log_delivery perform self knowledge_base_arn w in
  outcome run = Ok tt /\
  Forall (fun c => service_of c = "logs") (calls (trace run)).
Proof.
  intros run. subst run. split.
  - assert (H : unfailing
                  (configure_log_delivery perform self knowledge_base_arn)).
    { unfold configure_log_delivery. cbv zeta.
      apply unfailing_try; [ | intros e; apply unfailing_ret ].
      unfold first. halt. }
    destruct (H w) as [[] Hok]. exact Hok.
  - eapply Forall_impl;
      [ | apply (confined_Forall (from_service "logs")) ].
    + intros c Hc. now apply String.eqb_eq in Hc.
    + apply confined_configure_log_delivery.
Qed.

(** ** The retry decorator *)

Lemma count_calls_app (P : call -> bool) (t1 t2 : list event) :
  count_calls P (t1 ++ t2) = count_calls P t1 + count_calls P t2.
Proof.
  unfold count_calls. now rewrite calls_app, filter_app, length_app.
Qed.

Lemma bounded_le {A : Type} (P : call -> bool) (n n' : nat) (m : M A) :
  bounded P n m -> n <= n' -> bounded P n' m.
Proof. intros H Hle w. specialize (H w). lia. Qed.

Lemma bounded_confined {A : Type} (P : call -> bool) (m : M A) :
  confined (fun c => negb (P c)) m -> bounded P 0 m.
Proof.
  intros H w. specialize (H w). unfold count_calls.
  induction (calls (trace (m w))) as [ | c t IH]; cbn in *; [ lia | ].
  apply andb_prop in H. destruct H as [Hc Ht].
  apply negb_true_iff in Hc. rewrite Hc. now apply IH.
Qed.

Lemma bounded_invoke (P : call -> bool) (c : call) :
  bounded P 1 (invoke perform c).
Proof.
  intros w. unfold invoke, count_calls.
  destruct (perform c w) as [[x | e] w1]; cbn; destruct (P c); cbn; lia.
Qed.

Lemma bounded_bind {A B : Type} (P : call -> bool) (n n' : nat) (m : M A)
    (k : A -> M B) :
  bounded P n m -> (forall a, bounded P n' (k a)) ->
  bounded P (n + n') (bind m k).
Proof.
  intros Hm Hk w. rewrite trace_bind, count_calls_app. specialize (Hm w).
  destruct (outcome (m w)) as [a | e | ]; cbv beta iota;
    [ specialize (Hk a (final (m w))); lia
    | unfold count_calls in *; cbn; lia | unfold count_calls in *; cbn; lia ].
Qed.

Lemma bounded_try {A : Type} (P : call -> bool) (n n' : nat) (m : M A)
    (h : exn -> M A) :
  bounded P n m -> (forall e, bounded P n' (h e)) ->
  bounded P (n + n') (try_ m h).
Proof.
  intros Hm Hh w. rewrite trace_try, count_calls_app. specialize (Hm w).
  destruct (outcome (m w)) as [a | e | ]; cbv beta iota;
    [ unfold count_calls in *; cbn; lia
    | specialize (Hh e (final (m w))); lia
    | unfold count_calls in *; cbn; lia ].
Qed.

Lemma bounded_bind_first {A B : Type} (P : call -> bool) (n : nat)
    (m : M A) (k : A -> M B) :
  bounded P n m -> (forall a, bounded P 0 (k a)) -> bounded P n (bind m k).
Proof.
  intros Hm Hk. eapply bounded_le; [ apply (bounded_bind _ n 0) | lia ];
    assumption.
Qed.

Lemma bounded_try_body {A : Type} (P : call -> bool) (n : nat) (m : M A)
    (h : exn -> M A) :
  bounded P n m -> (forall e, bounded P 0 (h e)) -> bounded P n (try_ m h).
Proof.
  intros Hm Hh. eapply bounded_le; [ apply (bounded_try _ n 0) | lia ];
    assumption.
Qed.

(** A body retried after every exception runs at most once more than the
    number of further attempts. *)
Lemma bounded_retrying {A : Type} (P : call -> bool) (n further : nat)
    (body : M A) :
  bounded P n body -> bounded P (S further * n) (retrying further body).
Proof.
  intros Hbody. induction further as [ | further IH]; cbn [retrying].
  - eapply bounded_le;
      [ apply (bounded_try _ n 0);
        [ exact Hbody | intros e; apply bounded_confined, confined_raise ]
      | lia ].
  - eapply bounded_le;
      [ apply (bounded_try _ n (S further * n));
        [ exact Hbody | intros e; exact IH ]
      | lia ].
Qed.

Lemma confined_create_data_sources_loop (self : Self) (kb_id : string)
    (descriptors : list descriptor)
    (previous : option string * option data_source_configuration)
    (ds_list : list data_source_detail) :
  confined is_create_data_source
    (create_data_sources_loop perform self kb_id descriptors previous
       ds_list).
Proof.
  revert previous ds_list.
  induction descriptors as [ | d rest IH]; intros previous ds_list;
    cbn [create_data_sources_loop].
  - apply confined_ret.
  - pose proof IH as Hrest.
    unfold select_configuration. confine_code; apply Hrest.
Qed.

Lemma bounded_create_data_sources_loop (self : Self) (kb_id : string)
    (descriptors : list descriptor)
    (previous : option string * option data_source_configuration)
    (ds_list : list data_source_detail) :
  bounded is_create_data_source (List.length descriptors)
    (create_data_sources_loop perform self kb_id descriptors previous
       ds_list).
Proof.
  revert previous ds_list.
  induction descriptors as [ | d rest IH]; intros previous ds_list;
    cbn [create_data_sources_loop List.length].
  - apply bounded_confined, confined_ret.
  - eapply bounded_le.
    + apply (bounded_bind _ 0 (1 + List.length rest));
        [ apply bounded_confined; unfold select_configuration; confine_code
        | intros selected ].
      apply (bounded_bind _ 0 (1 + List.length rest));
        [ apply bounded_confined; confine_code | intros parsing ].
      apply (bounded_bind _ 0 (1 + List.length rest));
        [ apply bounded_confined; confine_code | intros ds_name ].
      apply (bounded_bind _ 0 (1 + List.length rest));
        [ apply bounded_confined; confine_code | intros configuration ].
      apply (bounded_bind _ 1 (List.length rest));
        [ apply bounded_invoke | intros response ].
      apply (bounded_bind _ 0 (List.length rest));
        [ apply bounded_confined; confine_code | intros created ].
      apply IH.
    + lia.
Qed.

(** X9.  [create_knowledge_base] is attempted at most seven times: in every
    run it sends at most seven [create_knowledge_base] requests, and at most
    seven [create_data_source] requests per data source. *)
Theorem knowledge_base_creation_is_attempted_seven_times
    (self : Self) (w : World) :
  let t := trace (create_knowledge_base perform self w) in
  count_calls is_create_knowledge_base t <= 7 /\
  count_calls is_create_data_source t
    <= 7 * List.length (data_sources self).
Proof.
  intros t. subst t. unfold create_knowledge_base. split.
  - apply (bounded_retrying is_create_knowledge_base 1 6).
    unfold create_knowledge_base_body. cbv zeta.
    eapply bounded_le.
    + apply (bounded_bind _ 0 1);
        [ apply bounded_confined; confine_code | intros storage ].
      apply (bounded_bind _ 1 0).
      * apply (bounded_try _ 1 0).
        -- apply (bounded_bind _ 0 1);
             [ apply bounded_confined; confine_code | intros role ].
           apply (bounded_bind _ 1 0);
             [ apply bounded_invoke
             | intros r; apply bounded_confined; confine_code ].
        -- intros e. apply bounded_confined. confine_code.
      * intros kb. apply bounded_confined.
        apply confined_bind; [ | intros _ ].
        { eapply confined_weaken;
            [ | apply confined_configure_log_delivery ].
          intros c Hc. destruct c; try discriminate Hc; reflexivity. }
        apply confined_bind; [ | intros l; confine_code ].
        apply confined_try; [ | intros e; confine_code ].
        apply confined_bind; [ | intros l; apply confined_ret ].
        eapply confined_weaken;
          [ | apply confined_create_data_sources_loop ].
        intros c Hc. destruct c; try discriminate Hc; reflexivity.
    + lia.
  - apply (bounded_retrying is_create_data_source
             (List.length (data_sources self)) 6).
    unfold create_knowledge_base_body. cbv zeta.
    eapply bounded_le.
    + apply (bounded_bind _ 0 (List.length (data_sources self)));
        [ apply bounded_confined; confine_code | intros storage ].
      apply (bounded_bind _ 0 (List.length (data_sources self)));
        [ apply bounded_confined; confine_code | intros kb ].
      apply (bounded_bind _ 0 (List.length (data_sources self))).
      { apply bounded_confined.
        eapply confined_weaken;
          [ | apply confined_configure_log_delivery ].
        intros c Hc. destruct c; try discriminate Hc; reflexivity. }
      intros _.
      apply bounded_bind_first;
        [ | intros l; apply bounded_confined; confine_code ].
      apply bounded_try_body;
        [ | intros e; apply bounded_confined; confine_code ].
      apply bounded_bind_first;
        [ apply bounded_create_data_sources_loop
        | intros l; apply bounded_confined, confined_ret ].
    + lia.
Qed.

(** ** The data sources *)

Lemma silent_item_list (d : descriptor) (k : string) :
  silent (item_list d k : M (list string)).
Proof.
  unfold item_list. destruct (dict_get (lists d) k);
    [ apply silent_ret | apply silent_raise ].
Qed.

Ltac quiet :=
  repeat first
    [ apply silent_ret
    | apply silent_raise
    | apply silent_item
    | apply silent_item_list
    | apply silent_bind; [ | intro ]
    | match goal with
      | |- silent (if ?b then _ else _) => destruct b
      | |- silent (match ?x with _ => _ end) => destruct x
      end ].

Lemma silent_select_configuration (kb_id : string) (ds : descriptor)
    (previous : option string * option data_source_configuration) :
  silent (select_configuration kb_id ds previous : M _).
Proof. unfold select_configuration. quiet. Qed.

Lemma silent_trace {A : Type} (m : M A) (w : World) :
  silent m -> trace (m w) = [].
Proof. intros H. apply (silent_calls m w H). Qed.

Lemma silent_final {A : Type} (m : M A) (w : World) :
  silent m -> final (m w) = w.
Proof. intros H. apply (silent_calls m w H). Qed.

Lemma invoke_trace (c : call) (w : World) (x : response) :
  outcome (invoke perform c w) = Ok x ->
  trace (invoke perform c w) = [Called c (Returns x)].
Proof.
  unfold invoke. destruct (perform c w) as [[r | e] w']; cbn;
    [ intros [= ->]; reflexivity | discriminate ].
Qed.

(** The loop of [create_data_sources] appends to [ds_list] what each
    [create_data_source] call returned, one call per descriptor. *)
Lemma create_data_sources_loop_result (self : Self) (kb_id : string)
    (descriptors : list descriptor)
    (previous : option string * option data_source_configuration)
    (ds_list l : list data_source_detail) (w : World) :
  let run :=
    create_data_sources_loop perform self kb_id descriptors previous ds_list
      w in
  outcome run = Ok l ->
  l = (ds_list ++ created_data_sources (trace run))%list /\
  List.length (created_data_sources (trace run)) = List.length descriptors /\
  count_calls is_create_data_source (trace run) = List.length descriptors.
Proof.
  cbv zeta. revert previous ds_list w.
  induction descriptors as [ | d rest IH]; intros previous ds_list w;
    cbn [create_data_sources_loop].
  - cbn. intros [= <-]. now rewrite app_nil_r.
  - cbv zeta. intros Hok. unbind Hok.
    apply IH in Hok. destruct Hok as (Hl & Hlen & Hcount).
    match goal with
    | H : outcome (invoke perform ?c ?w0) = Ok ?x |- _ =>
        rewrite (invoke_trace c w0 x H)
    end.
    match goal with
    | H : outcome (data_source_of ?x ?w0) = Ok ?ds |- _ =>
        destruct x; try discriminate H; cbn in H; injection H as <-
    end.
    rewrite (silent_trace (select_configuration kb_id d previous) w)
      by apply silent_select_configuration.
    repeat match goal with
           | |- context [trace (?m ?w0)] =>
               rewrite (silent_trace m w0) by (unfold local; quiet)
           end.
    cbn [app].
    match goal with
    | |- context [Called ?c (Returns (DataSourceResponse ds)) :: ?t] =>
        set (t' := t) in *;
        change (created_data_sources
                  (Called c (Returns (DataSourceResponse ds)) :: t'))
          with (ds :: created_data_sources t')
    end.
    unfold count_calls in *.
    cbn [calls filter is_create_data_source List.length].
    rewrite Hl, <- app_assoc, Hlen, Hcount. cbn [app]. auto.
Qed.

(** X10.  [create_data_sources] returns one data source per descriptor: the
    list it returns is what the [create_data_source] calls returned, in the
    order of the calls, and there is one such call per descriptor. *)
Theorem data_sources_are_created_in_order
    (self : Self) (kb_id : string) (descriptors : list descriptor)
    (w : World) (l : list data_source_detail) :
  let run := create_data_sources perform self kb_id descriptors w in
  outcome run = Ok l ->
  l = created_data_sources (trace run) /\
  List.length l = List.length descriptors /\
  count_calls is_create_data_source (trace run) = List.length descriptors.
Proof.
  intros run Hok. subst run. unfold create_data_sources in *.
  destruct (create_data_sources_loop_result _ _ _ _ _ _ _ Hok)
    as (Hl & Hlen & Hcount).
  cbn [app] in Hl. rewrite Hl at 2. auto.
Qed.

(** ** What the constructor leaves on the instance *)

Lemma setup_resources_result (fuel : nat) (self self' : Self) (w : World) :
  outcome (_setup_resources perform fuel self w) = Ok self' ->
  exists (self3 : Self) (w3 : World) (kb : knowledge_base_detail)
         (created : list data_source_detail),
    attrs self3 = attrs self /\
    outcome (create_knowledge_base perform self3 w3) = Ok (kb, created) /\
    self' = set_knowledge_base kb created self3 /\
    forall ev,
      In ev (trace (create_knowledge_base perform self3 w3)) ->
      In ev (trace (_setup_resources perform fuel self w)).
Proof.
  unfold _setup_resources. cbv zeta. intros Hok. unbind Hok.
  cbn in Hok. injection Hok as <-.
  match goal with
  | H : outcome (create_knowledge_base perform ?s ?w0) = Ok _ |- _ =>
      exists s, w0; rename H into Hkb
  end.
  do 2 eexists. split; [ | split; [ exact Hkb | split; [ reflexivity | ] ] ].
  - match goal with
    | H : outcome ((if is_custom ?s then _ else _) _) = Ok _ |- _ =>
        destruct (is_custom s);
        [ unbind H; cbn in H; injection H as <-;
          match goal with
          | H' : outcome (create_lambda _ _ _) = Ok _ |- _ =>
              apply create_lambda_attrs in H'; cbn; rewrite H'
          end
        | cbn in H; injection H as <- ]
    end;
      match goal with
      | H : outcome ((if String.eqb _ _ then _ else _) _) = Ok _ |- _ =>
          destruct (String.eqb _ _) in H;
          unbind H; cbn in H; injection H as <-; reflexivity
      end.
  - intros ev Hev. find_in Hev.
Qed.

Lemma create_knowledge_base_body_result (self : Self) (w : World)
    (kb : knowledge_base_detail) (created : list data_source_detail) :
  outcome (create_knowledge_base_body perform self w) = Ok (kb, created) ->
  List.length created = List.length (data_sources self) /\
  exists c,
    In (Called c (Returns (KnowledgeBaseResponse kb)))
      (trace (create_knowledge_base_body perform self w)) /\
    (is_create_knowledge_base c = true \/ exists id, c = GetKnowledgeBase id).
Proof.
  unfold create_knowledge_base_body. cbv zeta. intros Hok. unbind Hok.
  cbn in Hok. injection Hok as <- <-.
  match goal with
  | H : outcome (local "ds_list" ?o _) = Ok ?l |- _ =>
      destruct o as [l' | ]; [ | discriminate H ];
      cbn in H; injection H as <-
  end.
  split.
  - match goal with
    | H : outcome (try_ (bind (create_data_sources _ _ _ _) _) _ _) = Ok _
      |- _ => apply try_returns in H;
              destruct H as [[Hbody _] | (e & _ & Hh & _)]
    end.
    + unbind Hbody. cbn in Hbody. injection Hbody as <-.
      match goal with
      | H : outcome (create_data_sources _ _ _ _ _) = Ok _ |- _ =>
          unfold create_data_sources in H;
          apply create_data_sources_loop_result in H;
          destruct H as (-> & Hlen & _); cbn [app]; exact Hlen
      end.
    + exfalso. destruct (is_ConflictException e); [ | discriminate Hh ].
      unbind Hh. cbn in Hh. discriminate Hh.
  - match goal with
    | H : outcome (try_ (bind (attribute _ _) _) _ ?w0) = Ok _ |- _ =>
        apply try_returns in H;
        destruct H as [[Hbody Ht] | (e & _ & Hh & Ht)]; rewrite Ht
    end.
    + unbind Hbody.
      match goal with
      | H : outcome (knowledge_base_of ?x _) = Ok _ |- _ =>
          destruct x; try discriminate H; cbn in H; injection H as <-
      end.
      match goal with
      | H : outcome (invoke perform ?c _) = Ok _ |- _ =>
          exists c; split; [ | left; reflexivity ];
          apply invoke_returns in H; find_in H
      end.
    + destruct (is_ConflictException e); [ | discriminate Hh ].
      unbind Hh.
      match goal with
      | H : outcome (knowledge_base_of ?x _) = Ok _ |- _ =>
          destruct x; try discriminate H; cbn in H; injection H as <-
      end.
      match goal with
      | H : outcome (invoke perform (GetKnowledgeBase ?id) _) = Ok _ |- _ =>
          exists (GetKnowledgeBase id); split; [ | right; now exists id ];
          apply invoke_returns in H; find_in H
      end.
Qed.

(** X11.  The instance that the constructor returns is complete: it holds the
    knowledge base that [create_knowledge_base] or [get_knowledge_base]
    returned, and one created data source per descriptor of the [data_sources]
    argument, so that [get_knowledge_base_id] returns the id of that knowledge
    base. *)
Theorem constructed_instance_is_complete
    (fuel : nat) (args : Args) (w : World) (self : Self) :
  let run := __init__ perform session_region_name fuel args w in
  outcome run = Ok self ->
  arg_data_sources args = Some (data_sources self) /\
  exists kb created,
    knowledge_base self = Some kb /\
    data_source self = Some created /\
    List.length created = List.length (data_sources self) /\
    (exists c,
       In (Called c (Returns (KnowledgeBaseResponse kb))) (trace run) /\
       (is_create_knowledge_base c = true \/
        exists id, c = GetKnowledgeBase id)) /\
    (forall w' : World,
       outcome (get_knowledge_base_id self w') = Ok (knowledgeBaseId kb) /\
       calls (trace (get_knowledge_base_id self w')) = []).
Proof.
  intros run Hok. subst run. unfold __init__ in *.
  apply bind_returns in Hok. destruct Hok as (a & Ha & Hsetup & Ht).
  rewrite Ht. clear Ht.
  unfold initial_attributes in Ha. unbind Ha. cbn in Ha. injection Ha as <-.
  match goal with
  | H : outcome (read_attributes _ _ _ _) = Ok _ |- _ =>
      destruct (read_attributes_fields _ _ _ H) as (_ & _ & _ & _ & _ & Hds)
  end.
  destruct (setup_resources_result _ _ _ _ Hsetup)
    as (self3 & w3 & kb & created & Hattrs & Hkb & -> & Hsub).
  unfold create_knowledge_base in Hkb, Hsub.
  destruct (retrying_returns _ _ _ _ Hkb) as (w4 & Hbody & Hsub').
  destruct (create_knowledge_base_body_result _ _ _ _ Hbody)
    as (Hlen & c & Hc & Hkind).
  cbn [attrs] in Hattrs.
  assert (Hsame : attrs (set_knowledge_base kb created self3) = a0)
    by (rewrite <- Hattrs; reflexivity).
  rewrite Hattrs in Hlen. rewrite Hsame.
  split; [ exact Hds | ].
  exists kb, created. repeat split; try reflexivity.
  - exact Hlen.
  - exists c. split; [ | exact Hkind ].
    apply in_or_app. right. apply Hsub, Hsub', Hc.
Qed.

(** ** Arguments that the constructor cannot work with *)

(** X12.  The [data_sources] argument is required: with its default, [None],
    the constructor raises in every run, having called nothing but the
    identity service; when the two identity lookups succeed what it raises is
    the [TypeError] of the iteration over [None], whatever the models are. *)
Theorem constructor_requires_data_sources
    (fuel : nat) (args : Args) (w : World) :
  arg_data_sources args = None ->
  let run := __init__ perform session_region_name fuel args w in
  (exists e, outcome run = Raise e) /\
  Forall (eq GetCallerIdentity) (calls (trace run)) /\
  (forall account arn w1 account' arn' w2,
     perform GetCallerIdentity w
       = (Returns (CallerIdentity account arn), w1) ->
     perform GetCallerIdentity w1
       = (Returns (CallerIdentity account' arn'), w2) ->
     outcome run = Raise (TypeError "'NoneType' object is not iterable")).
Proof.
  intros Hnone run. subst run.
  unfold __init__, initial_attributes, read_attributes, caller_account,
    caller_arn, bind, invoke, ret, raise, outcome, trace.
  rewrite Hnone.
  destruct (perform GetCallerIdentity w) as [[r1 | e1] w1]; cbn.
  - destruct (perform GetCallerIdentity w1) as [[r2 | e2] w2] eqn:E2; cbn.
    + destruct r2; cbn;
        (split; [ eexists; reflexivity | split; [ auto | ] ]);
        intros account0 arn0 w1' account' arn' w2' [= _ <-] H2;
        rewrite E2 in H2; try discriminate H2; reflexivity.
    + split; [ eexists; reflexivity | split; [ auto | ] ].
      intros account0 arn0 w1' account' arn' w2' [= _ <-] H2.
      rewrite E2 in H2. discriminate H2.
  - split; [ eexists; reflexivity | split; [ auto | ] ].
    intros account0 arn0 w1' account' arn' w2' [=].
Qed.

Lemma create_data_sources_loop_parsing (self : Self) (kb_id : string)
    (descriptors : list descriptor)
    (previous : option string * option data_source_configuration)
    (ds_list l : list data_source_detail) (w : World) :
  descriptors <> [] ->
  outcome
    (create_data_sources_loop perform self kb_id descriptors previous ds_list
       w) = Ok l ->
  multi_modal self = true -> select_parsing self <> None.
Proof.
  destruct descriptors as [ | d rest]; [ contradiction | intros _ ].
  cbn [create_data_sources_loop]. cbv zeta. intros Hok Hmulti Hnone.
  apply bind_returns in Hok. destruct Hok as (selected & _ & Hok & _).
  apply bind_returns in Hok. destruct Hok as (parsing & Hparsing & _ & _).
  rewrite Hmulti, Hnone in Hparsing. discriminate Hparsing.
Qed.

(** X13.  In multimodal mode the constructor needs a parser: with
    [multi_modal] set, a [parser] that is neither [BEDROCK_FOUNDATION_MODEL]
    nor [BEDROCK_DATA_AUTOMATION] (the default [None], for one) and at least
    one data source, no run of the constructor returns an instance:
    [create_data_sources] reads [parsing_configuration], which only the two
    parsers assign. *)
Theorem multimodal_construction_needs_parser
    (fuel : nat) (args : Args) (w : World) :
  arg_multi_modal args = true ->
  arg_parser args <> Some "BEDROCK_FOUNDATION_MODEL" ->
  arg_parser args <> Some "BEDROCK_DATA_AUTOMATION" ->
  arg_data_sources args <> Some [] ->
  forall self,
    outcome (__init__ perform session_region_name fuel args w) <> Ok self.
Proof.
  intros Hmulti Hfm Hda Hsources self Hok. unfold __init__ in *.
  apply bind_returns in Hok. destruct Hok as (a & Ha & Hsetup & _).
  unfold initial_attributes in Ha. unbind Ha. cbn in Ha. injection Ha as <-.
  match goal with
  | H : outcome (read_attributes _ _ _ _) = Ok _ |- _ =>
      destruct (read_attributes_fields _ _ _ H)
        as (_ & _ & _ & Hmm & Hparser & Hds)
  end.
  destruct (setup_resources_result _ _ _ _ Hsetup)
    as (self3 & w3 & kb & created & Hattrs & Hkb & _ & _).
  cbn [attrs] in Hattrs.
  unfold create_knowledge_base in Hkb.
  destruct (retrying_returns _ _ _ _ Hkb) as (w4 & Hbody & _).
  unfold create_knowledge_base_body in Hbody. cbv zeta in Hbody.
  unbind Hbody.
  match goal with
  | H : outcome (try_ (bind (create_data_sources _ _ _ _) _) _ _) = Ok _
    |- _ => apply try_returns in H;
            destruct H as [[Hloop _] | (e & _ & Hh & _)]
  end.
  - unbind Hloop. unfold create_data_sources in *.
    match goal with
    | H : outcome (create_data_sources_loop _ _ _ _ _ _ _) = Ok _ |- _ =>
        apply create_data_sources_loop_parsing in H
    end.
    + match goal with H : select_parsing _ <> None |- _ => apply H end.
      unfold select_parsing. rewrite Hattrs, Hparser.
      destruct (arg_parser args) as [p | ]; [ | reflexivity ].
      destruct (String.eqb_spec p "BEDROCK_FOUNDATION_MODEL") as [-> | _];
        [ contradiction | ].
      destruct (String.eqb_spec p "BEDROCK_DATA_AUTOMATION") as [-> | _];
        [ contradiction | reflexivity ].
    + rewrite Hattrs. intros Hempty. apply Hsources.
      rewrite Hds, Hempty. reflexivity.
    + rewrite Hattrs, Hmm. exact Hmulti.
  - destruct (is_ConflictException e); [ | discriminate Hh ].
    unbind Hh. cbn in Hh. injection Hh as <-.
    match goal with
    | H : outcome (local "ds_list" None _) = Ok _ |- _ => discriminate H
    end.
Qed.

(** ** The requests that create the data sources *)

Lemma Forall_calls_bind {A B : Type} (Q : call -> Prop) (m : M A)
    (k : A -> M B) (w : World) :
  Forall Q (calls (trace (m w))) ->
  (forall a, outcome (m w) = Ok a ->
             Forall Q (calls (trace (k a (final (m w)))))) ->
  Forall Q (calls (trace (bind m k w))).
Proof.
  intros Hm Hk. rewrite trace_bind, calls_app. apply Forall_app.
  split; [ exact Hm | ].
  destruct (outcome (m w)) as [a | e | ]; [ now apply Hk | | ]; constructor.
Qed.

Lemma Forall_calls_silent {A : Type} (Q : call -> Prop) (m : M A)
    (w : World) :
  silent m -> Forall Q (calls (trace (m w))).
Proof. intros H. rewrite (silent_trace m w H). constructor. Qed.

Lemma select_configuration_name (kb_id : string) (ds : descriptor)
    (previous selected : option string * option data_source_configuration)
    (w : World) :
  outcome (select_configuration kb_id ds previous w) = Ok selected ->
  selected = previous \/
  exists name, fst selected = Some name /\ In name (data_source_names kb_id).
Proof.
  unfold select_configuration. intros Hok.
  apply bind_returns in Hok. destruct Hok as (type & _ & Hok & _).
  repeat match type of Hok with
         | outcome ((if ?b then _ else _) _) = Ok _ => destruct b
         end;
    try (cbn in Hok; injection Hok as <-; now left);
    unbind Hok; cbn in Hok; injection Hok as <-; right;
    eexists; (split; [ reflexivity | ]); cbn; tauto.
Qed.

(** X14.  Every data source is created under the name that goes with its type,
    [<kb_id>-s3] and the like, so that two data sources of one type are
    created under one name; and with the description of the knowledge base,
    the chunking configuration of the strategy of the instance, and a parsing
    configuration in multimodal mode only. *)
Theorem data_source_requests_follow_the_instance
    (self : Self) (kb_id : string) (descriptors : list descriptor)
    (w : World) :
  Forall (fun c =>
            exists name configuration ingestion,
              c = CreateDataSource name (kb_description self) kb_id
                    configuration ingestion /\
              In name (data_source_names kb_id) /\
              chunking ingestion
                = create_chunking_strategy_config self
                    (chunking_strategy self) /\
              (multi_modal self = false -> parsing ingestion = None))
    (calls (trace (create_data_sources perform self kb_id descriptors w))).
Proof.
  unfold create_data_sources.
  assert (Hprevious :
            (None, None) = (@None string, @None data_source_configuration) \/
            exists name,
              fst (@None string, @None data_source_configuration) = Some name /\
              In name (data_source_names kb_id)) by now left.
  revert Hprevious.
  generalize (@None string, @None data_source_configuration) at 2 3 4
    as previous.
  generalize (@nil data_source_detail) as ds_list. revert w.
  induction descriptors as [ | d rest IH]; intros w ds_list previous Hprevious;
    cbn [create_data_sources_loop].
  - constructor.
  - cbv zeta.
    apply Forall_calls_bind;
      [ apply Forall_calls_silent, silent_select_configuration
      | intros selected Hselected ].
    assert (Hname :
              (None, None) = selected \/
              exists name,
                fst selected = Some name /\
                In name (data_source_names kb_id)).
    { destruct (select_configuration_name _ _ _ _ _ Hselected)
        as [-> | Hnew]; [ exact Hprevious | now right ]. }
    apply Forall_calls_bind;
      [ apply Forall_calls_silent; unfold local; quiet
      | intros parsing Hparsing ].
    apply Forall_calls_bind;
      [ apply Forall_calls_silent; unfold local; quiet
      | intros ds_name Hds_name ].
    apply Forall_calls_bind;
      [ apply Forall_calls_silent; unfold local; quiet
      | intros configuration _ ].
    apply Forall_calls_bind; [ | intros response _ ].
    + unfold invoke.
      destruct (perform _ _) as [[x | e] w1]; cbn;
        (constructor; [ | constructor ]);
        (do 3 eexists; split; [ reflexivity | ]);
        (split; [ | split; [ reflexivity | ] ]).
      all: try (destruct Hname as [<- | (name & Hfst & Hin)];
                [ discriminate Hds_name
                | rewrite Hfst in Hds_name; cbn in Hds_name;
                  injection Hds_name as <-; exact Hin ]).
      all: intros Hmulti; rewrite Hmulti in Hparsing; cbn in Hparsing;
        now injection Hparsing as <-.
    + apply Forall_calls_bind;
        [ apply Forall_calls_silent; unfold data_source_of; quiet
        | intros created _ ].
      apply IH. exact Hname.
Qed.

(** ** The policies of the execution role *)

(** X15.  The list of policies of the execution role is defined for every
    instance: under the tests that append a policy, its document has been
    assigned.  The policies are those of the foundation models and of the
    logs, and one each for the buckets, the secrets, the Lambda function, data
    automation and the graph, in that order, where the instance has them. *)
Theorem execution_role_policies_are_defined (self : Attributes) (w : World) :
  exists policies,
    execution_role_policies self (secrets_arns self) w = (Ok policies, w, [])
    /\
    map fst policies
      = ([ fm_policy_name self; cw_log_policy_name self ]
           ++ (if truthy_list (bucket_names self)
               then [s3_policy_name self] else [])
           ++ (if truthy_list (secrets_arns self)
               then [sm_policy_name self] else [])
           ++ (if is_custom self then [lambda_policy_name self] else [])
           ++ (if multi_modal self then [bda_policy_name self] else [])
           ++ (if String.eqb (vector_store self) "NEPTUNE_ANALYTICS"
               then [neptune_policy_name self] else []))%list.
Proof.
  unfold execution_role_policies. cbv zeta.
  destruct (bucket_names self) as [ | b bs];
    destruct (secrets_arns self) as [ | s ss];
    destruct (is_custom self);
    destruct (multi_modal self);
    destruct (String.eqb (vector_store self) "NEPTUNE_ANALYTICS");
    cbn; eexists; split; reflexivity.
Qed.

(** ** Model identifiers and their ARNs *)

Lemma append_cancel (s a b : string) : (s ++ a = s ++ b)%string -> a = b.
Proof.
  induction s as [ | c s IH]; cbn; [ auto | ].
  intros [= H]. now apply IH.
Qed.

(** X16.  [_get_model_arn] tells models apart: for an account number that does
    not begin with a colon, two different model identifiers have different
    ARNs, whether they name foundation models or inference profiles. *)
Theorem model_arn_identifies_model (self : Attributes) (m m' : string) :
  String.get 0 (account_number self) <> Some ":"%char ->
  m <> m' ->
  _get_model_arn self m <> _get_model_arn self m'.
Proof.
  intros Haccount Hdifferent Harn. apply Hdifferent. revert Harn.
  unfold _get_model_arn, get_model_arn.
  destruct (existsb _ inference_profile_prefixes);
    destruct (existsb _ inference_profile_prefixes); intros H;
    apply (append_cancel "arn:aws:bedrock:") in H;
    apply append_cancel in H.
  - apply (append_cancel ":") in H. apply append_cancel in H.
    now apply (append_cancel ":inference-profile/") in H.
  - exfalso. apply (append_cancel ":") in H.
    destruct (account_number self) as [ | c rest]; cbn in H;
      [ inversion H | ].
    injection H as -> _. now apply Haccount.
  - exfalso. apply (append_cancel ":") in H.
    destruct (account_number self) as [ | c rest]; cbn in H;
      [ inversion H | ].
    injection H as <- _. now apply Haccount.
  - now apply (append_cancel "::foundation-model/") in H.
Qed.

(** ** Properties of traces that pass to concatenations *)

Section Holds.

Variable Q : list event -> Prop.
Hypothesis Q_nil : Q [].
Hypothesis Q_app : forall t1 t2, Q t1 -> Q t2 -> Q (t1 ++ t2)%list.

Lemma holds_bind {A B : Type} (m : M A) (k : A -> M B) :
  holds Q m -> (forall a, holds Q (k a)) -> holds Q (bind m k).
Proof.
  intros Hm Hk w. rewrite trace_bind. apply Q_app; [ apply Hm | ].
  destruct (outcome (m w)); [ apply Hk | apply Q_nil | apply Q_nil ].
Qed.

Lemma holds_try {A : Type} (m : M A) (h : exn -> M A) :
  holds Q m -> (forall e, holds Q (h e)) -> holds Q (try_ m h).
Proof.
  intros Hm Hh w. rewrite trace_try. apply Q_app; [ apply Hm | ].
  destruct (outcome (m w)); [ apply Q_nil | apply Hh | apply Q_nil ].
Qed.

Lemma holds_silent {A : Type} (m : M A) : silent m -> holds Q m.
Proof. intros H w. rewrite (silent_trace m w H). apply Q_nil. Qed.

Lemma holds_retrying {A : Type} (n : nat) (body : M A) :
  holds Q body -> holds Q (retrying n body).
Proof.
  intros Hbody. induction n as [ | n IH]; cbn [retrying];
    (apply holds_try; [ exact Hbody | intros e ]).
  - apply holds_silent, silent_raise.
  - exact IH.
Qed.

End Holds.

Lemma in_calls (c : call) (t : list event) :
  In c (calls t) <-> exists r, In (Called c r) t.
Proof.
  induction t as [ | [c' r' | line] t IH]; cbn.
  - split; [ intros [] | intros [r []] ].
  - rewrite IH. split.
    + intros [-> | [r Hr]]; [ exists r'; now left | exists r; now right ].
    + intros [r [[= -> ->] | Hr]]; [ now left | right; now exists r ].
  - rewrite IH. split.
    + intros [r Hr]. exists r. now right.
    + intros [r [[=] | Hr]]. now exists r.
Qed.

(** ** Policy versions *)

Lemma prunes_listed_versions_app (t1 t2 : list event) :
  prunes_listed_versions t1 -> prunes_listed_versions t2 ->
  prunes_listed_versions (t1 ++ t2).
Proof.
  intros H1 H2 p v Hin. rewrite calls_app in Hin.
  apply in_app_or in Hin.
  destruct Hin as [Hin | Hin];
    [ destruct (H1 p v Hin) as (vs & ver & Hl & Hrest)
    | destruct (H2 p v Hin) as (vs & ver & Hl & Hrest) ];
    exists vs, ver; (split; [ apply in_or_app; auto | exact Hrest ]).
Qed.

Lemma prunes_confined {A : Type} (m : M A) :
  confined (fun c => match c with
                     | DeletePolicyVersion _ _ => false
                     | _ => true
                     end) m ->
  holds prunes_listed_versions m.
Proof.
  intros H w p v Hin. specialize (H w). rewrite forallb_forall in H.
  now specialize (H _ Hin).
Qed.

Lemma trace_bind_ret {A B : Type} (a : A) (k : A -> M B) (w : World) :
  trace (bind (ret a) k w) = trace (k a w).
Proof. unfold bind, ret, trace. now destruct (k a w) as [[r w1] t]. Qed.

(** [delete_oldest_non_default] deletes one version, the first of the list
    that is not the default one, if there is one. *)
Lemma delete_oldest_non_default_calls (policy_arn : string)
    (versions : list policy_version) (w : World) :
  calls (trace (delete_oldest_non_default perform policy_arn versions w))
    = match find (fun v => negb (IsDefaultVersion v)) versions with
      | Some version =>
          [DeletePolicyVersion policy_arn (VersionId version)]
      | None => []
      end.
Proof.
  induction versions as [ | v rest IH];
    cbn [delete_oldest_non_default find]; [ reflexivity | ].
  destruct (negb (IsDefaultVersion v)); [ | exact IH ].
  unfold bind, invoke, ret, trace.
  destruct (perform _ w) as [[x | e] w1]; reflexivity.
Qed.

Lemma prunes_create_and_attach_policy (self : Attributes)
    (execution_role : response) (policy : string * policy_document) :
  holds prunes_listed_versions
    (create_and_attach_policy perform self execution_role policy).
Proof.
  pose proof prunes_listed_versions_app as Happ.
  assert (Hnil : prunes_listed_versions []) by (intros p v []).
  unfold create_and_attach_policy. destruct policy as [name document].
  apply holds_bind; [ exact Hnil | exact Happ | | ].
  2: { intros arn. apply prunes_confined. confine_code. }
  apply holds_try; [ exact Hnil | exact Happ | | ].
  { apply prunes_confined. confine_code. }
  intros e.
  apply holds_bind; [ exact Hnil | exact Happ | | ].
  { apply prunes_confined. confine_code. }
  intros arn.
  apply holds_bind; [ exact Hnil | exact Happ | | ].
  2: { intros _. apply prunes_confined. confine_code. }
  apply holds_try; [ exact Hnil | exact Happ | | ].
  2: { intros _. apply prunes_confined. confine_code. }
  apply holds_bind; [ exact Hnil | exact Happ | | ].
  2: { intros _. apply prunes_confined. confine_code. }
  apply holds_try; [ exact Hnil | exact Happ | | ].
  2: { intros _. apply prunes_confined. confine_code. }
  intros w p v Hin. rewrite trace_bind in *. rewrite calls_app in Hin.
  apply in_app_or in Hin. destruct Hin as [Hin | Hin].
  { exfalso. revert Hin. unfold invoke.
    destruct (perform _ w) as [[x | e'] w1]; cbn; intros [[=] | []]. }
  destruct (outcome (invoke perform (ListPolicyVersions arn) w))
    as [x | e' | ] eqn:Hlist; [ | destruct Hin | destruct Hin ].
  rewrite (invoke_trace _ _ _ Hlist).
  destruct x; try (cbn in Hin; destruct Hin).
  rewrite trace_bind_ret in Hin.
  destruct (Nat.leb 5 (List.length versions)) eqn:Hfive;
    [ | destruct Hin ].
  rewrite delete_oldest_non_default_calls in Hin.
  destruct (find _ versions) as [version | ] eqn:Hfind; [ | destruct Hin ].
  destruct Hin as [[= <- <-] | []].
  exists versions, version.
  split; [ now left | ].
  split; [ now apply Nat.leb_le | now split ].
Qed.

(** X17.  The execution role's policies are pruned with care: the
    constructor's role step deletes a policy version only after it listed the
    versions of that policy, found five of them or more, and then the first of
    the list that is not the default version. *)
Theorem policy_versions_are_pruned_from_the_list
    (self : Attributes) (secrets : list string) (w : World) :
  prunes_listed_versions
    (trace (create_bedrock_execution_role_multi_ds perform self secrets w)).
Proof.
  revert w. change (holds prunes_listed_versions
                      (create_bedrock_execution_role_multi_ds perform self
                         secrets)).
  pose proof prunes_listed_versions_app as Happ.
  assert (Hnil : prunes_listed_versions []) by (intros p v []).
  unfold create_bedrock_execution_role_multi_ds.
  apply holds_bind; [ exact Hnil | exact Happ | | intros policies ].
  { apply prunes_confined. unfold execution_role_policies. confine_code. }
  apply holds_bind; [ exact Hnil | exact Happ | | intros role ].
  { apply prunes_confined. confine_code. }
  apply holds_bind; [ exact Hnil | exact Happ | | intros _ ].
  2: { apply prunes_confined, confined_ret. }
  induction policies as [ | policy rest IH];
    cbn [create_and_attach_policies].
  - apply prunes_confined, confined_ret.
  - apply holds_bind; [ exact Hnil | exact Happ | | intros _; exact IH ].
    apply prunes_create_and_attach_policy.
Qed.

(** ** The buckets that the teardown deletes *)

Lemma deletes_listed_buckets_app (candidates : list string)
    (t1 t2 : list event) :
  deletes_listed_buckets candidates t1 ->
  deletes_listed_buckets candidates t2 ->
  deletes_listed_buckets candidates (t1 ++ t2).
Proof.
  intros H1 H2 b Hin. rewrite calls_app in Hin. apply in_app_or in Hin.
  destruct Hin as [Hin | Hin];
    [ destruct (H1 b Hin) as (Hc & (names & Hl & Hn) & x & y & Hx & Hy)
    | destruct (H2 b Hin) as (Hc & (names & Hl & Hn) & x & y & Hx & Hy) ];
    (split; [ exact Hc | split ]);
    [ exists names | exists x, y | exists names | exists x, y ];
    split; try apply in_or_app; auto.
Qed.

Lemma deletes_listed_delete_one_bucket (candidates : list string)
    (bucket_name : string) :
  In bucket_name candidates ->
  holds (deletes_listed_buckets candidates)
    (delete_one_bucket perform bucket_name).
Proof.
  intros Hcandidate w bucket.
  unfold delete_one_bucket, try_, bind, invoke, say, ret, raise, trace.
  destruct (perform ListBuckets w) as [[x | e] w1]; cbn;
    [ | intros [[=] | []] ].
  destruct x; cbn; try (intros [[=] | []]).
  destruct (str_in bucket_name names) eqn:Hlisted; cbn;
    [ | intros [[=] | []] ].
  apply str_in_In in Hlisted.
  destruct (perform (DeleteObjectVersions bucket_name) w1)
    as [[x1 | e1] w2]; cbn; [ | intros [[=] | [[=] | []]] ].
  destruct (perform (DeleteObjects bucket_name) w2)
    as [[x2 | e2] w3]; cbn; [ | intros [[=] | [[=] | [[=] | []]]] ].
  destruct (perform (DeleteBucket bucket_name) w3) as [[x3 | e3] w4]; cbn;
    (intros [[=] | [[=] | [[=] | [[= <-] | []]]]];
     split; [ exact Hcandidate | split ];
     [ exists names; split; [ now left | exact Hlisted ]
     | exists x1, x2; split; auto 10 ]).
Qed.

(** X18.  [delete_s3] deletes a bucket only if it is a bucket of the instance
    that the listing of the account's buckets returned, and after the deletion
    of its object versions and of its objects succeeded. *)
Theorem only_listed_buckets_are_deleted (self : Attributes) (w : World) :
  deletes_listed_buckets
    (bucket_names self
       ++ (if truthy_str (intermediate_bucket_name self)
           then [fmt (intermediate_bucket_name self)] else []))
    (trace (delete_s3 perform self w)).
Proof.
  revert w. unfold delete_s3.
  set (candidates := (bucket_names self ++ _)%list).
  change (holds (deletes_listed_buckets candidates)
            (delete_buckets perform candidates ;;
             say "======== S3 bucket deletion process completed =========")).
  assert (Hnil : deletes_listed_buckets candidates []) by (intros b []).
  pose proof (deletes_listed_buckets_app candidates) as Happ.
  apply holds_bind; [ exact Hnil | exact Happ | | ].
  2: { intros _ w b [] . }
  assert (Hloop :
            forall names,
              (forall b, In b names -> In b candidates) ->
              holds (deletes_listed_buckets candidates)
                (delete_buckets perform names)).
  { induction names as [ | b rest IH]; intros Hall; cbn [delete_buckets].
    - apply holds_silent; [ exact Hnil | apply silent_ret ].
    - apply holds_bind; [ exact Hnil | exact Happ | | intros _ ].
      + apply deletes_listed_delete_one_bucket, Hall. now left.
      + apply IH. intros b' Hb'. apply Hall. now right. }
  apply Hloop. auto.
Qed.

(** ** Policies: detached, then deleted *)

Lemma deletes_after_detach_app (previous : option call) (t1 t2 : list call) :
  deletes_after_detach previous t1 = true ->
  (forall p, deletes_after_detach p t2 = true) ->
  deletes_after_detach previous (t1 ++ t2) = true.
Proof.
  revert previous. induction t1 as [ | c t1 IH]; intros previous H1 H2;
    cbn [app deletes_after_detach] in *; [ apply H2 | ].
  apply andb_prop in H1. destruct H1 as [Hc Ht]. rewrite Hc. cbn.
  now apply IH.
Qed.

Lemma deletes_after_detach_confined {A : Type} (m : M A) :
  confined (fun c => match c with DeletePolicy _ => false | _ => true end) m ->
  forall w previous,
    deletes_after_detach previous (calls (trace (m w))) = true.
Proof.
  intros H w. specialize (H w).
  induction (calls (trace (m w))) as [ | c t IH]; intros previous;
    [ reflexivity | ].
  cbn in H. apply andb_prop in H. destruct H as [Hc Ht].
  cbn [deletes_after_detach]. rewrite (IH Ht).
  destruct c; try discriminate Hc; reflexivity.
Qed.

Lemma deletes_after_detach_bind {A B : Type} (m : M A) (k : A -> M B) :
  (forall w p, deletes_after_detach p (calls (trace (m w))) = true) ->
  (forall a w p, deletes_after_detach p (calls (trace (k a w))) = true) ->
  forall w p, deletes_after_detach p (calls (trace (bind m k w))) = true.
Proof.
  intros Hm Hk w p. rewrite trace_bind, calls_app.
  apply deletes_after_detach_app; [ apply Hm | intros p' ].
  destruct (outcome (m w)); [ apply Hk | reflexivity | reflexivity ].
Qed.

Lemma deletes_after_detach_policies (role_name : string)
    (attached : list attached_policy) (w : World) (previous : option call) :
  deletes_after_detach previous
    (calls (trace (detach_and_delete_policies perform role_name attached w)))
    = true.
Proof.
  revert w previous.
  induction attached as [ | policy rest IH]; intros w previous;
    cbn [detach_and_delete_policies]; [ reflexivity | ].
  cbv zeta. unfold bind at 1. unfold invoke at 1.
  destruct (perform (DetachRolePolicy _ _) w) as [[x | e] w1];
    [ | reflexivity ].
  unfold bind at 1. unfold say at 1.
  unfold bind at 1.
  destruct (second_segment (PolicyArn policy)) as [segment | ];
    [ | reflexivity ].
  unfold ret at 1. unfold bind at 1.
  destruct (String.eqb segment "service-role").
  - unfold say at 1.
    destruct (detach_and_delete_policies perform role_name rest w1)
      as [[r w2] t] eqn:Hrest.
    specialize (IH w1). rewrite Hrest in IH. cbn in *. apply IH.
  - unfold bind at 1. unfold invoke at 1.
    destruct (perform (DeletePolicy _) w1) as [[y | e] w2].
    + unfold say at 1.
      destruct (detach_and_delete_policies perform role_name rest w2)
        as [[r w3] t] eqn:Hrest.
      specialize (IH w2). rewrite Hrest in IH. cbn in *.
      rewrite String.eqb_refl. apply IH.
    + cbn. now rewrite String.eqb_refl.
Qed.

(** X19.  In the teardown a policy is deleted only right after it was detached
    from the role: every [delete_policy] call follows the [detach_role_policy]
    call for the same policy, with no other call in between. *)
Theorem policies_are_detached_then_deleted
    (self : Self) (s3 iam lam : bool) (w : World) :
  deletes_after_detach None
    (calls (trace (delete_kb perform self s3 iam lam w))) = true.
Proof.
  generalize (@None call) as previous. revert w.
  assert (Hother :
            forall c,
              service_of c <> "iam" ->
              match c with DeletePolicy _ => false | _ => true end = true)
    by (intros c Hc; destruct c; try reflexivity; now contradiction Hc).
  assert (Hservice :
            forall service c,
              service <> "iam" -> from_service service c = true ->
              match c with DeletePolicy _ => false | _ => true end = true).
  { intros service c Hs Hc. apply Hother. apply String.eqb_eq in Hc.
    now rewrite Hc. }
  unfold delete_kb.
  apply deletes_after_detach_bind; [ | intros _ ].
  { apply deletes_after_detach_confined, confined_delete_entity.
    intros c. apply Hservice. discriminate. }
  apply deletes_after_detach_bind; [ | intros _ ].
  { apply deletes_after_detach_confined.
    destruct s3; [ | apply confined_ret ].
    apply confined_delete_s3. intros c. apply Hservice. discriminate. }
  apply deletes_after_detach_bind; [ | intros _ ].
  { apply deletes_after_detach_confined,
      confined_delete_cloudwatch_log_group.
    intros c. apply Hservice. discriminate. }
  apply deletes_after_detach_bind; [ | intros _ ].
  { destruct iam;
      [ | apply deletes_after_detach_confined, confined_ret ].
    unfold delete_iam_roles_and_policies.
    apply deletes_after_detach_bind;
      [ | intros _; apply deletes_after_detach_confined, confined_say ].
    induction (roles self) as [ | role_name rest IH]; cbn [delete_roles].
    - apply deletes_after_detach_confined, confined_ret.
    - apply deletes_after_detach_bind; [ | intros _; exact IH ].
      unfold delete_one_role.
      apply deletes_after_detach_bind;
        [ apply deletes_after_detach_confined, confined_say | intros _ ].
      apply deletes_after_detach_bind;
        [ apply deletes_after_detach_confined; confine_code | intros found ].
      destruct found;
        [ | apply deletes_after_detach_confined, confined_ret ].
      apply deletes_after_detach_bind;
        [ apply deletes_after_detach_confined; confine_code | intros r ].
      apply deletes_after_detach_bind;
        [ apply deletes_after_detach_confined; confine_code
        | intros attached ].
      apply deletes_after_detach_bind;
        [ intros w p; apply deletes_after_detach_policies | intros _ ].
      apply deletes_after_detach_confined. confine_code. }
  apply deletes_after_detach_bind; [ | intros _ ].
  { apply deletes_after_detach_confined.
    destruct lam; [ | apply confined_ret ].
    apply confined_delete_lambda_block.
    intros c. apply Hservice. discriminate. }
  apply deletes_after_detach_confined, confined_delete_index.
  intros c [Hc | Hc]; (eapply Hservice; [ | exact Hc ]); discriminate.
Qed.

(** ** The ARNs of the policies, as the teardown reads them *)

Lemma split_on_nonempty (sep : ascii) (s : string) : split_on sep s <> [].
Proof.
  destruct s as [ | c s]; cbn; [ discriminate | ].
  destruct (Ascii.eqb c sep); [ discriminate | ].
  destruct (split_on sep s); discriminate.
Qed.

Lemma no_slash_tail (c : ascii) (s : string) :
  no_slash (String c s) -> c <> "/"%char /\ no_slash s.
Proof.
  intros H. split.
  - intros ->. now apply (H 0).
  - intros n. apply (H (S n)).
Qed.

Lemma split_on_prefix (s t : string) :
  no_slash s ->
  split_on "/" (s ++ t)
    = match split_on "/" t with
      | [] => [s]
      | first :: others => (s ++ first)%string :: others
      end.
Proof.
  induction s as [ | c s IH]; intros Hs; cbn [append split_on].
  - destruct (split_on "/" t) eqn:Ht; [ | reflexivity ].
    now destruct (split_on_nonempty "/" t).
  - apply no_slash_tail in Hs. destruct Hs as [Hc Hs].
    apply Ascii.eqb_neq in Hc. rewrite Hc, (IH Hs).
    destruct (split_on "/" t) as [ | first others] eqn:Ht;
      [ now destruct (split_on_nonempty "/" t) | reflexivity ].
Qed.

Lemma no_slash_checked (s : string) :
  forallb (fun c => negb (Ascii.eqb c "/")) (list_ascii_of_string s) = true ->
  no_slash s.
Proof.
  induction s as [ | c s IH]; cbn [list_ascii_of_string forallb].
  - intros _ n. destruct n; discriminate.
  - intros H. apply andb_true_iff in H. destruct H as [Hc Hs].
    intros [ | n]; cbn [String.get].
    + intros [= ->]. discriminate.
    + now apply IH.
Qed.

Lemma split_on_no_slash (s : string) : no_slash s -> split_on "/" s = [s].
Proof.
  intros Hs. pose proof (split_on_prefix s EmptyString Hs) as H.
  assert (Hnil : (s ++ EmptyString)%string = s).
  { clear. induction s as [ | c s IH]; cbn;
      [ reflexivity | now rewrite IH ]. }
  cbn [split_on] in H. now rewrite Hnil in H.
Qed.

(** X20.  The teardown tells the policies of the account from the policies
    that AWS manages by the second segment of the ARN: for a policy that the
    constructor created, [arn:aws:iam::<account>:policy/<name>], that segment
    is the name of the policy, so that the policy is deleted unless its name
    is [service-role]; for [AWSLambdaBasicExecutionRole], which the role of
    the Lambda function has attached, it is [service-role]. *)
Theorem policy_arn_second_segment (self : Attributes) (name : string) :
  no_slash (account_number self) -> no_slash name ->
  second_segment (own_policy_arn self name) = Some name /\
  deletes_service_role_policy (DeletePolicy (own_policy_arn self name))
    = String.eqb name "service-role" /\
  deletes_service_role_policy (DeletePolicy basic_execution_policy_arn)
    = true.
Proof.
  intros Haccount Hname.
  assert (Hsegment : second_segment (own_policy_arn self name) = Some name).
  { unfold second_segment, own_policy_arn.
    assert (Hprefix : no_slash "arn:aws:iam::").
    { intros n. do 14 (destruct n as [ | n]; [ discriminate | ]).
      discriminate. }
    assert (Hpolicy : no_slash ":policy").
    { intros n. do 8 (destruct n as [ | n]; [ discriminate | ]).
      discriminate. }
    rewrite (split_on_prefix _ _ Hprefix), (split_on_prefix _ _ Haccount).
    change (":policy/" ++ name)%string with (":policy" ++ "/" ++ name)%string.
    rewrite (split_on_prefix _ _ Hpolicy).
    cbn [append split_on]. cbn [Ascii.eqb Bool.eqb].
    rewrite (split_on_no_slash _ Hname). reflexivity. }
  split; [ exact Hsegment | split; [ | reflexivity ] ].
  cbn [deletes_service_role_policy]. now rewrite Hsegment.
Qed.

(** ** The collection *)

Lemma wait_collection_result (fuel : nat) (self : Attributes)
    (r : response) (w : World) :
  outcome (wait_collection perform fuel self r w) = Ok tt ->
  exists d rest,
    (r = CollectionDetails (d :: rest) \/
     In (Called (BatchGetCollection (vector_store_name self))
           (Returns (CollectionDetails (d :: rest))))
       (trace (wait_collection perform fuel self r w))) /\
    collection_status d <> "CREATING".
Proof.
  revert r w. induction fuel as [ | fuel IH]; intros r w;
    cbn [wait_collection]; intros Hok; unbind Hok.
  - match goal with
    | H : outcome (collection_details_of r _) = Ok ?l |- _ =>
        destruct r; try discriminate H; cbn in H; injection H as <-
    end.
    match goal with
    | H : outcome (first ?l _) = Ok ?d |- _ =>
        destruct l as [ | d' rest]; [ discriminate H | ];
        cbn in H; injection H as <-
    end.
    destruct (String.eqb_spec (collection_status d') "CREATING");
      [ discriminate Hok | ].
    exists d', rest. split; [ now left | assumption ].
  - match goal with
    | H : outcome (collection_details_of r _) = Ok ?l |- _ =>
        destruct r; try discriminate H; cbn in H; injection H as <-
    end.
    match goal with
    | H : outcome (first ?l _) = Ok ?d |- _ =>
        destruct l as [ | d' rest]; [ discriminate H | ];
        cbn in H; injection H as <-
    end.
    destruct (String.eqb_spec (collection_status d') "CREATING");
      [ | exists d', rest; split; [ now left | assumption ] ].
    unbind Hok.
    match goal with
    | H : outcome (wait_collection _ _ _ ?r' _) = Ok ?u |- _ =>
        destruct u; destruct (IH _ _ H) as (d & rest' & [-> | Hin] & Hst);
        exists d, rest'; (split; [ right | exact Hst ])
    end.
    + match goal with
      | H : outcome (invoke perform _ _) = Ok _ |- _ =>
          apply invoke_returns in H; find_in H
      end.
    + find_in Hin.
Qed.

(** X21.  [create_oss] returns the collection that was created, or the first
    one that [batch_get_collection] returned when the creation met a conflict,
    with the host name made of its id and of the region; and it returns only
    after a [batch_get_collection] that no longer reports the collection as
    [CREATING]. *)
Theorem collection_is_created_or_retrieved
    (fuel : nat) (self : Self) (w : World) (h id arn : string) :
  let run := create_oss perform fuel self w in
  let name := vector_store_name self in
  outcome run = Ok (h, id, arn) ->
  h = (id ++ "." ++ region_name self ++ ".aoss.amazonaws.com")%string /\
  (In (Called (CreateCollection name)
         (Returns (CreateCollectionDetail id arn))) (trace run) \/
   exists d rest,
     In (Called (BatchGetCollection name)
           (Returns (CollectionDetails (d :: rest)))) (trace run) /\
     id = collection_id_of d /\ arn = collection_arn_of d) /\
  (exists d rest,
     In (Called (BatchGetCollection name)
           (Returns (CollectionDetails (d :: rest)))) (trace run) /\
     collection_status d <> "CREATING").
Proof.
  intros run name Hok. subst run name. unfold create_oss in *.
  cbv zeta in *. unbind Hok. cbn in Hok. injection Hok as <- <- <-.
  split; [ reflexivity | split ].
  - match goal with
    | H : outcome (try_ (bind (invoke perform (CreateCollection _)) _) _ _)
          = Ok _ |- _ =>
        apply try_returns in H;
        destruct H as [[Hbody Ht] | (e & _ & Hh & Ht)]; rewrite Ht
    end.
    + left. unbind Hbody.
      match goal with
      | H : outcome (match ?x with _ => _ end _) = Ok _ |- _ =>
          destruct x; try discriminate H; cbn in H; injection H as <- <-
      end.
      match goal with
      | H : outcome (invoke perform _ _) = Ok _ |- _ =>
          apply invoke_returns in H; find_in H
      end.
    + right. destruct (is_ConflictException e); [ | discriminate Hh ].
      unbind Hh. cbn in Hh. injection Hh as <- <-.
      match goal with
      | H : outcome (collection_details_of ?x _) = Ok ?l |- _ =>
          destruct x; try discriminate H; cbn in H; injection H as <-
      end.
      match goal with
      | H : outcome (first ?l _) = Ok ?d |- _ =>
          destruct l as [ | d' rest]; [ discriminate H | ];
          cbn in H; injection H as <-
      end.
      exists d', rest. split; [ | split; reflexivity ].
      match goal with
      | H : outcome (invoke perform _ _) = Ok _ |- _ =>
          apply invoke_returns in H; find_in H
      end.
  - match goal with
    | H : outcome (wait_collection _ _ _ ?r ?w0) = Ok ?u |- _ =>
        destruct u;
        destruct (wait_collection_result _ _ _ _ H)
          as (d & rest & [Hr | Hin] & Hst);
        exists d, rest; (split; [ | exact Hst ])
    end.
    + subst.
      match goal with
      | H : outcome (invoke perform (BatchGetCollection _) _)
            = Ok (CollectionDetails (d :: rest)) |- _ =>
          apply invoke_returns in H; find_in H
      end.
    + find_in Hin.
Qed.

(** ** Descriptors without a type *)

Lemma s3_bucket_names_raises (l : list descriptor) (w : World) :
  (exists d, In d l /\ dict_get (scalars d) "type" = None) ->
  exists k, s3_bucket_names l w = (Raise (KeyError k), w, []).
Proof.
  intros (d & Hin & Htype).
  induction l as [ | d0 rest IH]; [ destruct Hin | ].
  cbn [s3_bucket_names]. unfold item, bind.
  destruct (dict_get (scalars d0) "type") as [t | ] eqn:Ht0; cbn;
    [ | eauto ].
  assert (Hrest : In d rest).
  { destruct Hin as [-> | Hin]; [ congruence | exact Hin ]. }
  destruct (IH Hrest) as [k Hk].
  destruct (String.eqb t "S3"); [ | rewrite Hk; eauto ].
  destruct (dict_get (scalars d0) "bucket_name"); cbn; [ | eauto ].
  rewrite Hk. eauto.
Qed.

Lemma read_attributes_rejects (args : Args) (w : World)
    (l : list descriptor) (a : Attributes) :
  arg_data_sources args = Some l ->
  (exists d, In d l /\ dict_get (scalars d) "type" = None) ->
  outcome (read_attributes perform session_region_name args w) <> Ok a.
Proof.
  intros Hl Hbad Hok. unfold read_attributes in Hok. rewrite Hl in Hok.
  unbind Hok.
  match goal with
  | H : outcome (ret l _) = Ok ?l' |- _ => cbn in H; injection H as <-
  end.
  match goal with
  | H : outcome (s3_bucket_names l ?w0) = Ok _ |- _ =>
      destruct (s3_bucket_names_raises l w0 Hbad) as [k Hk];
      rewrite Hk in H; discriminate H
  end.
Qed.

Lemma read_attributes_key_error (args : Args) (w w1 w2 : World)
    (l : list descriptor) (account arn account' arn' : string) :
  arg_data_sources args = Some l ->
  (exists d, In d l /\ dict_get (scalars d) "type" = None) ->
  perform GetCallerIdentity w = (Returns (CallerIdentity account arn), w1) ->
  perform GetCallerIdentity w1
    = (Returns (CallerIdentity account' arn'), w2) ->
  exists k,
    outcome (read_attributes perform session_region_name args w)
      = Raise (KeyError k).
Proof.
  intros Hl Hbad H1 H2.
  destruct (s3_bucket_names_raises l w2 Hbad) as [k Hk]. exists k.
  unfold read_attributes, caller_account, caller_arn, outcome, bind, invoke.
  rewrite H1. cbn. rewrite H2. cbn. rewrite Hl. cbn. now rewrite Hk.
Qed.

(** X22.  A data-source descriptor needs its [type]: when a descriptor of the
    [data_sources] argument has none, the constructor raises in every run,
    having called nothing but the identity service; when the two identity
    lookups succeed what it raises is a [KeyError], before the models are
    validated. *)
Theorem descriptor_type_is_required
    (fuel : nat) (args : Args) (w : World) (l : list descriptor) :
  arg_data_sources args = Some l ->
  (exists d, In d l /\ dict_get (scalars d) "type" = None) ->
  let run := __init__ perform session_region_name fuel args w in
  (exists e, outcome run = Raise e) /\
  Forall (eq GetCallerIdentity) (calls (trace run)) /\
  (forall account arn w1 account' arn' w2,
     perform GetCallerIdentity w
       = (Returns (CallerIdentity account arn), w1) ->
     perform GetCallerIdentity w1
       = (Returns (CallerIdentity account' arn'), w2) ->
     exists k, outcome run = Raise (KeyError k)).
Proof.
  intros Hl Hbad run. subst run.
  pose proof (read_attributes_run args w) as (Hcalls & Hhalts & _).
  cbv zeta in Hcalls, Hhalts.
  pose proof (fun a => read_attributes_rejects args w l a Hl Hbad) as Hrej.
  pose proof (fun account arn w1 account' arn' w2 =>
                read_attributes_key_error args w w1 w2 l account arn
                  account' arn' Hl Hbad) as Hkey.
  unfold __init__, initial_attributes.
  rewrite !trace_bind, !outcome_bind.
  destruct (outcome (read_attributes perform session_region_name args w))
    as [a | e | ] eqn:Hread;
    [ now destruct (Hrej a) | | contradiction ].
  rewrite !app_nil_r.
  split; [ now exists e | split; [ exact Hcalls | ] ].
  intros account arn w1 account' arn' w2 H1 H2.
  destruct (Hkey _ _ _ _ _ _ H1 H2) as [k [= ->]]. now exists k.
Qed.

(** ** Ingestion: one job per data source at most *)

Lemma confined_poll_ingestion_job (fuel : nat) (kb_id ds_id : string)
    (job : ingestion_job) :
  confined (fun c => match c with GetIngestionJob _ _ _ => true
                             | _ => false end)
    (poll_ingestion_job perform fuel kb_id ds_id job).
Proof.
  revert job. induction fuel as [ | fuel IH]; intros job;
    cbn [poll_ingestion_job].
  - confine_code.
  - pose proof IH as Hpoll. confine_code. apply Hpoll.
Qed.

(** X23.  [start_ingestion_job] starts one ingestion job per data source at
    most, and calls the Bedrock agent service only. *)
Theorem ingestion_starts_one_job_per_data_source
    (fuel : nat) (self : Self) (w : World) :
  let t := trace (start_ingestion_job perform fuel self w) in
  count_calls is_start_ingestion_job t <= List.length (data_sources self) /\
  Forall (fun c => service_of c = "bedrock-agent") (calls t).
Proof.
  intros t. subst t. unfold start_ingestion_job. split.
  - assert (Hloop :
              forall descriptors idx,
                bounded is_start_ingestion_job (List.length descriptors)
                  (ingest_from perform fuel self idx descriptors));
      [ | apply Hloop ].
    induction descriptors as [ | d rest IH]; intros idx;
      cbn [ingest_from List.length].
    + apply bounded_confined, confined_ret.
    + apply (bounded_bind _ 1 (List.length rest));
        [ | intros _; apply IH ].
      unfold ingest_guarded.
      apply bounded_try_body;
        [ | intros e; apply bounded_confined; confine_code ].
      unfold ingest_one.
      apply (bounded_bind _ 0 1);
        [ apply bounded_confined; confine_code | intros kb ].
      apply (bounded_bind _ 0 1);
        [ apply bounded_confined; confine_code | intros created ].
      apply (bounded_bind _ 0 1);
        [ apply bounded_confined; confine_code | intros ds ].
      apply (bounded_bind _ 1 0); [ apply bounded_invoke | intros r ].
      apply bounded_confined.
      apply confined_bind; [ confine_code | intros job ].
      apply confined_bind; [ apply confined_say | intros _ ].
      apply confined_bind; [ | intros _; apply confined_ret ].
      eapply confined_weaken; [ | apply confined_poll_ingestion_job ].
      intros c Hc. destruct c; try discriminate Hc; reflexivity.
  - eapply Forall_impl;
      [ | apply (confined_Forall (from_service "bedrock-agent")) ].
    + intros c Hc. now apply String.eqb_eq in Hc.
    + generalize 0 as idx.
      induction (data_sources self) as [ | d rest IH]; intros idx;
        cbn [ingest_from].
      * apply confined_ret.
      * apply confined_bind; [ | intros _; apply IH ].
        unfold ingest_guarded, ingest_one.
        apply confined_try; [ | intros e; confine_code ].
        apply confined_bind; [ confine_code | intros kb ].
        apply confined_bind; [ confine_code | intros created ].
        apply confined_bind; [ confine_code | intros ds ].
        apply confined_bind; [ confine_code | intros r ].
        apply confined_bind; [ confine_code | intros job ].
        apply confined_bind; [ apply confined_say | intros _ ].
        apply confined_bind; [ | intros _; apply confined_ret ].
        eapply confined_weaken; [ | apply confined_poll_ingestion_job ].
        intros c Hc. destruct c; try discriminate Hc; reflexivity.
Qed.

End Properties.

(** * Checked traces *)

Lemma answered_In (concerned : call -> bool) (expected : reply -> bool)
    (t : list event) (c : call) (rep : reply) :
  answered concerned expected t = true ->
  In (Called c rep) t -> concerned c = true -> expected rep = true.
Proof.
  unfold answered. rewrite forallb_forall. intros Hall Hin Hc.
  specialize (Hall _ Hin). cbn in Hall. now rewrite Hc in Hall.
Qed.

Lemma raised_inv (P : exn -> bool) (rep : reply) :
  raised P rep = true -> exists e, rep = Raises e /\ P e = true.
Proof.
  destruct rep as [r | e]; cbn; [ discriminate | ].
  intros H. now exists e.
Qed.

Lemma connectors_conflict_checked (t : list event) :
  answered is_create_data_source (raised is_ConflictException) t = true ->
  connectors_conflict t.
Proof.
  intros H c rep Hin Hc. apply raised_inv.
  exact (answered_In _ _ _ _ _ H Hin Hc).
Qed.

Lemma index_exists_checked (t : list event) :
  answered is_indices_create (raised (fun _ => true)) t = true ->
  index_exists t.
Proof.
  intros H h i d rep Hin.
  destruct (raised_inv _ _ (answered_In _ _ _ _ _ H Hin eq_refl))
    as (e & -> & _).
  now exists e.
Qed.

Lemma roles_found_absent_checked (t : list event) :
  answered is_get_role (raised is_NoSuchEntityException) t = true ->
  roles_found_absent t.
Proof.
  intros H r rep Hin. apply raised_inv.
  exact (answered_In _ _ _ _ _ H Hin eq_refl).
Qed.

(** * Runs in the mock cloud *)

Module Runs.

Import MockCloud Examples.

(** The first construction returns the instance [demo_self]; the second,
    with the same arguments, raises at the creation of the vector index. *)
Lemma second_construction_raises :
  outcome first_run = Ok demo_self /\
  outcome second_run = Raise (RequestError "resource_already_exists_exception").
Proof. split; vm_compute; reflexivity. Qed.

Lemma existing_index_stops_provisioning_witness :
  arg_vector_store demo_args = "OPENSEARCH_SERVERLESS" /\
  index_exists (trace second_run) /\
  forall self, outcome second_run <> Ok self.
Proof.
  assert (Hstore : arg_vector_store demo_args = "OPENSEARCH_SERVERLESS")
    by reflexivity.
  assert (Hindex : index_exists (trace second_run))
    by (apply index_exists_checked; vm_compute; reflexivity).
  split; [ exact Hstore | split; [ exact Hindex | ] ].
  exact (existing_index_stops_provisioning cloud MockCloud.perform region 5
           demo_args provisioned Hstore Hindex).
Defined.

(** On the provisioned cloud the connector exists: [create_knowledge_base]
    adopts the knowledge base, meets the conflict on the connector at each
    of its seven attempts, and raises. *)
Lemma existing_connector_raises :
  outcome (create_knowledge_base MockCloud.perform demo_self provisioned)
    = Raise (UnboundLocalError "ds_list") /\
  length (filter is_create_data_source
            (calls (trace (create_knowledge_base MockCloud.perform demo_self
                             provisioned)))) = 7.
Proof. split; vm_compute; reflexivity. Qed.

Lemma connector_conflict_is_not_adopted_witness :
  data_sources demo_self <> [] /\
  connectors_conflict
    (trace (create_knowledge_base MockCloud.perform demo_self provisioned)) /\
  forall r,
    outcome (create_knowledge_base MockCloud.perform demo_self provisioned)
      <> Ok r.
Proof.
  assert (Hsources : data_sources demo_self <> []) by discriminate.
  assert (Hconflict :
            connectors_conflict
              (trace (create_knowledge_base MockCloud.perform demo_self
                        provisioned)))
    by (apply connectors_conflict_checked; vm_compute; reflexivity).
  split; [ exact Hsources | split; [ exact Hconflict | ] ].
  exact (connector_conflict_is_not_adopted cloud MockCloud.perform demo_self
           provisioned Hsources Hconflict).
Defined.



Lemma embedding_dimensions_lookup_witness :
  (exists d,
     dict_get embedding_context_dimensions (embedding_model demo_attributes)
       = Some d /\
     _get_embedding_dimensions demo_attributes empty = (Ok d, empty, [])) /\
  _get_embedding_dimensions
    (make_attributes region account caller unknown_model_args [] [] []) empty
    = (Raise (ValueError (dimensions_undefined_message "acme.embed-v0")),
       empty, []).
Proof.
  split.
  - apply (proj1 (embedding_dimensions_lookup cloud demo_attributes empty)).
    vm_compute. tauto.
  - apply (proj2 (embedding_dimensions_lookup cloud
                    (make_attributes region account caller unknown_model_args
                       [] [] []) empty)).
    reflexivity.
Defined.

Lemma dimensions_ignore_multimodal_flag_witness :
  dict_get embedding_context_dimensions (embedding_model demo_attributes)
    = Some 1024%Z /\
  _get_embedding_dimensions demo_attributes empty = (Ok 1024%Z, empty, []).
Proof.
  assert (Hentry :
            dict_get embedding_context_dimensions
              (embedding_model demo_attributes) = Some 1024%Z)
    by reflexivity.
  split; [ exact Hentry | ].
  exact (proj1 (dimensions_ignore_multimodal_flag cloud demo_attributes
                  1024%Z empty Hentry)).
Defined.




Lemma taken_bucket_name_is_fatal_witness :
  In (Called (CreateBucket "demo-docs" (Some "us-west-2"))
        (Raises (ClientError "BucketAlreadyExists" "CreateBucket"
                   "The requested bucket name is not available.")))
    (trace (create_s3_bucket MockCloud.perform demo_attributes squatted)) /\
  outcome (create_s3_bucket MockCloud.perform demo_attributes squatted)
    = Raise (ValueError (bucket_taken_message "demo-docs")).
Proof.
  assert (Hcalled :
            In (Called (CreateBucket "demo-docs" (Some "us-west-2"))
                  (Raises (ClientError "BucketAlreadyExists" "CreateBucket"
                             "The requested bucket name is not available.")))
              (trace (create_s3_bucket MockCloud.perform demo_attributes
                        squatted)))
    by (vm_compute; tauto).
  split; [ exact Hcalled | ].
  exact (proj1 (proj1 (taken_bucket_name_is_fatal cloud MockCloud.perform
                         demo_attributes squatted "demo-docs"
                         (Some "us-west-2") _ Hcalled)
                  eq_refl)).
Defined.



(** In the mock cloud a started job leaves two polls in progress, and each
    poll in progress uses one of them. *)
Lemma mock_start_bounded (w : cloud) (kb_id ds_id : string) (r : response)
    (w' : cloud) :
  MockCloud.perform (StartIngestionJob kb_id ds_id) w = (Returns r, w') ->
  pending w' <= 2.
Proof.
  cbn [MockCloud.perform]. unfold starting, lookup, ok, error.
  destruct (has "data-source" ds_id w); intros [= <- <-]. cbn. lia.
Qed.

Lemma mock_poll_progresses (w : cloud) (kb_id ds_id job_id : string)
    (j : ingestion_job) (w' : cloud) :
  MockCloud.perform (GetIngestionJob kb_id ds_id job_id) w
    = (Returns (IngestionJobResponse j), w') ->
  str_in (status j) terminal_statuses = true \/ pending w' < pending w.
Proof.
  cbn [MockCloud.perform]. unfold poll, ok, error.
  destruct (has "data-source" ds_id w); [ | discriminate ].
  destruct (pending w) as [ | n] eqn:Hp; intros [= <- <-].
  - left. reflexivity.
  - right. cbn. lia.
Qed.

Lemma ingestion_isolates_failures_witness :
  knowledge_base partly_missing_self = Some (kb_of "product-reviews-kb") /\
  data_source partly_missing_self
    = Some [ {| dataSourceId := "DS-KB-product-reviews-kb-gone" |};
             {| dataSourceId := "DS-KB-product-reviews-kb-s3" |} ] /\
  2 < 3 /\
  In (Called
        (StartIngestionJob "KB-product-reviews-kb"
           "DS-KB-product-reviews-kb-gone")
        (Raises (ClientError "ResourceNotFoundException" "StartIngestionJob"
                   "DS-KB-product-reviews-kb-gone not found.")))
    (trace (start_ingestion_job MockCloud.perform 3 partly_missing_self
              provisioned)) /\
  outcome (start_ingestion_job MockCloud.perform 3 partly_missing_self
             provisioned) = Ok tt /\
  starts (trace (start_ingestion_job MockCloud.perform 3 partly_missing_self
                   provisioned))
    = [ StartIngestionJob "KB-product-reviews-kb"
          "DS-KB-product-reviews-kb-gone";
        StartIngestionJob "KB-product-reviews-kb"
          "DS-KB-product-reviews-kb-s3" ] /\
  polled_to_end None
    (trace (start_ingestion_job MockCloud.perform 3 partly_missing_self
              provisioned)) = true /\
  reported true
    (trace (start_ingestion_job MockCloud.perform 3 partly_missing_self
              provisioned)) = true.
Proof.
  assert (Hfuel : 2 < 3) by lia.
  split; [ reflexivity | split; [ reflexivity | split; [ exact Hfuel | ] ] ].
  split; [ vm_compute; in_list | ].
  exact (proj2 (ingestion_isolates_failures cloud MockCloud.perform)
           pending 2 mock_start_bounded mock_poll_progresses
           3 partly_missing_self provisioned (kb_of "product-reviews-kb")
           [ {| dataSourceId := "DS-KB-product-reviews-kb-gone" |};
             {| dataSourceId := "DS-KB-product-reviews-kb-s3" |} ]
           eq_refl eq_refl eq_refl Hfuel).
Defined.

End Runs.

(** * Further runs in the mock cloud *)

Module FurtherRuns.

Import MockCloud Examples Variants.

(** With a graph as the vector store the constructor leaves the search
    service alone. *)
Lemma constructor_provisions_one_backend_witness :
  arg_vector_store neptune_args <> "OPENSEARCH_SERVERLESS" /\
  Forall (fun c => service_of c <> "opensearchserverless" /\
                   service_of c <> "opensearch")
    (calls (trace (__init__ MockCloud.perform region 5 neptune_args empty))).
Proof.
  assert (Hstore : arg_vector_store neptune_args <> "OPENSEARCH_SERVERLESS")
    by discriminate.
  split; [ exact Hstore | ].
  pose proof (constructor_provisions_one_backend cloud MockCloud.perform
                region 5 neptune_args empty) as H.
  cbv zeta in H. destruct H as (_ & H & _). exact (H Hstore).
Defined.

(** A teardown of the knowledge base alone. *)
Lemma teardown_respects_flags_witness :
  Forall (fun c => service_of c <> "s3")
    (calls (trace (delete_kb MockCloud.perform demo_self false false false
                     provisioned))) /\
  Forall (fun c => service_of c <> "iam")
    (calls (trace (delete_kb MockCloud.perform demo_self false false false
                     provisioned))) /\
  Forall (fun c => service_of c <> "lambda")
    (calls (trace (delete_kb MockCloud.perform demo_self false false false
                     provisioned))).
Proof.
  pose proof (teardown_respects_flags cloud MockCloud.perform demo_self
                false false false provisioned) as H.
  cbv zeta in H. destruct H as (Hs3 & Hiam & Hlambda).
  split; [ exact (Hs3 eq_refl) | split ];
    [ exact (Hiam eq_refl) | exact (Hlambda eq_refl) ].
Defined.

(** In the empty cloud the bucket of the lab is missing and is created in
    the region of the session. *)
Lemma buckets_are_created_only_when_missing_witness :
  In (CreateBucket "demo-docs" (Some "us-west-2"))
    (calls (trace (create_s3_bucket MockCloud.perform demo_attributes
                     empty))) /\
  In (Some "demo-docs") (buckets_to_check demo_attributes) /\
  forall x,
    ~ In (Called (HeadBucket "demo-docs") (Returns x))
        (trace (create_s3_bucket MockCloud.perform demo_attributes empty)).
Proof.
  assert (Hcreated :
            In (CreateBucket "demo-docs" (Some "us-west-2"))
              (calls (trace (create_s3_bucket MockCloud.perform
                               demo_attributes empty))))
    by (vm_compute; in_list).
  split; [ exact Hcreated | ].
  pose proof (buckets_are_created_only_when_missing cloud MockCloud.perform
                demo_attributes empty "demo-docs" (Some "us-west-2")) as H.
  cbv zeta in H. destruct (H Hcreated) as (Hchecked & Hmissing & _).
  split; [ exact Hchecked | exact Hmissing ].
Defined.

(** On the provisioned cloud the log group exists and is reused. *)
Lemma log_group_is_created_or_reused_witness :
  (forall e,
     fst (MockCloud.perform (CreateLogGroup (log_group_name demo_attributes))
            provisioned) = Raises e ->
     is_ResourceAlreadyExistsException e = true) /\
  outcome (create_cloudwatch_log_group MockCloud.perform demo_attributes
             provisioned) = Ok tt.
Proof.
  assert (Hexists :
            forall e,
              fst (MockCloud.perform
                     (CreateLogGroup (log_group_name demo_attributes))
                     provisioned) = Raises e ->
              is_ResourceAlreadyExistsException e = true).
  { intros e H. vm_compute in H. injection H as <-. reflexivity. }
  split; [ exact Hexists | ].
  pose proof (log_group_is_created_or_reused cloud MockCloud.perform
                demo_attributes provisioned) as H.
  cbv zeta in H. destruct H as (_ & H). exact (proj1 (H Hexists)).
Defined.

(** The connector of the lab, created in the empty cloud. *)
Lemma data_sources_are_created_in_order_witness :
  outcome (create_data_sources MockCloud.perform demo_self
             "KB-product-reviews-kb" [demo_descriptor] empty)
    = Ok [ {| dataSourceId := "DS-KB-product-reviews-kb-s3" |} ] /\
  count_calls is_create_data_source
    (trace (create_data_sources MockCloud.perform demo_self
              "KB-product-reviews-kb" [demo_descriptor] empty))
    = List.length [demo_descriptor].
Proof.
  assert (Hok :
            outcome (create_data_sources MockCloud.perform demo_self
                       "KB-product-reviews-kb" [demo_descriptor] empty)
              = Ok [ {| dataSourceId := "DS-KB-product-reviews-kb-s3" |} ])
    by (vm_compute; reflexivity).
  split; [ exact Hok | ].
  pose proof (data_sources_are_created_in_order cloud MockCloud.perform
                demo_self "KB-product-reviews-kb" [demo_descriptor] empty
                [ {| dataSourceId := "DS-KB-product-reviews-kb-s3" |} ]) as H.
  cbv zeta in H. destruct (H Hok) as (_ & _ & Hcount). exact Hcount.
Defined.

(** The instance of the first construction. *)
Lemma constructed_instance_is_complete_witness :
  outcome (__init__ MockCloud.perform region 5 demo_args empty)
    = Ok demo_self /\
  arg_data_sources demo_args = Some (data_sources demo_self).
Proof.
  assert (Hok :
            outcome (__init__ MockCloud.perform region 5 demo_args empty)
              = Ok demo_self)
    by (vm_compute; reflexivity).
  split; [ exact Hok | ].
  pose proof (constructed_instance_is_complete cloud MockCloud.perform region
                5 demo_args empty demo_self) as H.
  cbv zeta in H. exact (proj1 (H Hok)).
Defined.

(** A construction without the list of data sources. *)
Lemma constructor_requires_data_sources_witness :
  arg_data_sources no_sources_args = None /\
  Forall (eq GetCallerIdentity)
    (calls (trace (__init__ MockCloud.perform region 5 no_sources_args
                     empty))) /\
  outcome (__init__ MockCloud.perform region 5 no_sources_args empty)
    = Raise (TypeError "'NoneType' object is not iterable").
Proof.
  assert (Hnone : arg_data_sources no_sources_args = None) by reflexivity.
  split; [ exact Hnone | ].
  pose proof (constructor_requires_data_sources cloud MockCloud.perform
                region 5 no_sources_args empty Hnone) as H.
  cbv zeta in H. destruct H as (_ & Hcalls & Herror).
  split; [ exact Hcalls | ].
  apply (Herror account caller empty account caller empty); reflexivity.
Defined.

(** Multimodal mode without a parser. *)
Lemma multimodal_construction_needs_parser_witness :
  arg_multi_modal parserless_multimodal_args = true /\
  arg_parser parserless_multimodal_args <> Some "BEDROCK_FOUNDATION_MODEL" /\
  arg_parser parserless_multimodal_args <> Some "BEDROCK_DATA_AUTOMATION" /\
  arg_data_sources parserless_multimodal_args <> Some [] /\
  forall self,
    outcome (__init__ MockCloud.perform region 5 parserless_multimodal_args
               empty) <> Ok self.
Proof.
  assert (Hmulti : arg_multi_modal parserless_multimodal_args = true)
    by reflexivity.
  assert (Hfm : arg_parser parserless_multimodal_args
                  <> Some "BEDROCK_FOUNDATION_MODEL") by discriminate.
  assert (Hbda : arg_parser parserless_multimodal_args
                   <> Some "BEDROCK_DATA_AUTOMATION") by discriminate.
  assert (Hsources : arg_data_sources parserless_multimodal_args <> Some [])
    by discriminate.
  repeat (split; [ assumption | ]).
  exact (multimodal_construction_needs_parser cloud MockCloud.perform region
           5 parserless_multimodal_args empty Hmulti Hfm Hbda Hsources).
Defined.

(** A foundation model and an inference profile of the same model. *)
Lemma model_arn_identifies_model_witness :
  String.get 0 (account_number demo_attributes) <> Some ":"%char /\
  "cohere.embed-v4:0" <> "us.cohere.embed-v4:0" /\
  _get_model_arn demo_attributes "cohere.embed-v4:0"
    <> _get_model_arn demo_attributes "us.cohere.embed-v4:0".
Proof.
  assert (Haccount :
            String.get 0 (account_number demo_attributes) <> Some ":"%char)
    by discriminate.
  assert (Hdifferent : "cohere.embed-v4:0" <> "us.cohere.embed-v4:0")
    by discriminate.
  split; [ exact Haccount | split; [ exact Hdifferent | ] ].
  exact (model_arn_identifies_model demo_attributes "cohere.embed-v4:0"
           "us.cohere.embed-v4:0" Haccount Hdifferent).
Defined.

(** The policy that gives the execution role access to the buckets. *)
Lemma policy_arn_second_segment_witness :
  no_slash (account_number demo_attributes) /\
  no_slash (s3_policy_name demo_attributes) /\
  deletes_service_role_policy
    (DeletePolicy (own_policy_arn demo_attributes
                     (s3_policy_name demo_attributes))) = false.
Proof.
  assert (Haccount : no_slash (account_number demo_attributes))
    by (apply no_slash_checked; vm_compute; reflexivity).
  assert (Hname : no_slash (s3_policy_name demo_attributes))
    by (apply no_slash_checked; vm_compute; reflexivity).
  split; [ exact Haccount | split; [ exact Hname | ] ].
  destruct (policy_arn_second_segment demo_attributes
              (s3_policy_name demo_attributes) Haccount Hname)
    as (_ & Hdeleted & _).
  rewrite Hdeleted. vm_compute. reflexivity.
Defined.

(** The collection of the first construction. *)
Lemma collection_is_created_or_retrieved_witness :
  outcome (create_oss MockCloud.perform 5 demo_self empty)
    = Ok ("col-bedrock-sample-rag-demo-u.us-west-2.aoss.amazonaws.com",
          "col-bedrock-sample-rag-demo-u",
          "arn:aws:aoss:collection/col-bedrock-sample-rag-demo-u") /\
  exists d rest,
    In (Called (BatchGetCollection (vector_store_name demo_self))
          (Returns (CollectionDetails (d :: rest))))
      (trace (create_oss MockCloud.perform 5 demo_self empty)) /\
    collection_status d <> "CREATING".
Proof.
  assert (Hok :
            outcome (create_oss MockCloud.perform 5 demo_self empty)
              = Ok ("col-bedrock-sample-rag-demo-u.us-west-2.aoss.amazonaws.com",
                    "col-bedrock-sample-rag-demo-u",
                    "arn:aws:aoss:collection/col-bedrock-sample-rag-demo-u"))
    by (vm_compute; reflexivity).
  split; [ exact Hok | ].
  destruct (collection_is_created_or_retrieved cloud MockCloud.perform 5
              demo_self empty _ _ _ Hok) as (_ & _ & Hactive).
  exact Hactive.
Defined.

(** A data source without its [type]. *)
Lemma descriptor_type_is_required_witness :
  arg_data_sources untyped_source_args
    = Some [ {| scalars := [("bucket_name", "demo-docs")]; lists := [] |} ] /\
  (exists d,
     In d [ {| scalars := [("bucket_name", "demo-docs")]; lists := [] |} ] /\
     dict_get (scalars d) "type" = None) /\
  exists k,
    outcome (__init__ MockCloud.perform region 5 untyped_source_args empty)
      = Raise (KeyError k).
Proof.
  assert (Hsources :
            arg_data_sources untyped_source_args
              = Some [ {| scalars := [("bucket_name", "demo-docs")];
                          lists := [] |} ])
    by reflexivity.
  assert (Huntyped :
            exists d,
              In d [ {| scalars := [("bucket_name", "demo-docs")];
                        lists := [] |} ] /\
              dict_get (scalars d) "type" = None)
    by (eexists; split; [ left; reflexivity | reflexivity ]).
  split; [ exact Hsources | split; [ exact Huntyped | ] ].
  pose proof (descriptor_type_is_required cloud MockCloud.perform region 5
                untyped_source_args empty _ Hsources Huntyped) as H.
  cbv zeta in H. destruct H as (_ & _ & Hkey).
  apply (Hkey account caller empty account caller empty); reflexivity.
Defined.

End FurtherRuns.
